(* ===== verification/_CoqProject ===== *)
-Q . S2P
Prelude.v
PyDict.v
PyValue.v
State.v
Binder.v
Chain.v
Render.v
Predicates.v
Builder.v
Shape.v
Call.v
Refine.v
Statement.v
Nest.v
Tests.v
