(* ===== verification/Prelude.v ===== *)
(** * A verification development of gremlinpy (src/gremlinpy/gremlin.py)

    gremlinpy assembles Gremlin/Groovy query text with a fluent Python 2
    builder.  Every attribute read, call or index on a [Gremlin] object
    appends a token to a singly linked chain; [str(gremlin)] walks the
    chain and joins the tokens' texts.  Literal arguments of a function
    are replaced by generated placeholders [GPY_PARAM_<seed>_<n>] whose
    values are collected in the builder's [bound_params] dict, and a
    builder nested inside another one pushes its bindings up to its
    parent.  Predicates ([eq], [_p], ...) are values rendered as
    [name(args)].

    ** How the program is modelled

    The program's objects live in a heap ([State.heap]): an arena of
    builders and an arena of tokens ([gmap]s keyed by object identity),
    the allocator of identities, and an oracle for [uuid.uuid4()]
    (whose last five characters, [str(uuid.uuid4())[-5:]] sliced by
    [py_tail], seed the placeholder names).  Tokens
    point to their successor by identity, so the linked chain of
    [LinkList] and its aliasing are modelled as they are; [State.chain]
    relates a chain to the list of its nodes.  Every method is a
    computation of the monad [PyM] of this file: state passing with
    Python exceptions as values, where the state survives an exception
    (Python keeps the mutations made before a raise).  Values are
    [PyValue.pyval], one constructor per kind of object the code tells
    apart with [isinstance]; Python 2's [int] and [long] are distinct
    ([VInt], [VLong]; [int_of_Z] makes an integer as Python 2 does, an
    [int] within [sys.maxint], a [long] beyond it), since [fix_value]
    binds an [int] and leaves a [long] raw.

    - [Prelude] (this file): exceptions [pyexc], the monad [PyM] and its
      laws, [keeps] (a relation every run of a computation keeps between
      its states, closed under bind), Python's [str.join], the hint
      database [gremlin] and the tactics [py_step], [py_simpl].
    - [PyDict]: a dict as an association list, with its invariant
      [dict_wf], the equivalence [dict_equiv] and the [Proper] instances
      for setoid rewriting.  Python 2 iterates a dict in hash order, not
      insertion order; where the code iterates ([bind_params] over the
      child's dict when nesting) the result is independent of the order
      ([Binder.overlay_perm]), so the list order stands for any.
    - [PyValue]: values, Python 2 [str]/[repr], [str.join] over values,
      hashability and [value in dict].
    - [State]: tokens ([Token] and its ten subclasses as [tkind], with
      [concat] and [can_bind]), the [Gremlin] record, the heap, its
      accessors, and the chain representation predicate.
    - [Binder]: [bind_param], [bind_params], [set_parent_gremlin] (lines
      148-178).
    - [Chain]: [Gremlin.__init__], [reset], [set_graph_variable],
      [_Tokenable.fix_value], [Token.__init__], [add_token],
      [remove_token] and the inherited [LinkList.add] and
      [LinkList.remove] (lines 15-35, 83-98, 216-245, 253-302), and
      what the two removals do to the chain.
    - [Render]: [LinkList.__unicode__] with [Gremlin.can_use],
      [Gremlin.__unicode__], every token's [__unicode__] and
      [Predicate.__unicode__] (lines 40-110, 305-436) as one mutual
      recursion, and the specification of the text ([spec_join]).
    - [Predicates]: [_p], [Predicate], [_NamedPredicate] and the eleven
      named classes (lines 419-494).  [Predicate.__getattr__] answers
      every missing attribute with the predicate itself, so the base
      class's [_function] is the predicate ([Render.pred_str_self]) and a
      predicate's [self.gremlin.gv] is the predicate
      ([Chain.gremlin_pred_gv]); both recursions are modelled with the
      recursion limit as fuel.
    - [Builder]: [__getattr__], [__call__], [__getitem__], [func],
      [func_raw], [unbound], [func_raw_unbound], [range], [close], [raw],
      [set_ret_variable] (lines 112-237); [reaches_getattr] is Python's
      attribute lookup: [__getattr__] runs only for a name that is not a
      method or attribute of [Gremlin] ([gremlin_members]).
    - [Shape]: the frame of the binder ([same_shape]: binding touches
      only binding state), the executable abstract view of a builder
      ([builder_view]: its [return_var] and the kinds and texts of its
      tokens) and the refinement of [__getattr__] and the constructor on
      that view.
    - [Call]: [__call__] on the view, with the binding of the arguments.
    - [Refine]: the abstract builder ([abs_builder]: prefix, items,
      bindings, seed, counter), the abstract effect [abs_step] of every
      operation of the fluent surface ([op]), the abstraction relation
      [abs_of] and the simulation of [abs_step] by the methods of
      [Gremlin] (attribute, call, index, [func], [func_raw],
      [unbound], [func_raw_unbound], [close], [raw] and the setters).
    - [Statement]: the statement collaborator (statement.py, not in the
      sources) as the class [Statement] of the calls the core makes
      ([gremlin], [set_gremlin], [build], from spec section 6), with
      [Gremlin.apply_statement] and [_Tokenable.apply_statement] (lines
      247-250, 261-267) defined against it; [ops_statement], whose
      fragment is a program of [op]s, is an instance, on which
      [Gremlin.apply_statement] is proved to refine the program.
    - [Nest]: a builder passed as a function argument of another one,
      through [func] or through [__call__] ([g.nest(c)]): construction
      nests it (its bindings move up), rendering nests it again and
      inlines its text, after which the parent's text is frozen.
    - [Tests]: the test suite src/gremlinpy/tests/gremlin.py replayed on
      the model (a test's [g.name(...)] resolves as Python does: the
      method [Gremlin.func] for [func], [__getattr__] otherwise), and the
      collision of placeholder seeds.

    ** What is proved

    - Rendering: [Render.gremlin_str_spec] (the text is [spec_join] of the
      tokens' kinds and texts), [Render.gremlin_str_idempotent].
    - Refinement of the whole surface: [Refine.run_op_refines] (each
      operation implements its abstract effect) and [Refine.program_str]
      (the text of a program of operations is the abstract text).
    - Chain operations refine list operations on the view:
      [Shape.attribute_chain_str], [Call.gremlin_call_binds_all] (every
      scalar argument is bound, not only the last one),
      [Chain.remove_token_unlinks]; [Shape.fix_value_shape] is the frame.
    - Equivalence and composition: [Call.call_after_getattr_is_func]
      ([g.name(args)] and [g.func('name', args)] build the same builder),
      [Nest.nest_func_str] and [Nest.nest_call_str] (a nested builder,
      passed to [func] or to [__call__], renders inside its parent and
      its bindings move up), [Nest.render_freezes_nested_builder] (after
      a first rendering, later changes to a nested builder never reach
      its parent's text).
    - Defects of the builder surface, as theorems over every builder
      whose chain renders: [Shape.range_str_raises] ([range] with integer
      bounds cannot be rendered), [Shape.open_slice_renders_as_index]
      ([g[n:]] prints as [g[n]]), [Shape.reset_restores_constructor_gv]
      and [Builder.statement_value_raises] (the [apply_statment] typo),
      [Chain.linklist_remove_removes_nothing] ([g.remove(link)] changes
      no link of the chain).
    - Parameters: [Call.func_scalar_args_bound] (every scalar argument of
      a function reaches its token as the name of a bound parameter, the
      property the injection tests check), [Chain.seed_is_uuid_tail]
      (the seed is the five-character tail of the uuid),
      [Call.func_long_args_unbound] (a Python 2 [long] argument is not
      bound: its digits reach the text).
    - Binding: [Binder.bind_param_fresh], [bind_param_backref],
      [bind_param_no_overwrite], [set_parent_propagates],
      [set_parent_idempotent], termination [bind_param_terminates],
      liveness [bind_param_reaches_root] (a binding made on a nested
      builder reaches every builder above it, up to the root), and the
      failures [bind_param_self_parent_diverges],
      [set_parent_drops_placeholder_value].
    - Statements: [Statement.apply_statement_refines] (applying a
      statement whose fragment is any covered program refines that
      program on the abstract builder) and [Statement.tokenable_apply_statement_fresh]
      (a token nests a new builder for a statement that has none).
    - Predicates: rendering and its three failure modes, the two
      recursions proved to diverge for every recursion limit.
    - Tests: [Tests.test_suite_verdicts] (five tests fail on this code),
      [seed_collision_loses_binding] (two builders whose uuids end alike
      lose a binding when nested).

    ** Bounds and fuel

    Python's recursion limit is the [fuel] of the recursive definitions
    ([bind_param] up the parents, [str] through nested builders and
    tokens); running out raises [RecursionError].  The theorems that a
    computation succeeds give the fuel they need (at most three levels
    for a flat chain, one more than the depth of the parent chain for
    binding), so they are statements of termination, and the divergence
    theorems hold for every fuel.  The [while] loops over a chain are
    bounded by one more than the number of tokens in the heap, which a
    chain without a cycle never exceeds ([State.chain_length_size]); a
    walk that exhausts the bound was on a cycle ([InfiniteLoop]).

    ** Not modelled

    [statement.py], [config.py] and [exception.py] are not part of the
    sources.  Their code is not modelled: the statement is the interface
    of [Statement], a [Statement] value inside a token is opaque (the
    renderers' statement branches raise [NotModelled], after the
    [apply_statment] typo has raised on construction), and
    [GRAPH_VARIABLE] is ['g'].  [Gremlin(P)] for a predicate [P] never
    returns (it exhausts the recursion limit); its code after the
    recursion is [NotModelled].
    Output ([Predicate.__call__] prints), floats, unicode strings and the
    addresses in the [repr] of objects are not modelled.
    The attribute [token.bottom] that [LinkList.remove] writes is read by
    no code; the model returns those writes instead of storing them. *)

From stdpp Require Export base list strings gmap pretty.
From Stdlib Require Export ZArith.

Declare Scope gremlin_scope.
Delimit Scope gremlin_scope with gremlin.
#[local] Open Scope string_scope.

(** ** Python exceptions *)

(** The exceptions the modelled code raises.  [RecursionError] is
    Python's "maximum recursion depth exceeded": the fuel of the
    recursive definitions stands for the interpreter's recursion limit.
    [InfiniteLoop] marks a [while] loop over a linked chain that would
    not terminate (the walk is bounded by the number of tokens that
    exist).  [Dangling] is a reference to an object the heap does not
    hold; it cannot happen on a well-formed heap. *)
Inductive pyexc :=
  | TypeError (msg : string)
  | AttributeError (name : string)
  | PredicateError (msg : string)
  | RuntimeError (msg : string)
  | KeyError (msg : string)
  | RecursionError
  | InfiniteLoop
  | Dangling
  | NotModelled (what : string).

#[export] Instance pyexc_eq_dec : EqDecision pyexc.
Proof. solve_decision. Defined.

(** ** A state-and-error monad that keeps the state on errors *)

Definition PyM (S A : Type) : Type := S → (pyexc + A) * S.

#[export] Instance PyM_ret {S} : MRet (PyM S) := λ A x s, (inr x, s).
#[export] Instance PyM_bind {S} : MBind (PyM S) := λ A B f m s,
  match m s with
  | (inl e, s') => (inl e, s')
  | (inr x, s') => f x s'
  end.
#[export] Instance PyM_throw {S} : MThrow pyexc (PyM S) := λ A e s, (inl e, s).

Definition get_st {S} : PyM S S := λ s, (inr s, s).
Definition put_st {S} (s : S) : PyM S unit := λ _, (inr (), s).
Definition modify_st {S} (f : S → S) : PyM S unit := λ s, (inr (), f s).

(** Python's [for x in l: f(x)], stopping at the first exception. *)
Fixpoint py_iter {S A} (f : A → PyM S unit) (l : list A) : PyM S unit :=
  match l with
  | [] => mret ()
  | x :: l' => f x ≫= λ _, py_iter f l'
  end.

(** [[f(x) for x in l]] *)
Fixpoint py_map {S A B} (f : A → PyM S B) (l : list A) : PyM S (list B) :=
  match l with
  | [] => mret []
  | x :: l' => f x ≫= λ y, py_map f l' ≫= λ ys, mret (y :: ys)
  end.

Section monad_laws.
  Context {S A B : Type}.

Lemma run_ret (x : A) (s : S) : (mret x : PyM S A) s = (inr x, s).
  Proof. done. Qed.

Lemma run_throw (e : pyexc) (s : S) : (mthrow e : PyM S A) s = (inl e, s).
  Proof. done. Qed.

Lemma run_bind_ok (m : PyM S A) (f : A → PyM S B) s x s' :
    m s = (inr x, s') → (m ≫= f) s = f x s'.
  Proof. intros H. unfold mbind, PyM_bind. by rewrite H. Qed.

Lemma run_bind_err (m : PyM S A) (f : A → PyM S B) s e s' :
    m s = (inl e, s') → (m ≫= f) s = (inl e, s').
  Proof. intros H. unfold mbind, PyM_bind. by rewrite H. Qed.

Lemma run_bind_err_fst (m : PyM S A) (f : A → PyM S B) s e :
    (m s).1 = inl e → ((m ≫= f) s).1 = inl e.
  Proof. unfold mbind, PyM_bind. destruct (m s) as [[e'|x] s']; simpl; congruence. Qed.

Lemma run_bind_ret (x : A) (f : A → PyM S B) s : (mret x ≫= f) s = f x s.
  Proof. done. Qed.

Lemma run_get (s : S) : (get_st : PyM S S) s = (inr s, s).
  Proof. done. Qed.
End monad_laws.

(** ** Relations a computation keeps between its states

    [keeps R m]: every run of [m], normal or exceptional, ends in a state
    related by [R] to the one it started from.  For a preorder this is
    closed under the monad's operations, so a frame property of a whole
    handler follows from those of its steps. *)
Section keeps.
Context {S : Type} (R : relation S).

Definition keeps {A} (m : PyM S A) : Prop := ∀ s, R s (m s).2.

Context `{!PreOrder R}.

Lemma keeps_ret {A} (x : A) : keeps (mret x).
Proof. intros s. simpl. reflexivity. Qed.

Lemma keeps_throw {A} (e : pyexc) : keeps (A:=A) (mthrow e).
Proof. intros s. simpl. reflexivity. Qed.

Lemma keeps_get : keeps get_st.
Proof. intros s. simpl. reflexivity. Qed.

Lemma keeps_bind {A B} (m : PyM S A) (f : A → PyM S B) :
  keeps m → (∀ x, keeps (f x)) → keeps (m ≫= f).
Proof.
  intros Hm Hf s. unfold mbind, PyM_bind. specialize (Hm s).
  destruct (m s) as [[e|x] s']; simpl in *; [done|]. etrans; [exact Hm|apply Hf].
Qed.

Lemma keeps_py_iter {A} (f : A → PyM S unit) l : (∀ x, x ∈ l → keeps (f x)) → keeps (py_iter f l).
Proof.
  induction l as [|x l IH]; intros Hf; simpl; [apply keeps_ret|].
  apply keeps_bind; [apply Hf; set_solver|intros _; apply IH; set_solver].
Qed.

Lemma keeps_py_map {A B} (f : A → PyM S B) l : (∀ x, x ∈ l → keeps (f x)) → keeps (py_map f l).
Proof.
  induction l as [|x l IH]; intros Hf; simpl; [apply keeps_ret|].
  apply keeps_bind; [apply Hf; set_solver|intros y].
  apply keeps_bind; [apply IH; set_solver|intros ys; apply keeps_ret].
Qed.
End keeps.

(** ** Strings and lists as Python uses them *)

Lemma string_app_cons c x y : String c x +:+ y = String c (x +:+ y).
Proof. done. Qed.

#[export] Instance string_app_assoc : Assoc (=) String.append.
Proof. intros x y z. induction x as [|c x IH]; [done|]. by rewrite !string_app_cons, IH. Qed.

#[export] Instance string_app_left_id : LeftId (=) "" String.append.
Proof. done. Qed.

#[export] Instance string_app_right_id : RightId (=) "" String.append.
Proof. intros x. induction x as [|c x IH]; [done|]. by rewrite string_app_cons, IH. Qed.

(** [sep.join(l)] *)
Abbreviation py_join := String.concat.

Lemma py_join_nil sep : py_join sep [] = "".
Proof. done. Qed.

Lemma py_join_one sep s : py_join sep [s] = s.
Proof. done. Qed.

Lemma py_join_cons2 sep s1 s2 l :
  py_join sep (s1 :: s2 :: l) = s1 +:+ sep +:+ py_join sep (s2 :: l).
Proof. done. Qed.

Lemma py_join_app_one sep l s :
  l ≠ [] → py_join sep (l ++ [s]) = py_join sep l +:+ sep +:+ s.
Proof.
  induction l as [|a l IH]; intros Hne; [done|].
  destruct l as [|b l]; [done|].
  change ((a :: b :: l) ++ [s])%list with (a :: b :: (l ++ [s]))%list.
  rewrite !py_join_cons2. change (b :: l ++ [s])%list with ((b :: l) ++ [s])%list.
  rewrite IH by done. by rewrite !(assoc String.append).
Qed.

Lemma py_join_empty_cons a l : py_join "" (a :: l) = a +:+ py_join "" l.
Proof. destruct l as [|b l]; [by rewrite (right_id "" String.append)|done]. Qed.

Lemma py_join_empty_app l1 l2 : py_join "" (l1 ++ l2) = py_join "" l1 +:+ py_join "" l2.
Proof.
  induction l1 as [|a l1 IH]; [done|].
  rewrite <-app_comm_cons, !py_join_empty_cons, IH. by rewrite (assoc String.append).
Qed.

(** Python's slice [s[-n:]]: the last [n] characters of [s], all of [s]
    when it is shorter. *)
Definition py_tail (n : nat) (s : string) : string :=
  String.substring (String.length s - n) n s.

Lemma substring_0_long m s : (String.length s ≤ m)%nat → String.substring 0 m s = s.
Proof.
  revert m. induction s as [|c s IH]; intros m Hm; [by destruct m|].
  destruct m as [|m]; [simpl in Hm; lia|]. simpl in *. rewrite IH; [done|lia].
Qed.

Lemma substring_suffix k s :
  (k ≤ String.length s)%nat →
  ∃ p, s = p +:+ String.substring k (String.length s - k) s ∧
    String.length (String.substring k (String.length s - k) s) = String.length s - k.
Proof.
  revert k. induction s as [|c s IH]; intros k Hk.
  - destruct k; [|simpl in Hk; lia]. by exists "".
  - destruct k as [|k].
    + exists "". rewrite Nat.sub_0_r, substring_0_long by done. done.
    + simpl in Hk. destruct (IH k ltac:(lia)) as (p & Hp & Hl).
      exists (String c p). cbn [String.length String.substring]. rewrite Nat.sub_succ.
      split; [|done]. rewrite string_app_cons. by f_equal.
Qed.

(** [s[-n:]] has [min n (len s)] characters and is a suffix of [s]. *)
Lemma py_tail_spec n s :
  String.length (py_tail n s) = (min n (String.length s))%nat ∧ ∃ p, s = p +:+ py_tail n s.
Proof.
  unfold py_tail. destruct (decide (n ≤ String.length s)%nat) as [Hle|Hgt].
  - destruct (substring_suffix (String.length s - n) s) as (p & Hp & Hl); [lia|].
    replace (String.length s - (String.length s - n)) with n in Hp, Hl by lia.
    split; [lia|by exists p].
  - replace (String.length s - n) with 0 by lia. rewrite substring_0_long by lia.
    split; [lia|by exists ""].
Qed.

Lemma py_tail_short n s : (String.length s ≤ n)%nat → py_tail n s = s.
Proof. intros Hs. unfold py_tail. replace (String.length s - n) with 0 by lia. by apply substring_0_long. Qed.

(** [l.pop()] on a non-empty list: the last element and the rest. *)
Definition py_pop {A} (l : list A) : option (list A * A) :=
  match last l with
  | Some x => Some (removelast l, x)
  | None => None
  end.

Lemma py_pop_app {A} (l : list A) x : py_pop (l ++ [x]) = Some (l, x).
Proof.
  unfold py_pop. rewrite last_snoc. f_equal. f_equal.
  by rewrite removelast_last.
Qed.

Lemma py_pop_Some {A} (l l' : list A) x : py_pop l = Some (l', x) → l = (l' ++ [x])%list.
Proof.
  unfold py_pop. destruct (last l) as [y|] eqn:E; [|done].
  intros [= <- <-]. apply last_Some in E as [l0 ->]. by rewrite removelast_last.
Qed.

Lemma py_pop_nil {A} : py_pop (@nil A) = None.
Proof. done. Qed.

(** ** Automation *)

Create HintDb gremlin discriminated.
Create Rewrite HintDb gremlin.
#[export] Hint Rewrite @run_ret @run_throw @run_bind_ret @run_get : gremlin.
#[export] Hint Rewrite @py_join_nil @py_join_one @py_pop_app : gremlin.
#[export] Hint Resolve keeps_ret keeps_throw keeps_get : gremlin.

(** [py_step H] rewrites the first bind of the goal with a hypothesis
    [H : m s = (inr x, s')] or [H : m s = (inl e, s')]. *)
Ltac py_step H :=
  first [ rewrite (run_bind_ok _ _ _ _ _ H) | rewrite (run_bind_err _ _ _ _ _ H) ].

(** [py_simpl] unfolds the monad's instances and simplifies. *)
Ltac py_simpl :=
  cbn [mbind mret mthrow PyM_bind PyM_ret PyM_throw get_st put_st modify_st] in *;
  autorewrite with gremlin in *.
