(* ===== verification/PyDict.v ===== *)
(** * PyDict: the Python dict of [Gremlin.bound_params]

    [bound_params] is a dict from parameter names to values.  Assigning
    to an existing key replaces its value, assigning to a new key adds
    it.  Python 2 iterates a dict in the order of its hash table; the
    model keeps the entries in insertion order.  The iteration that
    builds state ([set_parent_gremlin] re-binding the child's entries in
    the parent) gives the same dict in every order when no child value
    is a placeholder name ([Binder.overlay_perm]); the tests' [popitem]
    is modelled as any choice.  The dict is an association
    list with that assignment; [dict_wf] (no duplicate key) is its
    invariant, and [dict_equiv] (same lookups) is the coarser
    equivalence under which
    [dict_set] and [dict_get] are [Proper]. *)

From S2P Require Import Prelude.

Definition dict (V : Type) : Type := list (string * V).

Section dict.
  Context {V : Type}.
  Implicit Types (d : dict V) (k : string) (v : V).

  (** [d.get(k)] *)
Fixpoint dict_get d k : option V :=
    match d with
    | [] => None
    | (k', v) :: d' => if decide (k = k') then Some v else dict_get d' k
    end.

  (** [d[k] = v] *)
Fixpoint dict_set d k v : dict V :=
    match d with
    | [] => [(k, v)]
    | (k', v') :: d' =>
        if decide (k = k') then (k', v) :: d' else (k', v') :: dict_set d' k v
    end.

  (** [list(d)]: the keys in iteration order. *)
Definition dict_keys d : list string := d.*1.

  (** [k in d] *)
Definition dict_mem d k : bool := bool_decide (k ∈ dict_keys d).

Definition dict_wf d : Prop := NoDup (dict_keys d).

Definition dict_equiv d1 d2 : Prop := ∀ k, dict_get d1 k = dict_get d2 k.

Lemma dict_get_set_eq d k v : dict_get (dict_set d k v) k = Some v.
  Proof.
    induction d as [|[k' v'] d IH]; simpl; [by rewrite decide_True|].
    case_decide; simpl; rewrite ?decide_True by done; [done|].
    by rewrite decide_False.
  Qed.

Lemma dict_get_set_ne d k k' v :
    k ≠ k' → dict_get (dict_set d k v) k' = dict_get d k'.
  Proof.
    intros Hne. induction d as [|[k0 v0] d IH]; simpl.
    - by rewrite decide_False.
    - case_decide; simplify_eq; simpl; repeat case_decide; congruence.
  Qed.

Lemma dict_get_set d k k' v :
    dict_get (dict_set d k v) k' = if decide (k = k') then Some v else dict_get d k'.
  Proof.
    case_decide; subst; [apply dict_get_set_eq | by apply dict_get_set_ne].
  Qed.

Lemma dict_get_in_keys d k : is_Some (dict_get d k) ↔ k ∈ dict_keys d.
  Proof.
    induction d as [|[k' v'] d IH]; simpl.
    - split; [by intros []|]. intros Hk. by apply elem_of_nil in Hk.
    - rewrite elem_of_cons. case_decide; [naive_solver|]. rewrite IH. naive_solver.
  Qed.

Lemma dict_get_None d k : dict_get d k = None ↔ k ∉ dict_keys d.
  Proof. rewrite <-dict_get_in_keys, eq_None_not_Some. done. Qed.

Lemma dict_mem_get d k : dict_mem d k = true ↔ is_Some (dict_get d k).
  Proof. unfold dict_mem. rewrite bool_decide_eq_true, dict_get_in_keys. done. Qed.

Lemma dict_keys_set_in d k v :
    k ∈ dict_keys d → dict_keys (dict_set d k v) = dict_keys d.
  Proof.
    unfold dict_keys. induction d as [|[k' v'] d IH]; simpl; intros Hk.
    - by apply elem_of_nil in Hk.
    - case_decide; simpl; [by subst|]. f_equal.
      apply elem_of_cons in Hk as [->|Hk]; [done|]. by apply IH.
  Qed.

Lemma dict_keys_set_notin d k v :
    k ∉ dict_keys d → dict_keys (dict_set d k v) = dict_keys d ++ [k].
  Proof.
    unfold dict_keys. induction d as [|[k' v'] d IH]; simpl; intros Hk; [done|]. apply not_elem_of_cons in Hk as [Hne Hk].
    rewrite decide_False by done. simpl. f_equal. by apply IH.
  Qed.

(** Storing a new key appends it to the association list. *)
Lemma dict_set_notin d k v : k ∉ dict_keys d → dict_set d k v = d ++ [(k, v)].
  Proof.
    unfold dict_keys. induction d as [|[k' v'] d IH]; simpl; intros Hk; [done|]. apply not_elem_of_cons in Hk as [Hne Hk].
    rewrite decide_False by done. f_equal. by apply IH.
  Qed.

Lemma dict_set_wf d k v : dict_wf d → dict_wf (dict_set d k v).
  Proof.
    unfold dict_wf. intros Hwf. destruct (decide (k ∈ dict_keys d)).
    - by rewrite dict_keys_set_in.
    - rewrite dict_keys_set_notin by done. apply NoDup_app. split; [done|].
      split; [set_solver|]. apply NoDup_singleton.
  Qed.

Lemma dict_set_length_in d k v :
    k ∈ dict_keys d → length (dict_set d k v) = length d.
  Proof.
    intros Hk. rewrite <-(length_fmap fst (dict_set d k v)), <-(length_fmap fst d).
    by apply (f_equal length), dict_keys_set_in.
  Qed.

  (** Assigning the value a key already has changes nothing. *)
Lemma dict_set_id d k v : dict_get d k = Some v → dict_set d k v = d.
  Proof.
    induction d as [|[k' v'] d IH]; simpl; [done|].
    case_decide; [by intros [= ->]; subst|]. intros Hg. by rewrite IH.
  Qed.

Lemma dict_set_set d k v v' : dict_set (dict_set d k v) k v' = dict_set d k v'.
  Proof.
    induction d as [|[k0 v0] d IH]; simpl.
    - by rewrite decide_True.
    - case_decide; simpl; rewrite ?decide_True, ?decide_False by done; [done|].
      by rewrite IH.
  Qed.

Lemma dict_get_elem d k v : dict_wf d → (k, v) ∈ d → dict_get d k = Some v.
  Proof.
    unfold dict_wf, dict_keys. induction d as [|[k' v'] d IH]; intros Hnd Hin;
      [by apply elem_of_nil in Hin|].
    simpl in Hnd. apply NoDup_cons in Hnd as [Hn Hnd]. simpl.
    apply elem_of_cons in Hin as [Heq|Hin]; [simplify_eq; by rewrite decide_True|].
    rewrite decide_False; [by apply IH|]. intros Heq. subst k'. apply Hn.
    apply list_elem_of_fmap. by exists (k, v).
  Qed.

Lemma dict_keys_set d k v :
    k ∈ dict_keys (dict_set d k v) ∧ dict_keys d ⊆ dict_keys (dict_set d k v).
  Proof.
    destruct (decide (k ∈ dict_keys d)) as [Hin|Hn].
    - by rewrite dict_keys_set_in.
    - rewrite dict_keys_set_notin by done. set_solver.
  Qed.

Lemma dict_get_Some_elem d k v : dict_get d k = Some v → (k, v) ∈ d.
  Proof.
    induction d as [|[k' v'] d IH]; simpl; [done|].
    case_decide as Hkk; [intros [= <-]; subst; by left|intros Hg; right; by apply IH].
  Qed.

#[export] Instance dict_equiv_equivalence : Equivalence dict_equiv.
  Proof. split; repeat intro; congruence. Qed.

#[export] Instance dict_get_proper : Proper (dict_equiv ==> eq ==> eq) dict_get.
  Proof. intros d1 d2 Hd k ? <-. apply Hd. Qed.

#[export] Instance dict_set_proper : Proper (dict_equiv ==> eq ==> eq ==> dict_equiv) dict_set.
  Proof.
    intros d1 d2 Hd k ? <- v ? <- k'. rewrite !dict_get_set. case_decide; [done|]. apply Hd.
  Qed.

Lemma dict_set_comm d k1 k2 v1 v2 :
    k1 ≠ k2 → dict_equiv (dict_set (dict_set d k1 v1) k2 v2) (dict_set (dict_set d k2 v2) k1 v1).
  Proof. intros Hne k. rewrite !dict_get_set. repeat case_decide; congruence. Qed.
End dict.

#[export] Hint Resolve dict_set_wf : gremlin.
#[export] Hint Rewrite @dict_get_set_eq @dict_set_set : gremlin.
