(* ===== verification/PyValue.v ===== *)
(** * PyValue: the Python values the builder handles, with [str] and [repr]

    A token's value and arguments are arbitrary Python objects.  The
    code distinguishes them by [isinstance]/[type] tests in
    [_Tokenable.fix_value] (gremlin.py lines 269-285) and renders them
    with [str] or [repr].  [pyval] has one constructor per kind of
    object the code tells apart: the scalars it may bind (str, int,
    bool), Python 2's [long] (which [isinstance(value, int)] rejects),
    None, lists and tuples, slices (built by [__getitem__]), and
    references to the mutable objects of the program: a [Gremlin]
    builder (by its identity in the heap), a [Predicate] (its class
    name, its [_function] if it has one, its arguments) and a
    [Statement] of statement.py.

    This file holds the pure part of Python's [str]/[repr] (the objects
    whose [__str__] runs code are rendered in [Render]), Python 2's
    [repr] of a byte string, [str.join] over values, and the
    hashability test behind [value in dict]. *)

From S2P Require Import Prelude PyDict.
#[local] Open Scope string_scope.

(** [sys.maxint] of a 64-bit CPython 2: a Python 2 [int] lies in
    [[-sys.maxint - 1, sys.maxint]]; arithmetic beyond it yields a
    [long]. *)
Definition sys_maxint : Z := (2 ^ 63 - 1)%Z.

Definition py_int_range (z : Z) : bool := bool_decide (- sys_maxint - 1 ≤ z ≤ sys_maxint)%Z.

Inductive pyval :=
  | VStr (s : string)
  | VInt (z : Z)
  | VLong (z : Z)
  | VBool (b : bool)
  | VNone
  | VList (l : list pyval)
  | VTuple (l : list pyval)
  | VSlice (start stop step : pyval)
  | VGremlin (g : nat)
  | VPred (cls : string) (function : option string) (args : list pyval)
  | VStatement (s : nat).

(** The integer a Python 2 computation yields for [z] ([2 ** 63] is a
    [long]). *)
Definition int_of_Z (z : Z) : pyval := if py_int_range z then VInt z else VLong z.

(** An induction principle that sees the values inside lists. *)
Section pyval_ind'.
  Context (P : pyval → Prop).
  Context (Hstr : ∀ s, P (VStr s)) (Hint : ∀ z, P (VInt z)) (Hlong : ∀ z, P (VLong z))
          (Hbool : ∀ b, P (VBool b))
          (Hnone : P VNone) (Hlist : ∀ l, Forall P l → P (VList l))
          (Htuple : ∀ l, Forall P l → P (VTuple l))
          (Hslice : ∀ a b c, P a → P b → P c → P (VSlice a b c))
          (Hgremlin : ∀ g, P (VGremlin g))
          (Hpred : ∀ cls f l, Forall P l → P (VPred cls f l))
          (Hstmt : ∀ s, P (VStatement s)).

Fixpoint pyval_ind' (v : pyval) : P v :=
    let fix go (l : list pyval) : Forall P l :=
      match l with
      | [] => List.Forall_nil P
      | x :: l' => List.Forall_cons P x l' (pyval_ind' x) (go l')
      end in
    match v with
    | VStr s => Hstr s
    | VInt z => Hint z
    | VLong z => Hlong z
    | VBool b => Hbool b
    | VNone => Hnone
    | VList l => Hlist l (go l)
    | VTuple l => Htuple l (go l)
    | VSlice a b c => Hslice a b c (pyval_ind' a) (pyval_ind' b) (pyval_ind' c)
    | VGremlin g => Hgremlin g
    | VPred cls f l => Hpred cls f l (go l)
    | VStatement s => Hstmt s
    end.
End pyval_ind'.

(** ** [repr] of a Python 2 byte string (Objects/stringobject.c) *)

Definition dquote : Ascii.ascii := Ascii.ascii_of_nat 34.
Definition squote : Ascii.ascii := Ascii.ascii_of_nat 39.
Definition backslash : Ascii.ascii := Ascii.ascii_of_nat 92.

Fixpoint has_char (c : Ascii.ascii) (s : string) : bool :=
  match s with
  | EmptyString => false
  | String c' s' => bool_decide (c = c') || has_char c s'
  end.

(** The quote: single, unless the text has a single and no double quote. *)
Definition repr_quote (s : string) : Ascii.ascii :=
  if has_char squote s && negb (has_char dquote s) then dquote else squote.

Definition hex_digit (n : nat) : Ascii.ascii :=
  Ascii.ascii_of_nat (if (n <? 10)%nat then 48 + n else 87 + n)%nat.

Definition escape_char (q c : Ascii.ascii) : string :=
  let n := Ascii.nat_of_ascii c in
  if bool_decide (c = q) || bool_decide (c = backslash) then String backslash (String c "")
  else if (n =? 9)%nat then String backslash "t"
  else if (n =? 10)%nat then String backslash "n"
  else if (n =? 13)%nat then String backslash "r"
  else if ((n <? 32) || (127 <=? n))%nat then
    String backslash (String (Ascii.ascii_of_nat 120) (String (hex_digit (n / 16)%nat) (String (hex_digit (n mod 16)%nat) "")))
  else String c "".

Fixpoint escape_string (q : Ascii.ascii) (s : string) : string :=
  match s with
  | EmptyString => ""
  | String c s' => escape_char q c +:+ escape_string q s'
  end.

Definition repr_str (s : string) : string :=
  let q := repr_quote s in String q (escape_string q s +:+ String q "").

(** ** [repr] and [str] of values *)

Definition py_str_bool (b : bool) : string := if b then "True" else "False".

(** [repr(x)].  An object without [__repr__] prints as
    [<module.Class object at 0x...>]; the address is left out. *)
Fixpoint py_repr (v : pyval) : string :=
  match v with
  | VStr s => repr_str s
  | VInt z => pretty z
  | VLong z => pretty z +:+ "L"
  | VBool b => py_str_bool b
  | VNone => "None"
  | VList l => "[" +:+ py_join ", " (map py_repr l) +:+ "]"
  | VTuple [x] => "(" +:+ py_repr x +:+ ",)"
  | VTuple l => "(" +:+ py_join ", " (map py_repr l) +:+ ")"
  | VSlice a b c => "slice(" +:+ py_repr a +:+ ", " +:+ py_repr b +:+ ", " +:+ py_repr c +:+ ")"
  | VGremlin _ => "<gremlinpy.gremlin.Gremlin object>"
  | VPred cls _ _ => "<gremlinpy.gremlin." +:+ cls +:+ " object>"
  | VStatement _ => "<gremlinpy.statement.Statement object>"
  end.

(** [str(x)] for the values whose [__str__] runs no code of the program:
    a string is itself, everything else prints as its [repr]. *)
Definition py_str_plain (v : pyval) : string :=
  match v with
  | VStr s => s
  | VLong z => pretty z
  | _ => py_repr v
  end.

(** The values whose [str] runs code of gremlin.py or statement.py. *)
Definition has_custom_str (v : pyval) : bool :=
  match v with
  | VGremlin _ | VPred _ _ _ | VStatement _ => true
  | _ => false
  end.

(** ** [sep.join(values)]: every item must be a string *)

Fixpoint as_strings (l : list pyval) : option (list string) :=
  match l with
  | [] => Some []
  | VStr s :: l' => (s ::.) <$> as_strings l'
  | _ :: _ => None
  end.

Definition join_values (sep : string) (l : list pyval) : pyexc + string :=
  match as_strings l with
  | Some ss => inr (py_join sep ss)
  | None => inl (TypeError "sequence item: expected string")
  end.

Lemma as_strings_map (ss : list string) : as_strings (map VStr ss) = Some ss.
Proof. induction ss as [|s ss IH]; [done|]. simpl. by rewrite IH. Qed.

Lemma join_values_strs sep (ss : list string) :
  join_values sep (map VStr ss) = inr (py_join sep ss).
Proof. unfold join_values. by rewrite as_strings_map. Qed.

Lemma join_values_not_str sep l v :
  (∀ s, v ≠ VStr s) → v ∈ l → ∃ e, join_values sep l = inl e.
Proof.
  intros Hv Hin. unfold join_values.
  enough (as_strings l = None) as -> by eauto.
  induction l as [|x l IH]; [by apply elem_of_nil in Hin|].
  apply elem_of_cons in Hin as [->|Hin].
  - destruct x; simpl; try done. by destruct (Hv s).
  - destruct x; simpl; try done. by rewrite IH.
Qed.

(** ** [value in dict]: hashing, then comparing with the keys *)

(** Lists and slices are unhashable (Python 2); a tuple is hashable when
    its items are. *)
Fixpoint py_hashable (v : pyval) : bool :=
  match v with
  | VList _ | VSlice _ _ _ => false
  | VTuple l => forallb py_hashable l
  | _ => true
  end.

(** [value in d] for a dict whose keys are strings: [Some (Some (k, x))]
    when the value is the key [k] (bound to [x]), [Some None] when it is
    no key, [None] for the [TypeError] of an unhashable value. *)
Definition dict_lookup_value {V} (d : dict V) (v : pyval) : option (option (string * V)) :=
  if py_hashable v then
    match v with
    | VStr s => Some ((λ x, (s, x)) <$> dict_get d s)
    | _ => Some None
    end
  else None.

Lemma dict_lookup_value_str {V} (d : dict V) s :
  dict_lookup_value d (VStr s) = Some ((λ x, (s, x)) <$> dict_get d s).
Proof. done. Qed.

Lemma dict_lookup_value_key {V} (d : dict V) v k x :
  dict_lookup_value d v = Some (Some (k, x)) → v = VStr k ∧ dict_get d k = Some x.
Proof.
  unfold dict_lookup_value. destruct (py_hashable v); [|done].
  destruct v; try done. destruct (dict_get d s) eqn:E; simpl; [|done]. by intros [= <- <-].
Qed.

#[export] Hint Rewrite @dict_lookup_value_str join_values_strs as_strings_map : gremlin.
