(* ===== verification/State.v ===== *)
(** * State: tokens, builders and the object heap

    [Token] (gremlin.py lines 288-302) and its subclasses
    [GraphVariable], [Attribute], [Function], [FunctionRaw],
    [UnboudFunction], [UnboudFunctionRaw], [Index], [Closure],
    [ClosureArguments], [Raw] (lines 305-416) become one record with a
    [tkind]; the class attributes [concat] and [can_bind] become
    functions of the kind.  A [Gremlin] (lines 80-98) is a record of
    its instance attributes.  Python objects live in a heap addressed
    by identity: a [gmap] of builders and a [gmap] of tokens (the arena
    the linked chain of [LinkList] lives in, with each token's [next]
    pointer).  [uuid.uuid4()] is an oracle in the heap: [uuids n] is
    [str(uuid.uuid4())] at its [n]-th call.

    [chain toks p l] says that following [next] pointers from [p]
    visits exactly the tokens [l] and stops; it is the representation
    predicate that relates the linked chain to a list. *)

From S2P Require Import Prelude PyDict PyValue.

Inductive tkind :=
  | GraphVariable | Attribute | Function | FunctionRaw | UnboudFunction
  | UnboudFunctionRaw | Index | Closure | ClosureArguments | Raw.

#[export] Instance tkind_eq_dec : EqDecision tkind.
Proof. solve_decision. Defined.

(** The class attribute [concat]: [Token] has [''], [Attribute],
    [Function] and [UnboudFunction] set ['.'], [FunctionRaw] and
    [UnboudFunctionRaw] set [''] again. *)
Definition concat_of (k : tkind) : string :=
  match k with
  | Attribute | Function | UnboudFunction => "."
  | _ => ""
  end.

(** The class attribute [can_bind]: only [Function] sets it; [FunctionRaw]
    inherits it. *)
Definition can_bind_of (k : tkind) : bool :=
  match k with
  | Function | FunctionRaw => true
  | _ => false
  end.

Record token := mkToken {
  tok_kind : tkind;
  tok_gremlin : nat;        (** [self.gremlin] *)
  tok_value : pyval;        (** [self.value] *)
  tok_args : list pyval;    (** [self.args] *)
  tok_next : option nat     (** [self.next] *)
}.

(** The parent a builder can be given: another builder, or a predicate
    (see [Chain.fix_value]: inside [Predicate.__init__], [self.gremlin]
    resolves to the predicate itself). *)
Inductive owner := OGremlin (g : nat) | OPredicate.

Record gremlin := mkGremlin {
  gv : string;                    (** [self.gv] *)
  top : nat;                      (** [self.top], the [GraphVariable] *)
  bottom : nat;                   (** [self.bottom] *)
  parent : option owner;          (** [self.parent] *)
  bound_params : dict pyval;      (** [self.bound_params] *)
  bound_param : string;           (** [self.bound_param], the name seed *)
  bound_count : nat;              (** [self.bound_count] *)
  return_var : option string      (** [self.return_var] *)
}.

Record heap := mkHeap {
  gremlins : gmap nat gremlin;
  tokens : gmap nat token;
  next_id : nat;
  uuids : nat → string;
  uuid_count : nat
}.

Abbreviation M := (PyM heap).

(** ** Field updates *)

Definition set_tok_args (t : token) (args : list pyval) : token :=
  mkToken (tok_kind t) (tok_gremlin t) (tok_value t) args (tok_next t).
Definition set_tok_value (t : token) (v : pyval) : token :=
  mkToken (tok_kind t) (tok_gremlin t) v (tok_args t) (tok_next t).
Definition set_tok_next (t : token) (n : option nat) : token :=
  mkToken (tok_kind t) (tok_gremlin t) (tok_value t) (tok_args t) n.

Definition set_bottom (gr : gremlin) (b : nat) : gremlin :=
  mkGremlin (gv gr) (top gr) b (parent gr) (bound_params gr) (bound_param gr)
            (bound_count gr) (return_var gr).
Definition set_parent (gr : gremlin) (p : option owner) : gremlin :=
  mkGremlin (gv gr) (top gr) (bottom gr) p (bound_params gr) (bound_param gr)
            (bound_count gr) (return_var gr).
Definition set_params (gr : gremlin) (d : dict pyval) : gremlin :=
  mkGremlin (gv gr) (top gr) (bottom gr) (parent gr) d (bound_param gr)
            (bound_count gr) (return_var gr).
Definition set_count (gr : gremlin) (n : nat) : gremlin :=
  mkGremlin (gv gr) (top gr) (bottom gr) (parent gr) (bound_params gr) (bound_param gr)
            n (return_var gr).
Definition set_return_var (gr : gremlin) (r : option string) : gremlin :=
  mkGremlin (gv gr) (top gr) (bottom gr) (parent gr) (bound_params gr) (bound_param gr)
            (bound_count gr) r.

Definition heap_set_gremlin (h : heap) (g : nat) (gr : gremlin) : heap :=
  mkHeap (<[g:=gr]> (gremlins h)) (tokens h) (next_id h) (uuids h) (uuid_count h).
Definition heap_set_token (h : heap) (t : nat) (tk : token) : heap :=
  mkHeap (gremlins h) (<[t:=tk]> (tokens h)) (next_id h) (uuids h) (uuid_count h).

(** ** Heap access in the monad *)

Definition load_gremlin (g : nat) : M gremlin := λ h,
  match gremlins h !! g with
  | Some gr => (inr gr, h)
  | None => (inl Dangling, h)
  end.

Definition load_token (t : nat) : M token := λ h,
  match tokens h !! t with
  | Some tk => (inr tk, h)
  | None => (inl Dangling, h)
  end.

Definition store_gremlin (g : nat) (gr : gremlin) : M unit :=
  modify_st (λ h, heap_set_gremlin h g gr).
Definition store_token (t : nat) (tk : token) : M unit :=
  modify_st (λ h, heap_set_token h t tk).

Definition update_gremlin (g : nat) (f : gremlin → gremlin) : M unit :=
  load_gremlin g ≫= λ gr, store_gremlin g (f gr).
Definition update_token (t : nat) (f : token → token) : M unit :=
  load_token t ≫= λ tk, store_token t (f tk).

(** A fresh object identity. *)
Definition alloc_id : M nat := λ h,
  (inr (next_id h), mkHeap (gremlins h) (tokens h) (S (next_id h)) (uuids h) (uuid_count h)).

(** [str(uuid.uuid4())[-5:]] *)
Definition draw_uuid : M string := λ h,
  (inr (uuids h (uuid_count h)),
   mkHeap (gremlins h) (tokens h) (next_id h) (uuids h) (S (uuid_count h))).

(** An empty heap whose [uuid4] oracle is [u]. *)
Definition heap_empty (u : nat → string) : heap := mkHeap ∅ ∅ 0 u 0.

(** ** The linked chain *)

Inductive chain (toks : gmap nat token) : option nat → list nat → Prop :=
  | chain_nil : chain toks None []
  | chain_cons t tk l :
      toks !! t = Some tk → chain toks (tok_next tk) l → chain toks (Some t) (t :: l).

(** The tokens of a builder after its [GraphVariable], in chain order,
    with [bottom] the last node. *)
Definition gremlin_chain (toks : gmap nat token) (gr : gremlin) (l : list nat) : Prop :=
  chain toks (Some (top gr)) (top gr :: l) ∧ last (top gr :: l) = Some (bottom gr).

(** A decision procedure for [chain]. *)
Fixpoint chain_check (toks : gmap nat token) (p : option nat) (l : list nat) : bool :=
  match p, l with
  | None, [] => true
  | Some t, t' :: l' =>
      bool_decide (t = t') &&
      match toks !! t with
      | Some tk => chain_check toks (tok_next tk) l'
      | None => false
      end
  | _, _ => false
  end.

Lemma chain_det toks p l1 l2 : chain toks p l1 → chain toks p l2 → l1 = l2.
Proof.
  intros H1. revert l2. induction H1 as [|t tk l Ht Hc IH]; intros l2 H2;
    inversion H2; simplify_eq; [done|]. f_equal. by apply IH.
Qed.

Lemma chain_check_sound toks p l : chain_check toks p l = true → chain toks p l.
Proof.
  revert p. induction l as [|t l IH]; intros [t'|]; simpl; try done.
  - intros _. constructor.
  - intros [Heq Hc]%andb_prop. apply bool_decide_eq_true in Heq as <-.
    destruct (toks !! t') as [tk|] eqn:Ht; [|done]. econstructor; eauto.
Qed.

(** A chain visits no token twice: the walk could not stop otherwise. *)
Lemma chain_NoDup toks p l : chain toks p l → NoDup l.
Proof.
  induction 1 as [|t tk l Ht Hc IH]; constructor; [|done].
  intros Hin. apply list_elem_of_split in Hin as (l1 & l2 & ->).
  assert (Hsuf : ∀ p l', chain toks p l' → ∀ l0, l' = l0 ++ t :: l2 →
                 chain toks (Some t) (t :: l2)).
  { clear. intros p l' Hc. induction Hc as [|t' tk' l' Ht' Hc' IH']; intros l0 Heq.
    - by destruct l0.
    - destruct l0 as [|x l0]; simplify_eq/=; [by econstructor|]. eauto. }
  pose proof (Hsuf _ _ Hc l1 eq_refl) as Hc2.
  assert (chain toks (Some t) (t :: l1 ++ t :: l2)) as Hc1 by (econstructor; eauto).
  pose proof (chain_det _ _ _ _ Hc1 Hc2) as Heq.
  apply (f_equal length) in Heq. simpl in Heq. rewrite length_app in Heq. simpl in Heq. lia.
Qed.

Lemma chain_in_dom toks p l t : chain toks p l → t ∈ l → is_Some (toks !! t).
Proof.
  induction 1 as [|t' tk l Ht Hc IH]; intros Hin; [by apply elem_of_nil in Hin|].
  apply elem_of_cons in Hin as [->|Hin]; [by eexists|auto].
Qed.

Lemma chain_length_size toks p l : chain toks p l → length l ≤ size toks.
Proof.
  intros Hc. rewrite <-(size_list_to_set (C:=gset nat) l) by (by eapply chain_NoDup).
  rewrite <-(size_dom toks). apply subseteq_size. intros t Ht.
  apply elem_of_list_to_set in Ht. apply elem_of_dom. by eapply chain_in_dom.
Qed.

(** Writing a token that the chain does not visit leaves the chain. *)
Lemma chain_insert_other toks p l t tk :
  t ∉ l → chain toks p l → chain (<[t:=tk]> toks) p l.
Proof.
  intros Hn Hc. induction Hc as [|t' tk' l Ht' Hc IH]; [constructor|].
  apply not_elem_of_cons in Hn as [Hne Hn].
  econstructor; [|by apply IH]. by rewrite lookup_insert_ne.
Qed.

(** Writing a visited token without touching its [next] keeps the chain. *)
Lemma chain_insert_same_next toks p l t tk tk' :
  toks !! t = Some tk → tok_next tk' = tok_next tk → chain toks p l → chain (<[t:=tk']> toks) p l.
Proof.
  intros Ht Hn Hc. induction Hc as [|t0 tk0 l Ht0 Hc IH]; [constructor|].
  destruct (decide (t = t0)) as [<-|Hne].
  - simplify_eq. econstructor; [by rewrite lookup_insert_eq|]. by rewrite Hn.
  - econstructor; [by rewrite lookup_insert_ne|]. done.
Qed.

(** Linking a fresh last token [t] after the last node [b]. *)
Lemma chain_snoc toks p l b tkb t tk :
  chain toks p (l ++ [b]) → toks !! b = Some tkb → t ∉ l ++ [b] →
  toks !! t = Some tk → tok_next tk = None →
  chain (<[b:=set_tok_next tkb (Some t)]> toks) p (l ++ [b; t]).
Proof.
  intros Hc Hb Ht Htk Hnext. pose proof (chain_NoDup _ _ _ Hc) as Hnd.
  remember (l ++ [b]) as lb eqn:Heq.
  revert l Heq Ht Hnd. induction Hc as [|t0 tk0 l0 Ht0 Hc IH]; intros l Heq Ht Hnd.
  - by destruct l.
  - destruct l as [|x l]; simplify_eq/=.
    + inversion Hc; subst. econstructor; [by rewrite lookup_insert_eq|]. simpl.
      econstructor; [rewrite lookup_insert_ne; [done|set_solver]|]. rewrite Hnext. constructor.
    + apply not_elem_of_cons in Ht as [Hne Ht]. apply NoDup_cons in Hnd as [Hx Hnd].
      assert (x ≠ b) by set_solver.
      econstructor; [by rewrite lookup_insert_ne|]. by apply IH.
Qed.

(** ** Running the heap accessors *)

Lemma load_gremlin_run h g gr : gremlins h !! g = Some gr → load_gremlin g h = (inr gr, h).
Proof. unfold load_gremlin. by intros ->. Qed.

Lemma load_token_run h t tk : tokens h !! t = Some tk → load_token t h = (inr tk, h).
Proof. unfold load_token. by intros ->. Qed.

Lemma store_gremlin_run h g gr : store_gremlin g gr h = (inr (), heap_set_gremlin h g gr).
Proof. done. Qed.

Lemma store_token_run h t tk : store_token t tk h = (inr (), heap_set_token h t tk).
Proof. done. Qed.

Lemma update_gremlin_run h g gr f :
  gremlins h !! g = Some gr → update_gremlin g f h = (inr (), heap_set_gremlin h g (f gr)).
Proof. intros Hg. unfold update_gremlin, mbind, PyM_bind. by rewrite (load_gremlin_run _ _ _ Hg). Qed.

Lemma update_token_run h t tk f :
  tokens h !! t = Some tk → update_token t f h = (inr (), heap_set_token h t (f tk)).
Proof. intros Ht. unfold update_token, mbind, PyM_bind. by rewrite (load_token_run _ _ _ Ht). Qed.

Lemma heap_set_gremlin_twice h g gr1 gr2 :
  heap_set_gremlin (heap_set_gremlin h g gr1) g gr2 = heap_set_gremlin h g gr2.
Proof. unfold heap_set_gremlin. simpl. by rewrite insert_insert_eq. Qed.

Lemma heap_set_gremlin_lookup h g g' gr :
  gremlins (heap_set_gremlin h g gr) !! g' = if decide (g = g') then Some gr else gremlins h !! g'.
Proof. unfold heap_set_gremlin. simpl. case_decide; subst; [by rewrite lookup_insert_eq|by rewrite lookup_insert_ne]. Qed.

Lemma heap_set_gremlin_lookup_ne h g g' gr :
  g ≠ g' → gremlins (heap_set_gremlin h g gr) !! g' = gremlins h !! g'.
Proof. intros Hne. by rewrite heap_set_gremlin_lookup, decide_False. Qed.

Lemma heap_set_gremlin_lookup_eq h g gr : gremlins (heap_set_gremlin h g gr) !! g = Some gr.
Proof. by rewrite heap_set_gremlin_lookup, decide_True. Qed.

Lemma heap_set_gremlin_id h g gr : gremlins h !! g = Some gr → heap_set_gremlin h g gr = h.
Proof. destruct h. unfold heap_set_gremlin. simpl. intros H. by rewrite insert_id. Qed.

Lemma heap_set_token_lookup h t t' tk :
  tokens (heap_set_token h t tk) !! t' = if decide (t = t') then Some tk else tokens h !! t'.
Proof. unfold heap_set_token. simpl. case_decide; subst; [by rewrite lookup_insert_eq|by rewrite lookup_insert_ne]. Qed.

Lemma heap_set_token_lookup_eq h t tk : tokens (heap_set_token h t tk) !! t = Some tk.
Proof. by rewrite heap_set_token_lookup, decide_True. Qed.

Lemma heap_set_token_lookup_ne h t t' tk : t ≠ t' → tokens (heap_set_token h t tk) !! t' = tokens h !! t'.
Proof. intros Hne. by rewrite heap_set_token_lookup, decide_False. Qed.

Lemma heap_set_token_twice h t tk1 tk2 :
  heap_set_token (heap_set_token h t tk1) t tk2 = heap_set_token h t tk2.
Proof. unfold heap_set_token. simpl. by rewrite insert_insert_eq. Qed.

Lemma heap_set_token_id h t tk : tokens h !! t = Some tk → heap_set_token h t tk = h.
Proof. destruct h. unfold heap_set_token. simpl. intros H. by rewrite insert_id. Qed.

Lemma set_tok_args_twice tk a b : set_tok_args (set_tok_args tk a) b = set_tok_args tk b.
Proof. done. Qed.

Lemma heap_set_token_gremlins h t tk : gremlins (heap_set_token h t tk) = gremlins h.
Proof. done. Qed.

Lemma heap_eq h1 h2 :
  gremlins h1 = gremlins h2 → tokens h1 = tokens h2 → next_id h1 = next_id h2 →
  uuids h1 = uuids h2 → uuid_count h1 = uuid_count h2 → h1 = h2.
Proof. destruct h1, h2; simpl. intros -> -> -> -> ->. done. Qed.

#[export] Hint Rewrite heap_set_gremlin_twice heap_set_gremlin_lookup_eq store_gremlin_run store_token_run : gremlin.
