(* ===== verification/Binder.v ===== *)
(** * Binder: the parameter binding of [Gremlin]

    [Gremlin.bind_param], [bind_params] and [set_parent_gremlin]
    (gremlin.py lines 148-178).  [bind_param] counts the call, treats a
    value that is already a key of [bound_params] as a back-reference
    to that placeholder, generates [GPY_PARAM_<seed>_<count>] when no
    name is given, stores the binding and repeats it in the parent
    builder, recursively.  [set_parent_gremlin] records the parent and
    re-binds every entry of the child's dict while iterating over it.
    The recursion up the parents is bounded by [fuel], Python's
    recursion limit: a builder that is its own ancestor recurses until
    the limit. *)

From S2P Require Import Prelude PyDict PyValue State.
#[local] Open Scope string_scope.

(** [Gremlin.PARAM_PREFIX] *)
Definition PARAM_PREFIX : string := "GPY_PARAM".

(** ['%s_%s_%s' % (self.PARAM_PREFIX, self.bound_param, self.bound_count)] *)
Definition param_name (seed : string) (count : nat) : string :=
  PARAM_PREFIX +:+ "_" +:+ seed +:+ "_" +:+ pretty count.

(** [Gremlin.bind_param(value, name=None)] *)
Fixpoint bind_param (fuel : nat) (g : nat) (value : pyval) (name : option string)
    : M (string * pyval) :=
  match fuel with
  | 0 => mthrow RecursionError
  | S fuel' =>
      gr0 ← load_gremlin g;
      let gr := set_count gr0 (S (bound_count gr0)) in
      store_gremlin g gr;;
      match dict_lookup_value (bound_params gr) value with
      | None => mthrow (TypeError "unhashable type")
      | Some found =>
          let '(name, value) :=
            match found with
            | Some (k, x) => (Some k, x)
            | None => (name, value)
            end in
          let name := default (param_name (bound_param gr) (bound_count gr)) name in
          store_gremlin g (set_params gr (dict_set (bound_params gr) name value));;
          match parent gr with
          | Some (OGremlin p) => bind_param fuel' p value (Some name);; mret (name, value)
          | _ => mret (name, value)
          end
      end
  end.

(** [Gremlin.bind_params(params=None)] on a list given by the caller. *)
Definition bind_params (fuel : nat) (g : nat) (params : option (list pyval)) : M (dict pyval) :=
  py_iter (λ v, bind_param fuel g v None;; mret ()) (default [] params);;
  gr ← load_gremlin g;
  mret (bound_params gr).

(** [for value in self.bound_params: self.bind_param(value)]: the
    iteration over the builder's own dict, which Python aborts with a
    [RuntimeError] when the dict's size changes between two steps. *)
Fixpoint bind_own_params (fuel : nat) (g : nat) (len0 i rest : nat) : M unit :=
  gr ← load_gremlin g;
  if decide (length (bound_params gr) = len0) then
    match rest, dict_keys (bound_params gr) !! i with
    | S rest', Some k => bind_param fuel g (VStr k) None;; bind_own_params fuel g len0 (S i) rest'
    | _, _ => mret ()
    end
  else mthrow (RuntimeError "dictionary changed size during iteration").

(** [Gremlin.set_parent_gremlin(gremlin)] *)
Definition set_parent_gremlin (fuel : nat) (g : nat) (p : owner) : M (dict pyval) :=
  update_gremlin g (λ gr, set_parent gr (Some p));;
  gr ← load_gremlin g;
  let n := length (bound_params gr) in
  bind_own_params fuel g n 0 n;;
  gr' ← load_gremlin g;
  mret (bound_params gr').

(** ** The local effect of one [bind_param] call *)

(** The name and value one call stores, on the counted builder [gr]
    ([None]: the [TypeError] of an unhashable value). *)
Definition bind_resolve (gr : gremlin) (value : pyval) (name : option string) : option (string * pyval) :=
  match dict_lookup_value (bound_params gr) value with
  | None => None
  | Some found =>
      let '(name, value) := match found with Some (k, x) => (Some k, x) | None => (name, value) end in
      Some (default (param_name (bound_param gr) (bound_count gr)) name, value)
  end.

(** The builder after a call that stored [n := x]. *)
Definition bound_gremlin (gr : gremlin) (n : string) (x : pyval) : gremlin :=
  set_params (set_count gr (S (bound_count gr))) (dict_set (bound_params gr) n x).

(** Values that a propagation cannot mistake for a placeholder of [d]. *)
Definition not_placeholder (d : dict pyval) (x : pyval) : Prop :=
  dict_lookup_value d x = Some None.

(** The parent's dict after every entry of the child's was stored in it. *)
Definition overlay (dp dc : dict pyval) : dict pyval :=
  foldl (λ d kx, dict_set d kx.1 kx.2) dp dc.

(** No generated name above the counter is taken yet: the invariant that
    keeps [GPY_PARAM_<seed>_<count>] fresh. *)
Definition fresh_counter (gr : gremlin) : Prop :=
  ∀ c, bound_count gr < c → param_name (bound_param gr) c ∉ dict_keys (bound_params gr).

(** A builder with no binding, as [Gremlin.reset] leaves it. *)
Definition sample_gremlin (seed : string) (tok : nat) : gremlin :=
  mkGremlin "g" tok tok None [] seed 0 None.

(** A heap with one such builder at identity [0]. *)
Definition sample_heap : heap :=
  heap_set_gremlin (heap_empty (λ _, "fffff")) 0 (sample_gremlin "abcde" 1).

(** A parent (identity [0]) and a child (identity [1]) with one binding each. *)
Definition nest_parent : gremlin :=
  mkGremlin "g" 10 10 None [("GPY_PARAM_aaaaa_1", VStr "parent")] "aaaaa" 1 None.
Definition nest_child : gremlin :=
  mkGremlin "" 11 11 None [("GPY_PARAM_bbbbb_1", VStr "child")] "bbbbb" 1 None.
Definition nest_heap : heap :=
  heap_set_gremlin (heap_set_gremlin (heap_empty (λ _, "fffff")) 0 nest_parent) 1 nest_child.

(** The builders reachable by [parent] links from [g] end after [d]
    links at a builder with no parent (or a predicate as parent). *)
Inductive parent_depth (h : heap) : nat → nat → Prop :=
  | pd_root g gr :
      gremlins h !! g = Some gr → (∀ p, parent gr ≠ Some (OGremlin p)) → parent_depth h g 0
  | pd_up g gr p d :
      gremlins h !! g = Some gr → parent gr = Some (OGremlin p) → parent_depth h p d →
      parent_depth h g (S d).

(** Every value bound in the heap is hashable. *)
Definition heap_hashable (h : heap) : Prop :=
  ∀ g gr k x, gremlins h !! g = Some gr → dict_get (bound_params gr) k = Some x → py_hashable x = true.

(** The child of [nest_heap] already nested in the parent. *)
Definition nested_heap : heap :=
  heap_set_gremlin nest_heap 1 (set_parent nest_child (Some (OGremlin 0))).

(** A builder that is its own parent, as [g.nest(g)] leaves it. *)
Definition self_heap : heap :=
  heap_set_gremlin nest_heap 0 (set_parent nest_parent (Some (OGremlin 0))).

(** A child that bound its parent's placeholder [GPY_PARAM_aaaaa_1] as a
    value. *)
Definition drop_heap : heap :=
  heap_set_gremlin nest_heap 1
    (mkGremlin "" 11 11 None [("GPY_PARAM_bbbbb_1", VStr "GPY_PARAM_aaaaa_1")] "bbbbb" 1 None).

(** The builders a binding made on [g] climbs through ([if self.parent
    is not None: self.parent.bind_param(value, name)]): [g], its parent,
    the parent's parent, ..., read at most [k] links deep. *)
Fixpoint ancestors (k : nat) (h : heap) (g : nat) : list nat :=
  match k with
  | 0 => []
  | S k' =>
      g :: match gremlins h !! g with
           | Some gr => match parent gr with Some (OGremlin p) => ancestors k' h p | _ => [] end
           | None => []
           end
  end.

(** Builder [a] binds [n] to [x]. *)
Definition has_binding (h : heap) (n : string) (x : pyval) (a : nat) : Prop :=
  ∃ gra, gremlins h !! a = Some gra ∧ dict_get (bound_params gra) n = Some x.

(** ** One call, unfolded *)

Ltac py_unfold :=
  unfold mbind, mret, mthrow, PyM_bind, PyM_ret, PyM_throw, store_gremlin, store_token,
    modify_st, get_st, put_st in *.

Lemma bind_param_unfold fuel h g gr v nm :
  gremlins h !! g = Some gr →
  bind_param (S fuel) g v nm h =
    match bind_resolve (set_count gr (S (bound_count gr))) v nm with
    | None => (inl (TypeError "unhashable type"),
               heap_set_gremlin h g (set_count gr (S (bound_count gr))))
    | Some (n, x) =>
        let h' := heap_set_gremlin h g (bound_gremlin gr n x) in
        match parent gr with
        | Some (OGremlin p) => (bind_param fuel p x (Some n) ≫= λ _, mret (n, x)) h'
        | _ => (inr (n, x), h')
        end
    end.
Proof.
  intros Hg. cbn [bind_param]. unfold mbind at 1, PyM_bind at 1.
  rewrite (load_gremlin_run _ _ _ Hg). unfold bind_resolve, bound_gremlin. cbn.
  destruct (dict_lookup_value _ v) as [[[k x]|]|]; simpl; rewrite ?heap_set_gremlin_twice;
    destruct (parent gr) as [[p|]|]; py_unfold; simpl; rewrite ?heap_set_gremlin_twice; done.
Qed.

Lemma bind_resolve_new gr v nm :
  not_placeholder (bound_params gr) v →
  bind_resolve gr v nm = Some (default (param_name (bound_param gr) (bound_count gr)) nm, v).
Proof. unfold bind_resolve, not_placeholder. by intros ->. Qed.

Lemma bind_resolve_key gr k x nm :
  dict_get (bound_params gr) k = Some x → bind_resolve gr (VStr k) nm = Some (k, x).
Proof. unfold bind_resolve. rewrite dict_lookup_value_str. by intros ->. Qed.

(** The step of a builder whose parent is a builder, for a value that
    is no placeholder. *)
Lemma bind_param_new_up fuel h g gr p v nm :
  gremlins h !! g = Some gr → parent gr = Some (OGremlin p) →
  not_placeholder (bound_params gr) v →
  let n := default (param_name (bound_param gr) (S (bound_count gr))) nm in
  bind_param (S fuel) g v nm h =
    (bind_param fuel p v (Some n) ≫= λ _, mret (n, v)) (heap_set_gremlin h g (bound_gremlin gr n v)).
Proof. intros Hg Hp Hv. rewrite (bind_param_unfold _ _ _ _ _ _ Hg), bind_resolve_new, Hp by done. done. Qed.

Lemma bind_param_key_up fuel h g gr p k x nm :
  gremlins h !! g = Some gr → parent gr = Some (OGremlin p) →
  dict_get (bound_params gr) k = Some x →
  bind_param (S fuel) g (VStr k) nm h =
    (bind_param fuel p x (Some k) ≫= λ _, mret (k, x))
      (heap_set_gremlin h g (set_count gr (S (bound_count gr)))).
Proof.
  intros Hg Hp Hk. rewrite (bind_param_unfold _ _ _ _ _ _ Hg), (bind_resolve_key _ _ x), Hp by done.
  unfold bound_gremlin. simpl. by rewrite dict_set_id.
Qed.

Lemma param_name_inj s c1 c2 : param_name s c1 = param_name s c2 → c1 = c2.
Proof.
  unfold param_name. intros H.
  do 4 apply (inj (String.append _)) in H. by apply (inj pretty) in H.
Qed.

Lemma fresh_counter_empty seed tok : fresh_counter (sample_gremlin seed tok).
Proof. intros c _. simpl. apply not_elem_of_nil. Qed.

(** ** Properties of one call *)

Lemma bind_param_new fuel h g gr v nm :
  gremlins h !! g = Some gr → parent gr = None → not_placeholder (bound_params gr) v →
  let n := default (param_name (bound_param gr) (S (bound_count gr))) nm in
  bind_param (S fuel) g v nm h = (inr (n, v), heap_set_gremlin h g (bound_gremlin gr n v)).
Proof. intros Hg Hp Hv. by rewrite (bind_param_unfold _ _ _ _ _ _ Hg), bind_resolve_new, Hp. Qed.

(** C6: a value that is no placeholder of the builder is stored under the
    generated name [GPY_PARAM_<seed>_<n>], where [n] is the counter after
    its increment; the call returns that name and the value. *)
Theorem bind_param_fresh fuel h g gr v :
  gremlins h !! g = Some gr → parent gr = None → not_placeholder (bound_params gr) v →
  let n := param_name (bound_param gr) (S (bound_count gr)) in
  bind_param (S fuel) g v None h = (inr (n, v), heap_set_gremlin h g (bound_gremlin gr n v)).
Proof. apply bind_param_new. Qed.

Lemma bind_param_fresh_witness :
  ∃ r, bind_param 1 0 (VStr "x") None sample_heap = r.
Proof.
  eexists. apply (bind_param_fresh 0 sample_heap 0 (sample_gremlin "abcde" 1) (VStr "x"));
    reflexivity.
Defined.

(** C7: passing back a placeholder obtained from an earlier call is a
    back-reference: the call returns that placeholder with its original
    value, whatever name it is given, and the dict is unchanged (only the
    counter moves). *)
Theorem bind_param_backref fuel h g gr k x nm :
  gremlins h !! g = Some gr → parent gr = None → dict_get (bound_params gr) k = Some x →
  bind_param (S fuel) g (VStr k) nm h =
    (inr (k, x), heap_set_gremlin h g (set_count gr (S (bound_count gr)))).
Proof.
  intros Hg Hp Hk. rewrite (bind_param_unfold _ _ _ _ _ _ Hg), (bind_resolve_key _ _ x), Hp by done.
  unfold bound_gremlin. simpl. by rewrite dict_set_id.
Qed.

Lemma bind_param_backref_witness :
  ∃ r, bind_param 1 0 (VStr "GPY_PARAM_abcde_1") (Some "other")
         (heap_set_gremlin sample_heap 0
            (mkGremlin "g" 1 1 None [("GPY_PARAM_abcde_1", VStr "x")] "abcde" 1 None)) = r.
Proof.
  eexists. apply (bind_param_backref 0 _ 0
    (mkGremlin "g" 1 1 None [("GPY_PARAM_abcde_1", VStr "x")] "abcde" 1 None)
    "GPY_PARAM_abcde_1" (VStr "x") (Some "other")); reflexivity.
Defined.

(** C8: with no explicit name, a call never overwrites an existing
    binding and keeps the counter's generated names fresh. *)
Theorem bind_param_no_overwrite fuel h g gr v r h' :
  gremlins h !! g = Some gr → parent gr = None → fresh_counter gr →
  bind_param (S fuel) g v None h = (inr r, h') →
  ∃ gr', gremlins h' !! g = Some gr' ∧ fresh_counter gr' ∧
    ∀ k x, dict_get (bound_params gr) k = Some x → dict_get (bound_params gr') k = Some x.
Proof.
  intros Hg Hp Hf. rewrite (bind_param_unfold _ _ _ _ _ _ Hg), Hp. unfold bind_resolve. simpl.
  destruct (dict_lookup_value (bound_params gr) v) as [[[k x]|]|] eqn:E; [..|done];
    intros [= <- <-]; eexists; (split; [apply heap_set_gremlin_lookup_eq|]);
    unfold bound_gremlin, fresh_counter; cbn [bound_params bound_count bound_param set_params set_count].
  - apply dict_lookup_value_key in E as [-> Hk]. rewrite dict_set_id by done.
    split; [|done]. intros c Hc. apply Hf. lia.
  - assert (Hn : param_name (bound_param gr) (S (bound_count gr)) ∉ dict_keys (bound_params gr))
      by (apply Hf; lia).
    split.
    + intros c Hc. rewrite dict_keys_set_notin by done.
      rewrite elem_of_app, list_elem_of_singleton. intros [Hin|Heq].
      * revert Hin. apply Hf. lia.
      * apply param_name_inj in Heq. lia.
    + intros k x Hk. rewrite dict_get_set_ne; [done|]. intros Heq.
      apply Hn, dict_get_in_keys. rewrite Heq. by eexists.
Qed.

Lemma bind_param_no_overwrite_witness :
  ∃ gr', gremlins (bind_param 1 0 (VStr "x") None sample_heap).2 !! 0 = Some gr' ∧
    fresh_counter gr' ∧
    ∀ k x, dict_get (bound_params (sample_gremlin "abcde" 1)) k = Some x →
           dict_get (bound_params gr') k = Some x.
Proof.
  apply (bind_param_no_overwrite 0 sample_heap 0 (sample_gremlin "abcde" 1) (VStr "x")
           ("GPY_PARAM_abcde_1", VStr "x"));
    [reflexivity|reflexivity|apply fresh_counter_empty|vm_compute; reflexivity].
Defined.

(** ** Propagation to the parent *)

Lemma overlay_snoc dp l k x : overlay dp (l ++ [(k, x)])%list = dict_set (overlay dp l) k x.
Proof. unfold overlay. by rewrite foldl_app. Qed.

Lemma overlay_keys dp l s : s ∈ dict_keys (overlay dp l) ↔ s ∈ dict_keys dp ∨ s ∈ dict_keys l.
Proof.
  revert dp. induction l as [|[k x] l IH]; intros dp; simpl.
  - unfold dict_keys at 2. simpl. set_solver.
  - unfold overlay in *. simpl. rewrite IH.
    destruct (decide (k ∈ dict_keys dp)).
    + rewrite dict_keys_set_in by done. unfold dict_keys at 3. simpl. set_solver.
    + rewrite dict_keys_set_notin by done. unfold dict_keys at 3. simpl. set_solver.
Qed.

Lemma overlay_get dp l k : NoDup (dict_keys l) →
  dict_get (overlay dp l) k = match dict_get l k with Some x => Some x | None => dict_get dp k end.
Proof.
  revert dp. induction l as [|[k' x'] l IH]; intros dp Hnd; [done|].
  unfold dict_keys in Hnd. simpl in Hnd. apply NoDup_cons in Hnd as [Hn Hnd].
  unfold overlay in *. simpl. rewrite IH by done. rewrite dict_get_set.
  case_decide as Heq; simpl; [subst|].
  - rewrite decide_True by done. destruct (dict_get l k) eqn:E; [|done].
    exfalso. apply Hn. apply dict_get_in_keys. by eexists.
  - rewrite decide_False by done. done.
Qed.

(** [overlay] respects the equivalence of dicts. *)
#[export] Instance overlay_proper : Proper (dict_equiv ==> eq ==> dict_equiv) overlay.
Proof.
  intros d1 d2 Hd l ? <-. revert d1 d2 Hd. induction l as [|[k x] l IH]; intros d1 d2 Hd; [done|].
  apply IH. by rewrite Hd.
Qed.

(** The order in which the child's bindings are copied does not change
    the parent's mapping: Python 2 iterates a dict in the order of its
    hash table, the model in insertion order, and for keys without
    duplicates every order gives the same dict. *)
Lemma overlay_perm dp dc dc' :
  NoDup (dict_keys dc) → dc ≡ₚ dc' → dict_equiv (overlay dp dc) (overlay dp dc').
Proof.
  intros Hnd Hp. revert dp Hnd. induction Hp as [|[k x] l l' Hp IH|[k1 x1] [k2 x2] l|l l' l'' Hp1 IH1 Hp2 IH2];
    intros dp Hnd; cbn [overlay foldl] in *.
  - done.
  - apply IH. by apply NoDup_cons in Hnd as [_ ?].
  - unfold dict_keys in Hnd. cbn in Hnd. apply NoDup_cons in Hnd as [Hn1 _].
    unfold overlay. cbn [foldl fst snd]. rewrite dict_set_comm; [done|]. intros ->. apply Hn1. set_solver.
  - etransitivity; [by apply IH1|]. apply IH2. unfold dict_keys in *. by rewrite <-Hp1.
Qed.

Lemma overlay_twice dp l : NoDup (dict_keys l) → overlay (overlay dp l) l = overlay dp l.
Proof.
  intros Hnd.
  assert (Hsub : ∀ k x, (k, x) ∈ l → dict_get (overlay dp l) k = Some x).
  { intros k x Hin. rewrite overlay_get by done. by rewrite (dict_get_elem _ _ x). }
  revert Hsub. generalize (overlay dp l) as d. clear Hnd.
  induction l as [|[k x] l IH]; intros d Hsub; [done|]. unfold overlay in *. cbn [foldl fst snd].
  rewrite dict_set_id by (apply Hsub; apply elem_of_cons; by left).
  apply IH. intros k' x' Hin. apply Hsub. apply elem_of_cons. by right.
Qed.

Lemma not_placeholder_mono d1 d2 x :
  dict_keys d1 ⊆ dict_keys d2 → not_placeholder d2 x → not_placeholder d1 x.
Proof.
  unfold not_placeholder, dict_lookup_value. intros Hsub.
  destruct (py_hashable x); [|done]. destruct x; try done.
  destruct (dict_get d2 s) eqn:E2; [done|]. intros _.
  destruct (dict_get d1 s) eqn:E1; [|done]. exfalso.
  apply dict_get_None in E2. apply E2, Hsub, dict_get_in_keys. by eexists.
Qed.

Lemma dict_get_lookup (d : dict pyval) i k x :
  NoDup (dict_keys d) → d !! i = Some (k, x) → dict_get d k = Some x.
Proof. intros Hnd Hi. apply dict_get_elem; [done|]. by eapply list_elem_of_lookup_2. Qed.

Lemma overlay_keys_take dp l i : dict_keys (overlay dp (take i l)) ⊆ dict_keys (overlay dp l).
Proof.
  intros s Hs. apply overlay_keys in Hs as [Hs|Hs]; apply overlay_keys; [by left|right].
  unfold dict_keys in *. rewrite fmap_take in Hs. by apply subseteq_take in Hs.
Qed.

(** The iteration of [set_parent_gremlin] over the child's dict, when no
    value of the child is a placeholder of the parent: each step is a
    back-reference in the child that stores the same entry in the parent. *)
Lemma bind_own_params_spec f c p D Dp n :
  c ≠ p → dict_wf D → length D = n →
  (∀ k x, dict_get D k = Some x → not_placeholder (overlay Dp D) x) →
  ∀ rest i hi grci grpi, i + rest = n →
  gremlins hi !! c = Some grci → bound_params grci = D → parent grci = Some (OGremlin p) →
  gremlins hi !! p = Some grpi → parent grpi = None → bound_params grpi = overlay Dp (take i D) →
  ∃ hf grcf grpf, bind_own_params (S (S f)) c n i rest hi = (inr (), hf) ∧
    gremlins hf !! c = Some grcf ∧ bound_params grcf = D ∧ parent grcf = Some (OGremlin p) ∧
    gremlins hf !! p = Some grpf ∧ parent grpf = None ∧ bound_params grpf = overlay Dp D.
Proof.
  intros Hne Hwf Hlen Hclear rest.
  induction rest as [|rest IH]; intros i hi grci grpi Hi Hc HD Hcp Hp Hpp HDp.
  - exists hi, grci, grpi. cbn [bind_own_params]. unfold mbind at 1, PyM_bind at 1.
    rewrite (load_gremlin_run _ _ _ Hc), HD, decide_True by done.
    rewrite HDp, take_ge in * by lia. done.
  - destruct (lookup_lt_is_Some_2 D i) as [[k x] Hkx]; [lia|].
    assert (Hk : dict_keys D !! i = Some k) by (unfold dict_keys; by rewrite list_lookup_fmap, Hkx).
    assert (Hget : dict_get D k = Some x) by (by eapply dict_get_lookup).
    set (h2 := heap_set_gremlin hi c (set_count grci (S (bound_count grci)))).
    assert (Hp2 : gremlins h2 !! p = Some grpi) by (by unfold h2; rewrite heap_set_gremlin_lookup_ne).
    assert (Hnp : not_placeholder (bound_params grpi) x).
    { eapply not_placeholder_mono; [|by apply (Hclear k)]. rewrite HDp. apply overlay_keys_take. }
    pose proof (bind_param_new f h2 p grpi x (Some k) Hp2 Hpp Hnp) as Hpar. simpl in Hpar.
    assert (Hchild : bind_param (S (S f)) c (VStr k) None hi =
                     (inr (k, x), heap_set_gremlin h2 p (bound_gremlin grpi k x))).
    { rewrite (bind_param_key_up _ _ _ _ _ _ x _ Hc Hcp) by (by rewrite HD).
      fold h2. by rewrite (run_bind_ok _ _ _ _ _ Hpar). }
    destruct (IH (S i) (heap_set_gremlin h2 p (bound_gremlin grpi k x))
                (set_count grci (S (bound_count grci))) (bound_gremlin grpi k x))
      as (hf & grcf & grpf & Hrun & Hrest); try done; [lia| | | |].
    + rewrite heap_set_gremlin_lookup_ne by done. unfold h2. apply heap_set_gremlin_lookup_eq.
    + apply heap_set_gremlin_lookup_eq.
    + unfold bound_gremlin. simpl. rewrite HDp.
      rewrite (take_S_r _ _ (k, x)) by done. by rewrite overlay_snoc.
    + exists hf, grcf, grpf. split; [|done].
      cbn [bind_own_params]. unfold mbind at 1, PyM_bind at 1.
      rewrite (load_gremlin_run _ _ _ Hc), HD, decide_True by done. rewrite Hk.
      by rewrite (run_bind_ok _ _ _ _ _ Hchild).
Qed.

Lemma set_parent_gremlin_run f h c p grc grp :
  c ≠ p → gremlins h !! c = Some grc → gremlins h !! p = Some grp → parent grp = None →
  dict_wf (bound_params grc) →
  (∀ k x, dict_get (bound_params grc) k = Some x →
          not_placeholder (overlay (bound_params grp) (bound_params grc)) x) →
  ∃ h' grc' grp', set_parent_gremlin (S (S f)) c (OGremlin p) h = (inr (bound_params grc), h') ∧
    gremlins h' !! c = Some grc' ∧ bound_params grc' = bound_params grc ∧
    parent grc' = Some (OGremlin p) ∧
    gremlins h' !! p = Some grp' ∧ parent grp' = None ∧
    bound_params grp' = overlay (bound_params grp) (bound_params grc).
Proof.
  intros Hne Hc Hp Hpp Hwf Hclear.
  set (h1 := heap_set_gremlin h c (set_parent grc (Some (OGremlin p)))).
  destruct (bind_own_params_spec f c p (bound_params grc) (bound_params grp)
              (length (bound_params grc)) Hne Hwf eq_refl Hclear
              (length (bound_params grc)) 0 h1 (set_parent grc (Some (OGremlin p))) grp)
    as (hf & grcf & grpf & Hrun & Hcf & HDf & Hcpf & Hpf & Hppf & HDpf); try done.
  - apply heap_set_gremlin_lookup_eq.
  - unfold h1. by rewrite heap_set_gremlin_lookup_ne.
  - exists hf, grcf, grpf. repeat split; try done.
    unfold set_parent_gremlin.
    rewrite (run_bind_ok _ _ _ _ _ (update_gremlin_run _ _ _ _ Hc)). fold h1.
    assert (Hl1 : load_gremlin c h1 = (inr (set_parent grc (Some (OGremlin p))), h1))
      by (apply load_gremlin_run, heap_set_gremlin_lookup_eq).
    rewrite (run_bind_ok _ _ _ _ _ Hl1). simpl. rewrite (run_bind_ok _ _ _ _ _ Hrun), (run_bind_ok _ _ _ _ _ (load_gremlin_run _ _ _ Hcf)).
    by rewrite HDf.
Qed.

(** C9: nesting builder [c] in builder [p] ([set_parent_gremlin]) stores
    every binding of [c] in [p] under the same placeholder name, keeps
    every other binding of [p], leaves [c]'s bindings as they were and
    returns them, provided no value bound in [c] is a placeholder name
    (or an unhashable value) of the merged dict. *)
Theorem set_parent_propagates f h c p grc grp :
  c ≠ p → gremlins h !! c = Some grc → gremlins h !! p = Some grp → parent grp = None →
  dict_wf (bound_params grc) →
  (∀ k x, dict_get (bound_params grc) k = Some x →
          not_placeholder (overlay (bound_params grp) (bound_params grc)) x) →
  ∃ h' grp', set_parent_gremlin (S (S f)) c (OGremlin p) h = (inr (bound_params grc), h') ∧
    gremlins h' !! p = Some grp' ∧
    ∀ k, dict_get (bound_params grp') k =
         match dict_get (bound_params grc) k with
         | Some x => Some x
         | None => dict_get (bound_params grp) k
         end.
Proof.
  intros Hne Hc Hp Hpp Hwf Hclear.
  destruct (set_parent_gremlin_run f h c p grc grp) as (h' & grc' & grp' & Hrun & _ & _ & _ & Hp' & _ & HD');
    try done.
  exists h', grp'. split; [done|]. split; [done|]. intros k. rewrite HD'. by apply overlay_get.
Qed.

(** C10: propagation is idempotent: nesting the same child a second time
    leaves the parent's dict exactly as the first nesting left it. *)
Theorem set_parent_idempotent f h c p grc grp :
  c ≠ p → gremlins h !! c = Some grc → gremlins h !! p = Some grp → parent grp = None →
  dict_wf (bound_params grc) →
  (∀ k x, dict_get (bound_params grc) k = Some x →
          not_placeholder (overlay (bound_params grp) (bound_params grc)) x) →
  ∃ grp1 grp2,
    gremlins (set_parent_gremlin (S (S f)) c (OGremlin p) h).2 !! p = Some grp1 ∧
    gremlins (set_parent_gremlin (S (S f)) c (OGremlin p)
                (set_parent_gremlin (S (S f)) c (OGremlin p) h).2).2 !! p = Some grp2 ∧
    bound_params grp2 = bound_params grp1.
Proof.
  intros Hne Hc Hp Hpp Hwf Hclear.
  destruct (set_parent_gremlin_run f h c p grc grp)
    as (h1 & grc1 & grp1 & Hrun1 & Hc1 & HD1 & _ & Hp1 & Hpp1 & HDp1); try done.
  destruct (set_parent_gremlin_run f h1 c p grc1 grp1)
    as (h2 & grc2 & grp2 & Hrun2 & _ & _ & _ & Hp2 & _ & HDp2); try done.
  - by rewrite HD1.
  - rewrite HD1, HDp1, overlay_twice by done. done.
  - exists grp1, grp2. rewrite Hrun1. simpl. rewrite Hrun2. simpl.
    split; [done|]. split; [done|]. rewrite HDp2, HDp1, HD1. by apply overlay_twice.
Qed.

Lemma nest_child_clear k x :
  dict_get (bound_params nest_child) k = Some x →
  not_placeholder (overlay (bound_params nest_parent) (bound_params nest_child)) x.
Proof. simpl. case_decide; intros Hk; simplify_eq; reflexivity. Qed.

Lemma set_parent_propagates_witness :
  ∃ h' grp', set_parent_gremlin 2 1 (OGremlin 0) nest_heap = (inr (bound_params nest_child), h') ∧
    gremlins h' !! 0 = Some grp' ∧
    ∀ k, dict_get (bound_params grp') k =
         match dict_get (bound_params nest_child) k with
         | Some x => Some x
         | None => dict_get (bound_params nest_parent) k
         end.
Proof.
  apply (set_parent_propagates 0 nest_heap 1 0 nest_child nest_parent);
    [lia|reflexivity|reflexivity|reflexivity| |apply nest_child_clear].
  apply NoDup_singleton.
Defined.

Lemma set_parent_idempotent_witness :
  ∃ grp1 grp2,
    gremlins (set_parent_gremlin 2 1 (OGremlin 0) nest_heap).2 !! 0 = Some grp1 ∧
    gremlins (set_parent_gremlin 2 1 (OGremlin 0)
                (set_parent_gremlin 2 1 (OGremlin 0) nest_heap).2).2 !! 0 = Some grp2 ∧
    bound_params grp2 = bound_params grp1.
Proof.
  apply (set_parent_idempotent 0 nest_heap 1 0 nest_child nest_parent);
    [lia|reflexivity|reflexivity|reflexivity| |apply nest_child_clear].
  apply NoDup_singleton.
Defined.

(** ** Termination and the recursion limit *)

Lemma bind_resolve_hashable gr v nm :
  py_hashable v = true → (∀ k x, dict_get (bound_params gr) k = Some x → py_hashable x = true) →
  ∃ n x, bind_resolve gr v nm = Some (n, x) ∧ py_hashable x = true.
Proof.
  intros Hv Hd. unfold bind_resolve, dict_lookup_value. rewrite Hv.
  destruct v; simpl; eauto.
  destruct (dict_get (bound_params gr) s) as [x|] eqn:E; simpl; eauto.
Qed.

Lemma heap_hashable_set h g gr n x :
  heap_hashable h → gremlins h !! g = Some gr → py_hashable x = true →
  heap_hashable (heap_set_gremlin h g (bound_gremlin gr n x)).
Proof.
  intros Hh Hg Hx g' gr' k y. rewrite heap_set_gremlin_lookup.
  case_decide; [|by apply Hh]. intros [= <-]. unfold bound_gremlin. simpl.
  rewrite dict_get_set. case_decide; [by intros [= <-]|]. intros Hk. by apply (Hh g gr k y).
Qed.

Lemma parent_depth_set h g gr gr' p d :
  gremlins h !! g = Some gr → parent gr' = parent gr →
  parent_depth h p d → parent_depth (heap_set_gremlin h g gr') p d.
Proof.
  intros Hg Hpar. induction 1 as [g0 gr0 H0 Hn|g0 gr0 p0 d H0 Hp0 Hd IH].
  - destruct (decide (g = g0)) as [<-|Hne].
    + apply (pd_root _ _ gr'); [apply heap_set_gremlin_lookup_eq|]. simplify_eq. by rewrite Hpar.
    + apply (pd_root _ _ gr0); [by rewrite heap_set_gremlin_lookup_ne|done].
  - destruct (decide (g = g0)) as [<-|Hne].
    + eapply (pd_up _ _ gr'); [apply heap_set_gremlin_lookup_eq| |done]. simplify_eq. by rewrite Hpar.
    + eapply (pd_up _ _ gr0); [by rewrite heap_set_gremlin_lookup_ne|done|done].
Qed.

(** C11: [bind_param] terminates: when the parents above [g] form a chain
    of [d] links, a recursion limit above [d] suffices and the call
    returns (values bound in the heap being hashable). *)
Theorem bind_param_terminates h g d fuel v nm :
  parent_depth h g d → d < fuel → heap_hashable h → py_hashable v = true →
  ∃ r h', bind_param fuel g v nm h = (inr r, h').
Proof.
  revert h g fuel v nm. induction d as [|d IH]; intros h g [|fuel] v nm Hd Hf Hh Hv; try lia;
    inversion Hd as [g' gr Hg Hn|g' gr p d' Hg Hp Hd']; subst;
    destruct (bind_resolve_hashable (set_count gr (S (bound_count gr))) v nm Hv)
      as (n & x & Hr & Hx); try (intros k y; by apply (Hh g gr));
    rewrite (bind_param_unfold _ _ _ _ _ _ Hg), Hr.
  - destruct (parent gr) as [[p|]|] eqn:E; [by destruct (Hn p)|eauto|eauto].
  - rewrite Hp. destruct (IH (heap_set_gremlin h g (bound_gremlin gr n x)) p fuel x (Some n))
      as (r & h' & Hrun); [|lia|by apply heap_hashable_set|done|].
    + by eapply parent_depth_set.
    + exists (n, x), h'. by rewrite (run_bind_ok _ _ _ _ _ Hrun).
Qed.

Lemma nested_heap_hashable : heap_hashable nested_heap.
Proof.
  intros g gr k x Hg Hk. unfold nested_heap, nest_heap in Hg.
  rewrite !heap_set_gremlin_lookup in Hg.
  repeat case_decide; simplify_eq; simpl in Hk; repeat case_decide; simplify_eq; done.
Qed.

Lemma bind_param_terminates_witness :
  ∃ r h', bind_param 2 1 (VStr "y") None nested_heap = (inr r, h').
Proof.
  apply (bind_param_terminates nested_heap 1 1 2 (VStr "y") None);
    [|lia|apply nested_heap_hashable|reflexivity].
  eapply (pd_up _ _ _ 0); [reflexivity|reflexivity|].
  apply (pd_root _ _ nest_parent); [reflexivity|discriminate].
Defined.

(** ** A binding climbs to the root *)

Lemma ancestors_set k h g gr gr' a :
  gremlins h !! g = Some gr → parent gr' = parent gr →
  ancestors k (heap_set_gremlin h g gr') a = ancestors k h a.
Proof.
  intros Hg Hp. revert a. induction k as [|k IH]; intros a; [done|]. cbn [ancestors]. f_equal.
  rewrite heap_set_gremlin_lookup. case_decide as E.
  - subst a. rewrite Hg, Hp. destruct (parent gr) as [[p|]|]; [by rewrite IH|done|done].
  - destruct (gremlins h !! a) as [gra|]; [|done]. destruct (parent gra) as [[p|]|]; [by rewrite IH|done|done].
Qed.

(** A hashable value that is no key of the dict. *)
Lemma not_placeholder_of d v :
  py_hashable v = true → (∀ s, v = VStr s → s ∉ dict_keys d) → not_placeholder d v.
Proof.
  intros Hh Hk. unfold not_placeholder, dict_lookup_value. rewrite Hh.
  destruct v as [s| | | | | | | | | |]; try done. by rewrite (proj2 (dict_get_None _ _) (Hk s eq_refl)).
Qed.

Lemma not_placeholder_set d n v : not_placeholder d v → v ≠ VStr n → not_placeholder (dict_set d n v) v.
Proof.
  unfold not_placeholder, dict_lookup_value. destruct (py_hashable v); [|done].
  destruct v as [s| | | | | | | | | |]; try done. intros H Hne. rewrite dict_get_set.
  case_decide as E; [by subst|done].
Qed.

(** One level of the climb: [g] binds [n] to [v] and keeps every
    binding of [n] to [v] it had. *)
Lemma bound_gremlin_has h g gr n v :
  gremlins h !! g = Some gr →
  has_binding (heap_set_gremlin h g (bound_gremlin gr n v)) n v g ∧
  ∀ a, has_binding h n v a → has_binding (heap_set_gremlin h g (bound_gremlin gr n v)) n v a.
Proof.
  intros Hg. assert (Hb : has_binding (heap_set_gremlin h g (bound_gremlin gr n v)) n v g)
    by (eexists; split; [apply heap_set_gremlin_lookup_eq|apply dict_get_set_eq]).
  split; [done|]. intros a (gra & Ha & Hk). destruct (decide (a = g)) as [->|Hne]; [done|].
  exists gra. by rewrite heap_set_gremlin_lookup_ne.
Qed.

(** The climb, for any name passed down: a value that is no placeholder
    anywhere and does not look like a generated name keeps its name
    [n] all the way up, and every builder on the way binds [n] to it. *)
Lemma bind_param_climbs d : ∀ h g fuel v nm,
  parent_depth h g d → d < fuel → heap_hashable h → py_hashable v = true →
  (∀ a gra, gremlins h !! a = Some gra → not_placeholder (bound_params gra) v) →
  (∀ k, nm = Some k → v ≠ VStr k) → (∀ s c, v ≠ VStr (param_name s c)) →
  ∃ n h', bind_param fuel g v nm h = (inr (n, v), h') ∧ (∀ k, nm = Some k → n = k) ∧
    Forall (has_binding h' n v) (ancestors (S d) h g) ∧ (∀ a, has_binding h n v a → has_binding h' n v a).
Proof.
  induction d as [|d IH]; intros h g [|fuel] v nm Hd Hf Hh Hv Hnp Hnm Hpn; try lia;
    inversion Hd as [g' gr Hg Hn|g' gr p d' Hg Hp Hd']; subst;
    set (n := default (param_name (bound_param gr) (S (bound_count gr))) nm);
    assert (Hvn : v ≠ VStr n) by (destruct nm; [by apply Hnm|apply Hpn]);
    destruct (bound_gremlin_has h g gr n v Hg) as [Hb Hpers1];
    rewrite (bind_param_unfold _ _ _ _ _ _ Hg), bind_resolve_new by (apply (Hnp g gr Hg)).
  - exists n, (heap_set_gremlin h g (bound_gremlin gr n v)).
    cbn [ancestors]. rewrite Hg. destruct (parent gr) as [[p|]|]; [by destruct (Hn p)|..];
      (split_and!; [done|by intros k ->|by constructor|done]).
  - rewrite Hp. set (h1 := heap_set_gremlin h g (bound_gremlin gr n v)).
    destruct (IH h1 p fuel v (Some n)) as (n' & h' & Hrun & Hn' & Hall & Hpers); [|lia| | | | |done|].
    + by eapply parent_depth_set.
    + by apply heap_hashable_set.
    + done.
    + intros a gra. unfold h1. rewrite heap_set_gremlin_lookup. case_decide; [|apply Hnp].
      intros [= <-]. apply not_placeholder_set; [apply (Hnp g gr Hg)|done].
    + by intros k [= <-].
    + rewrite (Hn' n eq_refl) in Hrun, Hall, Hpers. exists n, h'. split_and!.
      * by rewrite (run_bind_ok _ _ _ _ _ Hrun).
      * by intros k ->.
      * cbn [ancestors]. rewrite Hg, Hp. constructor; [by apply Hpers|].
        by rewrite (ancestors_set _ h g gr (bound_gremlin gr n v)) in Hall.
      * intros a Ha. by apply Hpers, Hpers1.
Qed.

(** C35: a binding made on a nested builder reaches the root: when the
    parents above [g] form a chain of [d] links and the recursion limit
    is above [d], [g.bind_param(v)] of a hashable value that is no
    placeholder anywhere (and no string of the form
    [GPY_PARAM_<seed>_<c>]) returns a name [n], and afterwards [g] and
    every builder above it, the root included, bind [n] to [v]. *)
Theorem bind_param_reaches_root h g d fuel v :
  parent_depth h g d → d < fuel → heap_hashable h → py_hashable v = true →
  (∀ a gra, gremlins h !! a = Some gra → not_placeholder (bound_params gra) v) →
  (∀ s c, v ≠ VStr (param_name s c)) →
  ∃ n h', bind_param fuel g v None h = (inr (n, v), h') ∧
    Forall (has_binding h' n v) (ancestors (S d) h g).
Proof.
  intros Hd Hf Hh Hv Hnp Hpn.
  destruct (bind_param_climbs d h g fuel v None Hd Hf Hh Hv Hnp) as (n & h' & Hrun & _ & Hall & _);
    [done|done|]. eauto.
Qed.

Lemma bind_param_reaches_root_witness :
  ∃ n h', bind_param 2 1 (VInt 7) None nested_heap = (inr (n, VInt 7), h') ∧
    Forall (has_binding h' n (VInt 7)) (ancestors 2 nested_heap 1).
Proof.
  apply (bind_param_reaches_root nested_heap 1 1 2 (VInt 7));
    [|lia|apply nested_heap_hashable|reflexivity|intros a gra _; reflexivity|intros s c; discriminate].
  eapply (pd_up _ _ _ 0); [reflexivity|reflexivity|].
  apply (pd_root _ _ nest_parent); [reflexivity|discriminate].
Defined.

(** C16: a builder that is its own parent (what [g.nest(g)] makes of
    [g]) can bind nothing: every [bind_param] on it recurses until the
    recursion limit, whatever the limit is; the code has no cycle guard. *)
Theorem bind_param_self_parent_diverges fuel h g gr v nm :
  gremlins h !! g = Some gr → parent gr = Some (OGremlin g) →
  heap_hashable h → py_hashable v = true →
  (bind_param fuel g v nm h).1 = inl RecursionError.
Proof.
  revert h gr v nm. induction fuel as [|fuel IH]; intros h gr v nm Hg Hp Hh Hv; [done|].
  destruct (bind_resolve_hashable (set_count gr (S (bound_count gr))) v nm Hv)
    as (n & x & Hr & Hx); [intros k y; by apply (Hh g gr)|].
  rewrite (bind_param_unfold _ _ _ _ _ _ Hg), Hr, Hp.
  apply run_bind_err_fst. apply (IH _ (bound_gremlin gr n x)); [apply heap_set_gremlin_lookup_eq|done| |done].
  by apply heap_hashable_set.
Qed.

Lemma self_heap_hashable : heap_hashable self_heap.
Proof.
  intros g gr k x Hg Hk. unfold self_heap, nest_heap in Hg.
  rewrite !heap_set_gremlin_lookup in Hg.
  repeat case_decide; simplify_eq; simpl in Hk; repeat case_decide; simplify_eq; done.
Qed.

Lemma bind_param_self_parent_diverges_witness :
  (bind_param 1000 0 (VStr "x") None self_heap).1 = inl RecursionError.
Proof.
  apply (bind_param_self_parent_diverges 1000 self_heap 0 (set_parent nest_parent (Some (OGremlin 0))));
    [reflexivity|reflexivity|apply self_heap_hashable|reflexivity].
Defined.

(** ** A placeholder of the parent bound in the child *)

(** C17: when the child's one binding holds one of its parent's
    placeholders as a literal (a caller re-using [g.bind_param(...)[0]]
    in a nested builder), nesting does not copy it: [bind_param] on the
    parent takes the value for a back-reference to its own placeholder,
    so the parent's dict is as before and the child's placeholder [kc],
    which the composed text uses, is missing from it. *)
Theorem set_parent_drops_placeholder_value f h c p grc grp kc kp vp :
  c ≠ p → gremlins h !! c = Some grc → gremlins h !! p = Some grp → parent grp = None →
  bound_params grc = [(kc, VStr kp)] → dict_get (bound_params grp) kp = Some vp →
  kc ∉ dict_keys (bound_params grp) →
  ∃ h' grp', set_parent_gremlin (S (S f)) c (OGremlin p) h = (inr [(kc, VStr kp)], h') ∧
    gremlins h' !! p = Some grp' ∧ bound_params grp' = bound_params grp ∧
    dict_get (bound_params grp') kc = None.
Proof.
  intros Hne Hc Hp Hpp Hd Hkp Hkc.
  set (grc1 := set_parent grc (Some (OGremlin p))).
  set (h1 := heap_set_gremlin h c grc1).
  assert (Hc1 : gremlins h1 !! c = Some grc1) by apply heap_set_gremlin_lookup_eq.
  assert (Hp1 : gremlins h1 !! p = Some grp) by (unfold h1; by rewrite heap_set_gremlin_lookup_ne).
  set (grc2 := set_count grc1 (S (bound_count grc1))).
  set (h2 := heap_set_gremlin h1 c grc2).
  assert (Hp2 : gremlins h2 !! p = Some grp) by (unfold h2; by rewrite heap_set_gremlin_lookup_ne).
  set (h3 := heap_set_gremlin h2 p (bound_gremlin grp kp vp)).
  assert (Hc3 : gremlins h3 !! c = Some grc2)
    by (unfold h3; rewrite heap_set_gremlin_lookup_ne by done; apply heap_set_gremlin_lookup_eq).
  assert (Hb : bind_param (S (S f)) c (VStr kc) None h1 = (inr (kc, VStr kp), h3)).
  { rewrite (bind_param_key_up (S f) h1 c grc1 p kc (VStr kp) None Hc1 eq_refl)
      by (cbn; rewrite Hd; cbn; by rewrite decide_True).
    fold grc2 h2.
    assert (Hpb : bind_param (S f) p (VStr kp) (Some kc) h2 = (inr (kp, vp), h3))
      by (rewrite (bind_param_unfold _ _ _ _ _ _ Hp2), (bind_resolve_key _ _ vp), Hpp by done; done).
    by rewrite (run_bind_ok _ _ _ _ _ Hpb). }
  assert (Hown : bind_own_params (S (S f)) c 1 0 1 h1 = (inr (), h3)).
  { cbn [bind_own_params]. rewrite (run_bind_ok _ _ _ _ _ (load_gremlin_run _ _ _ Hc1)).
    cbn [grc1 set_parent bound_params]. rewrite Hd, decide_True by done.
    change (dict_keys [(kc, VStr kp)] !! 0) with (Some kc). cbv beta iota.
    rewrite (run_bind_ok _ _ _ _ _ Hb).
    rewrite (run_bind_ok _ _ _ _ _ (load_gremlin_run _ _ _ Hc3)). cbn [grc2 grc1 set_count set_parent bound_params].
    by rewrite Hd. }
  assert (Hgp : bound_params (bound_gremlin grp kp vp) = bound_params grp) by (cbn; by apply dict_set_id).
  exists h3, (bound_gremlin grp kp vp). split_and!.
  - unfold set_parent_gremlin. rewrite (run_bind_ok _ _ _ _ _ (update_gremlin_run _ _ _ _ Hc)). fold grc1 h1.
    rewrite (run_bind_ok _ _ _ _ _ (load_gremlin_run _ _ _ Hc1)). cbn [grc1 set_parent bound_params]. rewrite Hd.
    cbn [length]. rewrite (run_bind_ok _ _ _ _ _ Hown), (run_bind_ok _ _ _ _ _ (load_gremlin_run _ _ _ Hc3)).
    cbn [grc2 grc1 set_count set_parent bound_params]. by rewrite Hd.
  - apply heap_set_gremlin_lookup_eq.
  - done.
  - rewrite Hgp. by apply dict_get_None.
Qed.

Lemma set_parent_drops_placeholder_value_witness :
  ∃ h' grp', set_parent_gremlin 2 1 (OGremlin 0) drop_heap =
      (inr [("GPY_PARAM_bbbbb_1", VStr "GPY_PARAM_aaaaa_1")], h') ∧
    gremlins h' !! 0 = Some grp' ∧ bound_params grp' = bound_params nest_parent ∧
    dict_get (bound_params grp') "GPY_PARAM_bbbbb_1" = None.
Proof.
  apply (set_parent_drops_placeholder_value 0 drop_heap 1 0
           (mkGremlin "" 11 11 None [("GPY_PARAM_bbbbb_1", VStr "GPY_PARAM_aaaaa_1")] "bbbbb" 1 None)
           nest_parent "GPY_PARAM_bbbbb_1" "GPY_PARAM_aaaaa_1" (VStr "parent"));
    [lia|reflexivity|reflexivity|reflexivity|reflexivity|reflexivity|vm_compute; set_solver].
Defined.
