(* ===== verification/Chain.v ===== *)
(** * Chain: building tokens and linking them

    - [gremlin_init], [reset], [set_graph_variable]: [Gremlin.__init__],
      [Gremlin.reset], [Gremlin.set_graph_variable] (gremlin.py lines
      83-98, 239-245);
    - [fix_value]: [_Tokenable.fix_value] (lines 269-285), the
      normaliser every value and argument of a token goes through; it
      binds scalars (when the token may bind), nests builders (setting
      their parent) and gives predicates a builder;
    - [token_init]: [Token.__init__] (lines 295-302);
    - [add_token], [remove_token]: [Gremlin.add_token] and
      [Gremlin.remove_token] (lines 216-232), the pointer surgery on the
      linked chain;
    - [linklist_add], [linklist_remove]: [LinkList.add] and
      [LinkList.remove] (lines 15-35), inherited by [Gremlin]; the
      second one never unlinks anything.

    [fix_value] runs with [self] a token (which has a [gremlin]) or a
    predicate (which has none: [Predicate.__getattr__] answers any
    missing attribute with the predicate itself, so [self.gremlin] is
    the predicate and [self.apply_statment(...)] is a silent no-op).
    The [while] loop of [remove_token] is bounded by one more than the
    number of tokens in the heap; a walk that exhausts the bound was on
    a cycle, where Python would loop forever ([InfiniteLoop]). *)

From S2P Require Import Prelude PyDict PyValue State Binder.
#[local] Open Scope string_scope.

(** [Gremlin.set_graph_variable(graph_variable)]; [None] stands for a
    falsy argument other than the empty string. *)
Definition set_graph_variable (g : nat) (graph_variable : option string) : M unit :=
  gr ← load_gremlin g;
  update_token (top gr) (λ tk, set_tok_value tk (VStr (default "" graph_variable))).

(** [Gremlin.reset()] *)
Definition reset (g : nat) : M unit :=
  gr ← load_gremlin g;
  u ← draw_uuid;
  (* self.bound_param = str(uuid.uuid4())[-5:] *)
  store_gremlin g (mkGremlin (gv gr) (top gr) (top gr) None [] (py_tail 5 u) 0 None);;
  update_token (top gr) (λ tk, set_tok_next tk None);;
  set_graph_variable g (Some (gv gr)).

(** [config.GRAPH_VARIABLE] (config.py, not part of the sources; the
    default graph variable of [Gremlin()], and the tests expect ['g']). *)
Definition GRAPH_VARIABLE : string := "g".

(** [Gremlin(graph_variable)]: the object, its [GraphVariable] token (a
    [Token.__init__] whose string value and empty arguments [fix_value]
    keeps as they are), then [reset()]. *)
Definition gremlin_init (graph_variable : string) : M nat :=
  g ← alloc_id;
  t ← alloc_id;
  store_token t (mkToken GraphVariable g (VStr graph_variable) [] None);;
  store_gremlin g (mkGremlin graph_variable t t None [] "" 0 None);;
  reset g;;
  mret g.

(** Who runs [fix_value]. *)
Inductive fixer := FixToken (g : nat) | FixPredicate.

Definition fixer_owner (self : fixer) : owner :=
  match self with
  | FixToken g => OGremlin g
  | FixPredicate => OPredicate
  end.

(** Values [fix_value] returns as they are when no binding is asked for. *)
Definition inert (v : pyval) : bool :=
  match v with
  | VStr _ | VInt _ | VLong _ | VBool _ | VNone | VSlice _ _ _ => true
  | _ => false
  end.

(** [Gremlin(P)] for a predicate [P] as graph variable: [self.gv = P],
    then [GraphVariable(self, P)], whose [Token.__init__] runs
    [self.fix_value(P)]; [P] is a [Predicate], so
    [P.gremlin = Gremlin(self.gremlin.gv)], where [self.gremlin.gv] is
    [P] again.  Each level allocates the builder and its token before it
    recurses; the code after the recursive call is never reached
    ([Predicates.gremlin_pred_gv_diverges]). *)
Fixpoint gremlin_pred_gv (fuel : nat) : M nat :=
  match fuel with
  | 0 => mthrow RecursionError
  | S f =>
      _ ← alloc_id;
      _ ← alloc_id;
      gremlin_pred_gv f;;
      mthrow (NotModelled "Gremlin(P) returning, for a predicate P")
  end.

(** [_Tokenable.fix_value(value, can_bind=False)] *)
Fixpoint fix_value (fuel : nat) (self : fixer) (value : pyval) (can_bind : bool) : M pyval :=
  match value with
  | VPred _ _ _ =>
      (* value.gremlin = Gremlin(self.gremlin.gv) *)
      match self with
      | FixToken g => gr ← load_gremlin g; gremlin_init (gv gr);; mret value
      | FixPredicate =>
          (* in Predicate.__init__ self.gremlin is not set yet: __getattr__
             answers the predicate itself, and so does its .gv *)
          gremlin_pred_gv fuel;; mret value
      end
  | VList l | VTuple l =>
      l' ← py_map (λ a, fix_value fuel self a can_bind) l; mret (VList l')
  | VStatement _ =>
      (* self.apply_statment(value) *)
      match self with
      | FixToken _ => mthrow (AttributeError "apply_statment")
      | FixPredicate => mret value
      end
  | VGremlin c => set_parent_gremlin fuel c (fixer_owner self);; mret value
  | VStr _ | VInt _ | VBool _ =>
      match self with
      | FixToken g =>
          if can_bind then r ← bind_param fuel g value None; mret (VStr r.1) else mret value
      | FixPredicate => mret value
      end
  | _ => mret value
  end.

(** [self.fix_value(tuple(args), can_bind)]: the list of fixed items. *)
Definition fix_args (fuel : nat) (self : fixer) (args : list pyval) (can_bind : bool) : M (list pyval) :=
  py_map (λ a, fix_value fuel self a can_bind) args.

(** [Token.__init__(gremlin, value, args=None)] for a token of kind [k]. *)
Definition token_init (fuel : nat) (k : tkind) (g : nat) (value : pyval) (args : option (list pyval))
    : M nat :=
  t ← alloc_id;
  v ← fix_value fuel (FixToken g) value false;
  a ← fix_args fuel (FixToken g) (default [] args) (can_bind_of k);
  store_token t (mkToken k g v a None);;
  mret t.

(** [Gremlin.add_token(token)] *)
Definition add_token (g : nat) (t : nat) : M unit :=
  gr ← load_gremlin g;
  update_token (bottom gr) (λ tk, set_tok_next tk (Some t));;
  store_gremlin g (set_bottom gr t).

(** The [while token:] loop of [Gremlin.remove_token], from [cur]. *)
Fixpoint remove_walk (bound : nat) (cur : option nat) (remove : nat) : M unit :=
  match cur with
  | None => mret ()
  | Some t =>
      match bound with
      | 0 => mthrow InfiniteLoop
      | S bound' =>
          tk ← load_token t;
          if decide (tok_next tk = Some remove) then
            rm ← load_token remove;
            store_token t (set_tok_next tk (tok_next rm))
          else remove_walk bound' (tok_next tk) remove
      end
  end.

(** [Gremlin.remove_token(remove)] *)
Definition remove_token (g : nat) (remove : nat) : M unit :=
  gr ← load_gremlin g;
  h ← get_st;
  remove_walk (S (size (tokens h))) (Some (top gr)) remove.

(** [LinkList.add(link)], inherited by [Gremlin] (reachable as [g.add]):
    the same pointer update as [Gremlin.add_token]. *)
Definition linklist_add (g : nat) (link : nat) : M unit :=
  gr ← load_gremlin g;
  update_token (bottom gr) (λ tk, set_tok_next tk (Some link));;
  store_gremlin g (set_bottom gr link).

(** The [while token:] loop of [LinkList.remove(link, drop_after)].  Its
    only writes are [token.bottom = ...] on the token that is [link]: an
    attribute of the token that no code of the program reads, so the
    model returns those writes, in order, instead of storing them. *)
Fixpoint linklist_remove_walk (bound : nat) (cur : option nat) (link : nat) (drop_after : bool)
    : M (list (nat * option nat)) :=
  match cur with
  | None => mret []
  | Some t =>
      match bound with
      | 0 => mthrow InfiniteLoop
      | S bound' =>
          tk ← load_token t;
          if decide (link = t) then
            if drop_after then mret [(t, None)]
            else
              w ← match tok_next tk with
                  | Some n => tkn ← load_token n; mret (tok_next tkn)
                  | None => mret None
                  end;
              rest ← linklist_remove_walk bound' (tok_next tk) link drop_after;
              mret ((t, w) :: rest)
          else linklist_remove_walk bound' (tok_next tk) link drop_after
      end
  end.

(** [LinkList.remove(link, drop_after=False)] on builder [g]. *)
Definition linklist_remove (g : nat) (link : nat) (drop_after : bool) : M (list (nat * option nat)) :=
  gr ← load_gremlin g;
  h ← get_st;
  linklist_remove_walk (S (size (tokens h))) (Some (top gr)) link drop_after.

(** A builder [g.a.f] (identity [0]): its graph variable [1] and the
    attributes [2] and [3]. *)
Definition chain_sample_gremlin : gremlin := mkGremlin "g" 1 3 None [] "abcde" 0 None.
Definition chain_sample_heap : heap :=
  mkHeap {[0 := chain_sample_gremlin]}
    {[1 := mkToken GraphVariable 0 (VStr "g") [] (Some 2);
      2 := mkToken Attribute 0 (VStr "a") [] (Some 3);
      3 := mkToken Attribute 0 (VStr "f") [] None]}
    4 (λ _, "fffff") 1.

(** ** Values [fix_value] keeps *)

Lemma fix_value_inert fuel self v : inert v = true → ∀ h, fix_value fuel self v false h = (inr v, h).
Proof. destruct v; try discriminate; intros _ h; destruct self; reflexivity. Qed.


(** ** The graph variable and [reset] *)

Lemma set_graph_variable_run h g gr tk s :
  gremlins h !! g = Some gr → tokens h !! top gr = Some tk →
  set_graph_variable g s h = (inr (), heap_set_token h (top gr) (set_tok_value tk (VStr (default "" s)))).
Proof.
  intros Hg Ht. unfold set_graph_variable.
  by rewrite (run_bind_ok _ _ _ _ _ (load_gremlin_run _ _ _ Hg)), (update_token_run _ _ _ _ Ht).
Qed.

(** [reset()] empties the chain and the bindings, draws a new seed and
    gives the graph variable the constructor's [self.gv] back. *)
Lemma reset_run h g gr tk :
  gremlins h !! g = Some gr → tokens h !! top gr = Some tk →
  reset g h =
    (inr (), mkHeap (<[g:=mkGremlin (gv gr) (top gr) (top gr) None [] (py_tail 5 (uuids h (uuid_count h))) 0 None]> (gremlins h))
               (<[top gr:=set_tok_value (set_tok_next tk None) (VStr (gv gr))]> (tokens h))
               (next_id h) (uuids h) (S (uuid_count h))).
Proof.
  intros Hg Ht. unfold reset.
  rewrite (run_bind_ok _ _ _ _ _ (load_gremlin_run _ _ _ Hg)). cbv beta.
  set (gr' := mkGremlin (gv gr) (top gr) (top gr) None [] (py_tail 5 (uuids h (uuid_count h))) 0 None).
  rewrite (run_bind_ok _ _ _ _ _ (eq_refl : draw_uuid h = (inr (uuids h (uuid_count h)),
             mkHeap (gremlins h) (tokens h) (next_id h) (uuids h) (S (uuid_count h))))).
  rewrite (run_bind_ok _ _ _ _ _ (store_gremlin_run _ _ _)).
  rewrite (run_bind_ok _ _ _ _ _ (update_token_run (heap_set_gremlin (mkHeap (gremlins h) (tokens h)
             (next_id h) (uuids h) (S (uuid_count h))) g gr') _ tk _ Ht)).
  rewrite (set_graph_variable_run _ g gr' (set_tok_next tk None));
    [|apply lookup_insert_eq|cbn; by rewrite lookup_insert_eq].
  unfold heap_set_token, heap_set_gremlin. cbn. by rewrite insert_insert_eq.
Qed.

(** ** Unlinking a token *)

Lemma chain_head toks y l : chain toks (Some y) l → ∃ l', l = y :: l'.
Proof. inversion 1. by eexists. Qed.

(** The [while] loop finds the predecessor [p] of [r] and links [p] to
    the token after [r]. *)
Lemma remove_walk_run h l1 : ∀ bound cur p r l2 tkp tkr,
  chain (tokens h) cur (l1 ++ p :: r :: l2) → tokens h !! p = Some tkp → tokens h !! r = Some tkr →
  length l1 < bound →
  remove_walk bound cur r h = (inr (), heap_set_token h p (set_tok_next tkp (tok_next tkr))).
Proof.
  induction l1 as [|x l1 IH]; intros bound cur p r l2 tkp tkr Hc Hp Hr Hb;
    (destruct bound as [|bound]; [simpl in Hb; lia|]).
  - inversion Hc as [|t tk l Ht Hc']; subst. rewrite Hp in Ht. injection Ht as <-.
    destruct (tok_next tkp) as [r'|] eqn:Hn; [|inversion Hc'].
    apply chain_head in Hc' as [l' Hl']. injection Hl' as -> _.
    cbn [remove_walk]. rewrite (run_bind_ok _ _ _ _ _ (load_token_run _ _ _ Hp)), Hn, decide_True by done.
    by rewrite (run_bind_ok _ _ _ _ _ (load_token_run _ _ _ Hr)).
  - pose proof (chain_NoDup _ _ _ Hc) as Hnd.
    inversion Hc as [|t tk l Ht Hc']; subst.
    cbn [remove_walk]. rewrite (run_bind_ok _ _ _ _ _ (load_token_run _ _ _ Ht)).
    rewrite decide_False.
    + apply (IH _ _ _ _ _ _ _ Hc' Hp Hr). simpl in Hb. lia.
    + intros Hn. rewrite Hn in Hc'. apply chain_head in Hc' as [l' Hl'].
      apply NoDup_cons in Hnd as [_ Hnd].
      destruct l1 as [|y l1]; simpl in Hl'; injection Hl' as -> Hl'.
      * subst. apply NoDup_cons in Hnd as [Hnd _]. set_solver.
      * subst. apply NoDup_cons in Hnd as [Hnd _]. set_solver.
Qed.

(** The chain after the splice: [r] is gone. *)
Lemma chain_splice toks l1 : ∀ cur p r l2 tkp tkr,
  chain toks cur (l1 ++ p :: r :: l2) → toks !! p = Some tkp → toks !! r = Some tkr →
  chain (<[p:=set_tok_next tkp (tok_next tkr)]> toks) cur (l1 ++ p :: l2).
Proof.
  induction l1 as [|x l1 IH]; intros cur p r l2 tkp tkr Hc Hp Hr;
    pose proof (chain_NoDup _ _ _ Hc) as Hnd.
  - inversion Hc as [|t tk l Ht Hc']; subst. rewrite Hp in Ht. injection Ht as <-.
    inversion Hc' as [|t' tk' l' Ht' Hc'']; subst. rewrite Hr in Ht'. injection Ht' as <-.
    econstructor; [apply lookup_insert_eq|]. simpl. apply chain_insert_other; [|done].
    apply NoDup_cons in Hnd as [Hnd _]. set_solver.
  - inversion Hc as [|t tk l Ht Hc']; subst.
    assert (x ≠ p) by (apply NoDup_cons in Hnd as [Hnd _]; set_solver).
    econstructor; [by rewrite lookup_insert_ne|]. by apply (IH _ _ r _ _ tkr).
Qed.

(** C12: [Gremlin.remove_token(r)], for a token [r] of the builder's
    chain other than its graph variable, unlinks exactly [r]: the chain
    from [top] afterwards is the old one without [r], and no builder
    changes — in particular [bottom] still names [r] when [r] was the last
    token, which only [__call__]'s following [add_token] repairs. *)
Theorem remove_token_unlinks h g gr l1 r l2 :
  gremlins h !! g = Some gr → chain (tokens h) (Some (top gr)) (top gr :: l1 ++ r :: l2) →
  ∃ h', remove_token g r h = (inr (), h') ∧ gremlins h' = gremlins h ∧
    chain (tokens h') (Some (top gr)) (top gr :: l1 ++ l2).
Proof.
  intros Hg Hc. destruct (exists_last (l:=top gr :: l1)) as [l0 [p Heq]]; [done|].
  assert (Hc' : chain (tokens h) (Some (top gr)) (l0 ++ p :: r :: l2))
    by (by rewrite app_comm_cons, Heq, <-app_assoc in Hc).
  destruct (chain_in_dom _ _ _ p Hc') as [tkp Hp]; [set_solver|].
  destruct (chain_in_dom _ _ _ r Hc') as [tkr Hr]; [set_solver|].
  exists (heap_set_token h p (set_tok_next tkp (tok_next tkr))). split_and!; [|done|].
  - unfold remove_token. rewrite (run_bind_ok _ _ _ _ _ (load_gremlin_run _ _ _ Hg)), (run_bind_ok _ _ _ _ _ (run_get _)).
    apply (remove_walk_run _ _ _ _ _ _ _ _ _ Hc' Hp Hr).
    pose proof (chain_length_size _ _ _ Hc') as Hl. rewrite length_app in Hl. simpl in Hl. lia.
  - rewrite app_comm_cons, Heq, <-app_assoc. by apply (chain_splice _ _ _ _ r _ _ tkr).
Qed.

(** Unlinking the attribute [2] of [chain_sample_heap]. *)
Lemma remove_token_unlinks_witness :
  ∃ h', remove_token 0 2 chain_sample_heap = (inr (), h') ∧ gremlins h' = gremlins chain_sample_heap ∧
    chain (tokens h') (Some 1) (1 :: [] ++ [3]).
Proof.
  apply (remove_token_unlinks chain_sample_heap 0 chain_sample_gremlin [] 2 [3]);
    [reflexivity|apply chain_check_sound; vm_compute; reflexivity].
Defined.

(** ** [LinkList.remove] *)

Lemma linklist_remove_walk_run h l : ∀ bound cur link da,
  chain (tokens h) cur l → length l < bound →
  ∃ w, linklist_remove_walk bound cur link da h = (inr w, h) ∧
    (link ∉ l → w = []) ∧ (link ∈ l → ∃ v, w = [(link, v)]).
Proof.
  induction l as [|t l IH]; intros bound cur link da Hc Hb.
  - inversion Hc; subst. exists []. split_and!; [by destruct bound|done|set_solver].
  - inversion Hc as [|? tk ? Ht Hc']; subst. destruct bound as [|bound]; [simpl in Hb; lia|].
    pose proof (chain_NoDup _ _ _ Hc) as Hnd. apply NoDup_cons in Hnd as [Hnl _].
    destruct (IH bound (tok_next tk) link da Hc' ltac:(simpl in Hb; lia)) as (w & Hw & Hn & Hi).
    cbn [linklist_remove_walk]. rewrite (run_bind_ok _ _ _ _ _ (load_token_run _ _ _ Ht)).
    destruct (decide (link = t)) as [->|Hne].
    + destruct da.
      * exists [(t, None)]. split_and!; [done|set_solver|by eexists].
      * assert (Hnx : ∃ v, (match tok_next tk with
                            | Some n => tkn ← load_token n; mret (tok_next tkn)
                            | None => mret None
                            end : M (option nat)) h = (inr v, h)).
        { destruct (tok_next tk) as [n|] eqn:E; [|by eexists].
          inversion Hc' as [|? tkn ? Hn' _]; subst.
          rewrite (run_bind_ok _ _ _ _ _ (load_token_run _ _ _ Hn')). by eexists. }
        destruct Hnx as [v Hv]. rewrite (run_bind_ok _ _ _ _ _ Hv), (run_bind_ok _ _ _ _ _ Hw).
        exists ((t, v) :: w). rewrite (Hn Hnl). split_and!; [done|set_solver|by eexists].
    + exists w. split_and!; [done|set_solver|]. intros Hin. apply Hi. set_solver.
Qed.

(** C31: [LinkList.remove(link, drop_after)], which [Gremlin] inherits,
    removes nothing: on a builder whose chain is well formed it returns
    without error, leaves the heap as it was (every link of the chain,
    [top] and [bottom] included), and its only effect is the stray write
    [link.bottom = ...] on the link itself, when the link is in the
    chain, and no write otherwise. *)
Theorem linklist_remove_removes_nothing h g gr l link da :
  gremlins h !! g = Some gr → gremlin_chain (tokens h) gr l →
  ∃ w, linklist_remove g link da h = (inr w, h) ∧
    (link ∉ top gr :: l → w = []) ∧ (link ∈ top gr :: l → ∃ v, w = [(link, v)]).
Proof.
  intros Hg [Hc _]. destruct (linklist_remove_walk_run h _ (S (size (tokens h))) _ link da Hc)
    as (w & Hw & Hn & Hi); [pose proof (chain_length_size _ _ _ Hc); lia|].
  exists w. unfold linklist_remove.
  rewrite (run_bind_ok _ _ _ _ _ (load_gremlin_run _ _ _ Hg)), (run_bind_ok _ _ _ _ _ (run_get _)). done.
Qed.

Lemma linklist_remove_removes_nothing_witness :
  ∃ w, linklist_remove 0 2 false chain_sample_heap = (inr w, chain_sample_heap) ∧
    (2 ∉ [1; 2; 3] → w = []) ∧ (2 ∈ [1; 2; 3] → ∃ v, w = [(2, v)]).
Proof.
  apply (linklist_remove_removes_nothing chain_sample_heap 0 chain_sample_gremlin [2; 3] 2 false);
    [reflexivity|split; [apply chain_check_sound; vm_compute; reflexivity|reflexivity]].
Defined.

(** ** The placeholder seed *)

(** C32: the seed of a new builder is [str(uuid.uuid4())[-5:]]:
    [Gremlin(gv)] always succeeds, and its [bound_param] is a suffix of
    the uuid drawn, of [min 5 (len uuid)] characters (five for the
    36 characters of a [uuid4]; the whole string for a shorter one). *)
Theorem seed_is_uuid_tail gv h :
  ∃ g h' gr, gremlin_init gv h = (inr g, h') ∧ gremlins h' !! g = Some gr ∧
    String.length (bound_param gr) = min 5 (String.length (uuids h (uuid_count h))) ∧
    ∃ p, uuids h (uuid_count h) = p +:+ bound_param gr.
Proof.
  destruct (py_tail_spec 5 (uuids h (uuid_count h))) as [Hl Hp].
  do 3 eexists. split.
  { unfold gremlin_init, reset, set_graph_variable, update_token, load_gremlin, load_token,
      alloc_id, draw_uuid, store_gremlin, store_token, modify_st.
    cbv [mbind PyM_bind mret PyM_ret]. do 6 (simpl; rewrite ?lookup_insert_eq). reflexivity. }
  split; [simpl; rewrite lookup_insert_eq; reflexivity|]. split; [exact Hl|exact Hp].
Qed.
