(* ===== verification/Render.v ===== *)
(** * Render: [str(gremlin)]

    Rendering is stateful in gremlinpy, so it is a computation of the
    monad:
    - [gremlin_str]: [Gremlin.__unicode__] (gremlin.py lines 103-110)
      around [LinkList.__unicode__] (lines 43-73) with [Gremlin.can_use]
      (lines 100-101): walk the chain from [top], render each token, put
      the token's [concat] before it unless nothing was emitted yet, the
      previous token is a [Raw], or the previous token is the graph
      variable and rendered empty; prefix ["<return_var> = "].
    - [token_str]: [str(token)] for every kind (lines 305-416).  A
      [Function] pops its last argument, nests it when it is a builder
      (setting its parent, so that its bindings reach this builder),
      renders it and appends the text back: rendering replaces the last
      argument by its text.
    - [pred_str]: [Predicate.__unicode__] (lines 431-436).
    - [str_value]: Python's [str] on a value.
    The three are one recursion on [fuel], Python's recursion limit; the
    chain walk is a loop bounded by the number of tokens in the heap. *)

From S2P Require Import Prelude PyDict PyValue State Binder Chain.

(** [Predicate.__unicode__] of a predicate with no [_function]: the
    lookup of [_function] goes to [__getattr__], which answers the
    predicate itself; it is truthy, so [not self._function] is false,
    ['%s(%s)' % (self._function, ', '.join(self.args))] joins the
    arguments and then formats [str(self)], and [_Tokenable.__str__]
    runs [__unicode__] again.  The [predicate_name] that [__getattr__]
    stores is read only by [Predicate.__call__], which prints. *)
Fixpoint pred_str_self (fuel : nat) (args : list pyval) : M string :=
  match join_values ", " args with
  | inl e => mthrow e
  | inr j =>
      match fuel with
      | 0 => mthrow RecursionError
      | S f => s ← pred_str_self f args; mret (s +:+ "(" +:+ j +:+ ")")
      end
  end.

(** [Predicate.__unicode__] for a predicate of class [cls] whose
    [_function] is [fn] ([None]: the attribute is missing). *)
Definition pred_str (fuel : nat) (cls : string) (fn : option string) (args : list pyval) : M string :=
  match fn with
  | Some f =>
      if decide (f = "") then
        mthrow (PredicateError (cls +:+ " predicate does not have a _function defined"))
      else
        match join_values ", " args with
        | inl e => mthrow e
        | inr j => mret (f +:+ "(" +:+ j +:+ ")")
        end
  | None => pred_str_self fuel args
  end.

(** [Gremlin.can_use(prev, link)]: no separator after a [Raw] token. *)
Definition can_use (prev : tkind) : bool := bool_decide (prev ≠ Raw).

(** The separator the walk puts before a token of kind [k], given the
    texts emitted so far ([acc]) and the kind of the previous token. *)
Definition sep_before (acc : list string) (prev : option tkind) (k : tkind) : list string :=
  match acc, prev with
  | [], _ | _, None => []
  | _ :: _, Some pk =>
      if decide (concat_of k = "") then []
      else if negb (can_use pk) then []
      else if decide (pk = GraphVariable) then
        (if bool_decide (0 < String.length (default "" (last acc))) then [concat_of k] else [])
      else [concat_of k]
  end.

(** The [while token:] loop of [LinkList.__unicode__]: [tok_str] is
    [str(token)], [prev] the kind of the previous token, [acc] the list
    [tokens] of emitted texts; the loop runs at most [bound] times. *)
Fixpoint chain_walk (tok_str : nat → M string) (bound : nat) (cur : option nat)
    (prev : option tkind) (acc : list string) : M (list string) :=
  match cur with
  | None => mret acc
  | Some t =>
      match bound with
      | 0 => mthrow InfiniteLoop
      | S bound' =>
          s ← tok_str t;
          tk ← load_token t;
          chain_walk tok_str bound' (tok_next tk) (Some (tok_kind tk))
            (acc ++ sep_before acc prev (tok_kind tk) ++ [s])%list
      end
  end.

Fixpoint str_value (fuel : nat) (v : pyval) {struct fuel} : M string :=
  match fuel with
  | 0 => mthrow RecursionError
  | S f =>
      match v with
      | VGremlin g => gremlin_str f g
      | VPred cls fn args => pred_str f cls fn args
      | VStatement _ => mthrow (NotModelled "Statement.__str__ (statement.py)")
      | _ => mret (py_str_plain v)
      end
  end

with gremlin_str (fuel : nat) (g : nat) {struct fuel} : M string :=
  match fuel with
  | 0 => mthrow RecursionError
  | S f =>
      gr ← load_gremlin g;
      h ← get_st;
      tokens ← chain_walk (token_str f) (S (size (tokens h))) (Some (top gr)) None [];
      gr' ← load_gremlin g;
      let string := py_join "" tokens in
      mret (match return_var gr' with
            | Some r => r +:+ " = " +:+ string
            | None => string
            end)
  end

with token_str (fuel : nat) (t : nat) {struct fuel} : M string :=
  match fuel with
  | 0 => mthrow RecursionError
  | S f =>
      tk ← load_token t;
      match tok_kind tk with
      | GraphVariable | Attribute => str_value f (tok_value tk)
      | Function | FunctionRaw =>
          match py_pop (tok_args tk) with
          | None =>
              sv ← str_value f (tok_value tk);
              mret (sv +:+ "()")
          | Some (rest, bound) =>
              store_token t (set_tok_args tk rest);;
              s ← match bound with
                  | VStatement _ => mthrow (AttributeError "apply_statment")
                  | VGremlin c =>
                      set_parent_gremlin f c (OGremlin (tok_gremlin tk));; str_value f bound
                  | _ => str_value f bound
                  end;
              tk' ← load_token t;
              let params := (tok_args tk' ++ [VStr s])%list in
              store_token t (set_tok_args tk' params);;
              ps ← py_map (str_value f) params;
              sv ← str_value f (tok_value tk');
              mret (sv +:+ "(" +:+ py_join ", " ps +:+ ")")
          end
      | UnboudFunction | UnboudFunctionRaw =>
          match join_values ", " (tok_args tk) with
          | inl e => mthrow e
          | inr j => sv ← str_value f (tok_value tk); mret (sv +:+ "(" +:+ j +:+ ")")
          end
      | Index =>
          match tok_value tk with
          | VSlice start VNone _ =>
              s1 ← str_value f start; mret ("[" +:+ s1 +:+ "]")
          | VSlice start stop _ =>
              s1 ← str_value f start; s2 ← str_value f stop;
              mret ("[" +:+ s1 +:+ ".." +:+ s2 +:+ "]")
          | _ => mthrow (AttributeError "stop")
          end
      | Closure | ClosureArguments =>
          let g := tok_gremlin tk in
          match tok_value tk with
          | VStatement _ =>
              (* self.gremlin.apply_statment(self.value): an Attribute token,
                 then Gremlin.__call__, whose Function raises in fix_value *)
              a ← token_init f Attribute g (VStr "apply_statment") None;
              add_token g a;;
              token_init f Function g (VStr "apply_statment") (Some [tok_value tk]);;
              mthrow (NotModelled "Closure.__unicode__ after apply_statment")
          | VGremlin c => set_parent_gremlin f c (OGremlin g);; mret ()
          | _ => mret ()
          end;;
          tk' ← load_token t;
          if decide (tok_kind tk = Closure) then
            sv ← str_value f (tok_value tk'); mret ("{" +:+ sv +:+ "}")
          else
            match join_values "," (tok_args tk') with
            | inl e => mthrow e
            | inr j => sv ← str_value f (tok_value tk'); mret ("{" +:+ j +:+ " -> " +:+ sv +:+ "}")
            end
      | Raw =>
          match tok_value tk with
          | VStatement _ => mthrow (NotModelled "Raw.__unicode__ on a Statement (statement.py)")
          | VGremlin c => set_parent_gremlin f c (OGremlin (tok_gremlin tk));; str_value f (tok_value tk)
          | v => str_value f v
          end
      end
  end.

(** ** What rendering a chain of plain tokens yields *)

(** [str(v)] of a value whose [__str__] runs no code of the program. *)
Definition plain_str (v : pyval) : option string :=
  if has_custom_str v then None else Some (py_str_plain v).

(** The text of a token by the table of its class (gremlin.py lines
    305-416), when its value and arguments are plain values. *)
Definition token_text (tk : token) : option string :=
  match tok_kind tk with
  | GraphVariable | Attribute | Raw => plain_str (tok_value tk)
  | Function | FunctionRaw =>
      v ← plain_str (tok_value tk);
      ps ← mapM plain_str (tok_args tk);
      Some (v +:+ "(" +:+ py_join ", " ps +:+ ")")
  | UnboudFunction | UnboudFunctionRaw =>
      v ← plain_str (tok_value tk);
      ss ← as_strings (tok_args tk);
      Some (v +:+ "(" +:+ py_join ", " ss +:+ ")")
  | Index =>
      match tok_value tk with
      | VSlice a VNone _ => s ← plain_str a; Some ("[" +:+ s +:+ "]")
      | VSlice a b _ => s1 ← plain_str a; s2 ← plain_str b; Some ("[" +:+ s1 +:+ ".." +:+ s2 +:+ "]")
      | _ => None
      end
  | Closure => s ← plain_str (tok_value tk); Some ("{" +:+ s +:+ "}")
  | ClosureArguments =>
      ss ← as_strings (tok_args tk);
      s ← plain_str (tok_value tk);
      Some ("{" +:+ py_join "," ss +:+ " -> " +:+ s +:+ "}")
  end.

(** A [Function] after it was rendered: its last argument is its text. *)
Definition rendered_token (tk : token) : token :=
  match tok_kind tk with
  | Function | FunctionRaw =>
      match py_pop (tok_args tk) with
      | Some (rest, b) => set_tok_args tk (rest ++ [VStr (default "" (plain_str b))])
      | None => tk
      end
  | _ => tk
  end.

(** The kinds and texts of the tokens [l]. *)
Definition chain_items (toks : gmap nat token) (l : list nat) : option (list (tkind * string)) :=
  mapM (λ t, tk ← toks !! t; s ← token_text tk; Some (tok_kind tk, s)) l.

(** The heap after each token of [l] was rendered. *)
Definition render_heap (h : heap) (l : list nat) : heap :=
  foldl (λ h t, match tokens h !! t with
                | Some tk => heap_set_token h t (rendered_token tk)
                | None => h
                end) h l.

(** The separator before a token of kind [k] (spec, section 4.1): the
    token's concat marker, unless the token is the first one, the
    previous token is a raw token, or the previous token is the graph
    variable and its text is empty. *)
Definition emit_sep (prev : option (tkind * string)) (k : tkind) : string :=
  match prev with
  | None => ""
  | Some (pk, ps) =>
      if decide (pk = Raw) then ""
      else if decide (pk = GraphVariable ∧ ps = "") then ""
      else concat_of k
  end.

Fixpoint spec_join (prev : option (tkind * string)) (items : list (tkind * string)) : string :=
  match items with
  | [] => ""
  | (k, s) :: rest => emit_sep prev k +:+ s +:+ spec_join (Some (k, s)) rest
  end.

Definition ret_prefix (rv : option string) (s : string) : string :=
  match rv with
  | Some r => r +:+ " = " +:+ s
  | None => s
  end.

(** The texts the walk appends for [items] after a token [prev]. *)
Fixpoint walk_out (prev : option (tkind * string)) (items : list (tkind * string)) : list string :=
  match items with
  | [] => []
  | (k, s) :: rest =>
      (match prev with
       | None => []
       | Some (pk, ps) => sep_before [ps] (Some pk) k
       end) ++ [s] ++ walk_out (Some (k, s)) rest
  end.

(** How the walk's accumulator [acc] and previous kind [prev] record
    the previous token [pi] (its kind and text). *)
Definition walk_state (acc : list string) (prev : option tkind) (pi : option (tkind * string)) : Prop :=
  (acc = [] ∧ prev = None ∧ pi = None) ∨
  (∃ pk ps, prev = Some pk ∧ last acc = Some ps ∧ pi = Some (pk, ps)).

(** A builder [g.a.f('x')] after its arguments were bound: the graph
    variable (token 1), an attribute (token 2), a function (token 3). *)
Definition render_sample_gremlin : gremlin :=
  mkGremlin "g" 1 3 None [("GPY_PARAM_abcde_1", VStr "x")] "abcde" 1 None.
Definition render_sample_heap : heap :=
  mkHeap {[0 := render_sample_gremlin]}
    {[1 := mkToken GraphVariable 0 (VStr "g") [] (Some 2);
      2 := mkToken Attribute 0 (VStr "a") [] (Some 3);
      3 := mkToken Function 0 (VStr "f") [VStr "GPY_PARAM_abcde_1"] None]}
    4 (λ _, "fffff") 1.

(** ** Rendering plain tokens *)

Lemma str_value_plain f h v s : plain_str v = Some s → str_value (S f) v h = (inr s, h).
Proof. unfold plain_str. destruct v; simpl; intros Hs; simplify_eq; done. Qed.

Lemma py_map_str_plain f h l ss :
  mapM plain_str l = Some ss → py_map (str_value (S f)) l h = (inr ss, h).
Proof.
  rewrite mapM_Some. intros Hl. induction Hl as [|v s l ss Hv Hl IH]; [done|]. cbn [py_map].
  rewrite (run_bind_ok _ _ _ _ _ (str_value_plain _ _ _ _ Hv)), (run_bind_ok _ _ _ _ _ IH). done.
Qed.

Lemma plain_str_VStr s : plain_str (VStr s) = Some s.
Proof. done. Qed.

Lemma plain_str_not_custom v s : plain_str v = Some s → has_custom_str v = false.
Proof. unfold plain_str. by destruct (has_custom_str v). Qed.

Lemma function_bound_plain f o b :
  has_custom_str b = false →
  match b with
  | VStatement _ => mthrow (AttributeError "apply_statment")
  | VGremlin c => set_parent_gremlin f c o;; str_value f b
  | _ => str_value f b
  end = str_value f b.
Proof. by destruct b. Qed.

Lemma mapM_plain_snoc l b ss :
  mapM plain_str (l ++ [b]) = Some ss →
  ∃ ss1 sb, mapM plain_str l = Some ss1 ∧ plain_str b = Some sb ∧ ss = ss1 ++ [sb].
Proof.
  rewrite mapM_Some. intros H. apply Forall2_app_inv_l in H as (ss1 & ssb & H1 & Hb & ->).
  apply Forall2_cons_inv_l in Hb as (sb & ssn & Hb & Hn & ->). apply Forall2_nil_inv_l in Hn as ->.
  exists ss1, sb. rewrite mapM_Some. done.
Qed.

Lemma mapM_plain_snoc_str l ss1 sb :
  mapM plain_str l = Some ss1 → mapM plain_str (l ++ [VStr sb]) = Some (ss1 ++ [sb]).
Proof.
  rewrite !mapM_Some. intros H. apply Forall2_app; [done|]. by constructor.
Qed.

Lemma token_str_function_plain f h t tk s :
  tokens h !! t = Some tk → tok_kind tk = Function ∨ tok_kind tk = FunctionRaw →
  token_text tk = Some s →
  token_str (S (S f)) t h = (inr s, heap_set_token h t (rendered_token tk)).
Proof.
  intros Ht Hk Hs. unfold token_text, rendered_token in *.
  cbn [token_str]. rewrite (run_bind_ok _ _ _ _ _ (load_token_run _ _ _ Ht)).
  destruct Hk as [Hk|Hk]; rewrite Hk in *;
    (destruct (plain_str (tok_value tk)) as [v|] eqn:Hv; [|done]); simpl in Hs;
    (destruct (mapM plain_str (tok_args tk)) as [ps|] eqn:Hps; [|done]); simpl in Hs;
    injection Hs as <-;
    (destruct (py_pop (tok_args tk)) as [[rest b]|] eqn:Hpop;
     [apply py_pop_Some in Hpop; rewrite Hpop in Hps;
      destruct (mapM_plain_snoc _ _ _ Hps) as (ss1 & sb & Hrest & Hb & ->);
      rewrite (run_bind_ok _ _ _ _ _ (store_token_run _ _ _)),
        function_bound_plain by (by eapply plain_str_not_custom);
      rewrite (run_bind_ok _ _ _ _ _ (str_value_plain _ _ _ _ Hb)),
        (run_bind_ok _ _ _ _ _ (load_token_run _ _ _ (heap_set_token_lookup_eq _ _ _))),
        (run_bind_ok _ _ _ _ _ (store_token_run _ _ _)), heap_set_token_twice;
      cbn [tok_args tok_value set_tok_args];
      rewrite (run_bind_ok _ _ _ _ _ (py_map_str_plain _ _ _ _ (mapM_plain_snoc_str _ _ _ Hrest))),
        (run_bind_ok _ _ _ _ _ (str_value_plain _ _ _ _ Hv)), Hb;
      reflexivity
     |unfold py_pop in Hpop; destruct (last (tok_args tk)) eqn:E; [done|];
      apply last_None in E; rewrite E in Hps; simpl in Hps; injection Hps as <-;
      rewrite (run_bind_ok _ _ _ _ _ (str_value_plain _ _ _ _ Hv)), heap_set_token_id by done;
      reflexivity]).
Qed.

Lemma join_values_as_strings sep l ss : as_strings l = Some ss → join_values sep l = inr (py_join sep ss).
Proof. unfold join_values. by intros ->. Qed.


Lemma token_str_plain f h t tk s :
  tokens h !! t = Some tk → token_text tk = Some s →
  token_str (S (S f)) t h = (inr s, heap_set_token h t (rendered_token tk)).
Proof.
  intros Ht Hs. destruct (tok_kind tk) eqn:Hk;
    try (apply token_str_function_plain; auto; fail);
    (assert (Hr : rendered_token tk = tk) by (unfold rendered_token; by rewrite Hk));
    rewrite Hr, heap_set_token_id by done;
    cbn [token_str]; rewrite (run_bind_ok _ _ _ _ _ (load_token_run _ _ _ Ht)), Hk;
    unfold token_text in Hs; rewrite Hk in Hs.
  - by apply str_value_plain.
  - by apply str_value_plain.
  - destruct (plain_str (tok_value tk)) as [v|] eqn:Hv; [|done].
    destruct (as_strings (tok_args tk)) as [ss|] eqn:Hss; [|done]. simpl in Hs. injection Hs as <-.
    rewrite (join_values_as_strings _ _ _ Hss). cbn beta iota.
    by rewrite (run_bind_ok _ _ _ _ _ (str_value_plain _ _ _ _ Hv)).
  - destruct (plain_str (tok_value tk)) as [v|] eqn:Hv; [|done].
    destruct (as_strings (tok_args tk)) as [ss|] eqn:Hss; [|done]. simpl in Hs. injection Hs as <-.
    rewrite (join_values_as_strings _ _ _ Hss). cbn beta iota.
    by rewrite (run_bind_ok _ _ _ _ _ (str_value_plain _ _ _ _ Hv)).
  - destruct (tok_value tk) as [| | | | | | |a b c| | |]; try done.
    destruct (plain_str a) as [sa|] eqn:Ha; [|by destruct b].
    destruct b; simpl in Hs; try done;
      try (injection Hs as <-; by rewrite (run_bind_ok _ _ _ _ _ (str_value_plain _ _ _ _ Ha)));
      (destruct (plain_str _) as [sb|] eqn:Hb; [|done]); injection Hs as <-;
      rewrite (run_bind_ok _ _ _ _ _ (str_value_plain _ _ _ _ Ha)),
        (run_bind_ok _ _ _ _ _ (str_value_plain _ _ _ _ Hb)); done.
  - destruct (plain_str (tok_value tk)) as [v|] eqn:Hv; [|done]. simpl in Hs. injection Hs as <-.
    destruct (tok_value tk) eqn:E; simpl in Hv; try discriminate;
      rewrite (run_bind_ok _ _ _ _ _ (run_ret _ _)),
        (run_bind_ok _ _ _ _ _ (load_token_run _ _ _ Ht)), decide_True by done; cbv beta;
      rewrite E; by rewrite (run_bind_ok _ _ _ _ _ (str_value_plain _ _ _ _ Hv)).
  - destruct (as_strings (tok_args tk)) as [ss|] eqn:Hss; [|done].
    destruct (plain_str (tok_value tk)) as [v|] eqn:Hv; [|done]. simpl in Hs. injection Hs as <-.
    destruct (tok_value tk) eqn:E; simpl in Hv; try discriminate;
      rewrite (run_bind_ok _ _ _ _ _ (run_ret _ _)),
        (run_bind_ok _ _ _ _ _ (load_token_run _ _ _ Ht)), decide_False by done; cbv beta;
      rewrite (join_values_as_strings _ _ _ Hss); cbn beta iota;
      rewrite E; by rewrite (run_bind_ok _ _ _ _ _ (str_value_plain _ _ _ _ Hv)).
  - destruct (tok_value tk) eqn:E; simpl in Hs; try discriminate; by apply str_value_plain.
Qed.

Lemma rendered_token_kind tk : tok_kind (rendered_token tk) = tok_kind tk.
Proof. unfold rendered_token. destruct (tok_kind tk) eqn:E; try done; by destruct (py_pop (tok_args tk)) as [[]|]. Qed.

Lemma rendered_token_next tk : tok_next (rendered_token tk) = tok_next tk.
Proof. unfold rendered_token. destruct (tok_kind tk) eqn:E; try done; by destruct (py_pop (tok_args tk)) as [[]|]. Qed.

Lemma sep_before_state acc prev pi k :
  walk_state acc prev pi →
  sep_before acc prev k = match pi with None => [] | Some (pk, ps) => sep_before [ps] (Some pk) k end.
Proof.
  intros [(-> & -> & ->)|(pk & ps & -> & Hl & ->)]; [done|].
  destruct acc as [|a acc]; [done|]. unfold sep_before. by rewrite Hl.
Qed.

Lemma chain_items_cons toks t l items :
  chain_items toks (t :: l) = Some items →
  ∃ tk s items', toks !! t = Some tk ∧ token_text tk = Some s ∧
    chain_items toks l = Some items' ∧ items = (tok_kind tk, s) :: items'.
Proof.
  unfold chain_items. rewrite mapM_Some. intros H.
  apply Forall2_cons_inv_l in H as (y & items' & Hy & Hl & ->).
  destruct (toks !! t) as [tk|] eqn:Ht; [|done]. simpl in Hy.
  destruct (token_text tk) as [s|] eqn:Hs; [|done]. simpl in Hy. injection Hy as <-.
  exists tk, s, items'. rewrite mapM_Some. by repeat split.
Qed.

Lemma chain_items_insert_other toks t tk l :
  t ∉ l → chain_items (<[t:=tk]> toks) l = chain_items toks l.
Proof.
  unfold chain_items. induction l as [|t' l IH]; intros Hn; [done|].
  apply not_elem_of_cons in Hn as [Hne Hn]. simpl. rewrite lookup_insert_ne by done. by rewrite IH.
Qed.

Lemma render_heap_cons h t tk l :
  tokens h !! t = Some tk → render_heap h (t :: l) = render_heap (heap_set_token h t (rendered_token tk)) l.
Proof. intros Ht. unfold render_heap. simpl. by rewrite Ht. Qed.

Lemma chain_walk_plain f bound l : ∀ h cur prev acc pi items,
  chain (tokens h) cur l → chain_items (tokens h) l = Some items → length l < bound →
  walk_state acc prev pi →
  chain_walk (token_str (S (S f))) bound cur prev acc h =
    (inr (acc ++ walk_out pi items), render_heap h l).
Proof.
  revert bound. induction l as [|t l IH]; intros bound h cur prev acc pi items Hc Hi Hb Hw.
  - inversion Hc; subst. unfold chain_items in Hi. simpl in Hi. injection Hi as <-.
    destruct bound as [|bound]; [simpl in Hb; lia|]. cbn [walk_out]. rewrite app_nil_r. reflexivity.
  - inversion Hc as [|t' tk l' Ht Hc']; subst.
    destruct (chain_items_cons _ _ _ _ Hi) as (tk' & s & items' & Ht' & Hs & Hi' & ->).
    rewrite Ht in Ht'. injection Ht' as <-. destruct bound as [|bound]; [simpl in Hb; lia|].
    pose proof (chain_NoDup _ _ _ Hc) as Hnd. apply NoDup_cons in Hnd as [Htl _].
    cbn [chain_walk]. rewrite (run_bind_ok _ _ _ _ _ (token_str_plain _ _ _ _ _ Ht Hs)).
    rewrite (run_bind_ok _ _ _ _ _ (load_token_run _ _ _ (heap_set_token_lookup_eq _ _ _))).
    rewrite rendered_token_kind, rendered_token_next, (render_heap_cons _ _ tk) by done.
    rewrite (IH bound _ _ _ _ (Some (tok_kind tk, s)) items').
    + rewrite (sep_before_state _ _ _ _ Hw). simpl. by rewrite <-!app_assoc.
    + by apply chain_insert_other.
    + simpl. by rewrite chain_items_insert_other.
    + simpl in Hb. lia.
    + right. do 2 eexists. split; [done|]. split; [|done]. by rewrite !app_assoc, last_snoc.
Qed.

Lemma walk_out_spec pi items : py_join "" (walk_out pi items) = spec_join pi items.
Proof.
  revert pi. induction items as [|[k s] items IH]; intros pi; [done|]. simpl.
  rewrite py_join_empty_app, py_join_empty_cons, IH. f_equal.
  destruct pi as [[pk ps]|]; [|done]. unfold sep_before, emit_sep, can_use. simpl.
  destruct (decide (concat_of k = "")) as [Hk|Hk]; simpl.
  { rewrite Hk. by repeat case_decide. }
  destruct (decide (pk = Raw)) as [->|Hr]; [rewrite bool_decide_false by (by intros ?); by simpl|].
  rewrite bool_decide_true by done. simpl.
  destruct (decide (pk = GraphVariable)) as [->|Hg]; simpl.
  - destruct ps as [|c ps]; simpl.
    + first [done | by rewrite decide_True].
    + first [done | rewrite decide_False by (intros [_ ?]; discriminate); by rewrite bool_decide_true by lia].
  - rewrite decide_False by naive_solver. done.
Qed.



Lemma render_heap_gremlins h l : gremlins (render_heap h l) = gremlins h.
Proof.
  unfold render_heap. revert h. induction l as [|t l IH]; intros h; [done|]. simpl.
  rewrite IH. by destruct (tokens h !! t).
Qed.

(** Rendering a builder whose chain holds plain tokens, unfolded. *)
Lemma gremlin_str_plain_run f h g gr l items :
  gremlins h !! g = Some gr → gremlin_chain (tokens h) gr l →
  chain_items (tokens h) (top gr :: l) = Some items →
  gremlin_str (S (S (S f))) g h =
    (inr (ret_prefix (return_var gr) (spec_join None items)), render_heap h (top gr :: l)).
Proof.
  intros Hg [Hc _] Hi. cbn [gremlin_str].
  rewrite (run_bind_ok _ _ _ _ _ (load_gremlin_run _ _ _ Hg)), (run_bind_ok _ _ _ _ _ (run_get _)).
  assert (Hb : length (top gr :: l) < S (size (tokens h)))
    by (pose proof (chain_length_size _ _ _ Hc); lia).
  assert (Hw : walk_state [] None None) by (by left).
  rewrite (run_bind_ok _ _ _ _ _ (chain_walk_plain _ _ _ _ _ _ _ None _ Hc Hi Hb Hw)).
  assert (Hg' : gremlins (render_heap h (top gr :: l)) !! g = Some gr)
    by (by rewrite render_heap_gremlins).
  rewrite (run_bind_ok _ _ _ _ _ (load_gremlin_run _ _ _ Hg')).
  simpl. by rewrite walk_out_spec.
Qed.


(** ** Rendering twice *)

Lemma token_text_rendered tk s : token_text tk = Some s → token_text (rendered_token tk) = Some s.
Proof.
  unfold rendered_token. destruct (tok_kind tk) eqn:Hk; try done.
  all: (destruct (py_pop (tok_args tk)) as [[rest b]|] eqn:Hpop; [|done]).
  all: apply py_pop_Some in Hpop; unfold token_text; simpl; rewrite Hk, Hpop.
  all: destruct (plain_str (tok_value tk)) as [v|]; simpl; [|done].
  all: intros Hs; destruct (mapM plain_str (rest ++ [b])) as [ps|] eqn:Hps; [|done].
  all: destruct (mapM_plain_snoc _ _ _ Hps) as (ss1 & sb & Hr & Hb & ->).
  all: rewrite Hb; simpl; by rewrite (mapM_plain_snoc_str _ _ _ Hr).
Qed.
Lemma rendered_token_idem tk s : token_text tk = Some s → rendered_token (rendered_token tk) = rendered_token tk.
Proof.
  intros Hs. unfold rendered_token. destruct (tok_kind tk) eqn:Hk; try (by rewrite Hk).
  all: destruct (py_pop (tok_args tk)) as [[rest b]|] eqn:Hpop; [|by rewrite Hk, Hpop].
  all: simpl; rewrite Hk, py_pop_app; done.
Qed.

Lemma render_heap_fields h l :
  gremlins (render_heap h l) = gremlins h ∧ next_id (render_heap h l) = next_id h ∧
  uuids (render_heap h l) = uuids h ∧ uuid_count (render_heap h l) = uuid_count h.
Proof.
  unfold render_heap. revert h. induction l as [|t l IH]; intros h; [done|]. simpl.
  destruct (tokens h !! t) as [tk|]; [|apply IH].
  destruct (IH (heap_set_token h t (rendered_token tk))) as (-> & -> & -> & ->). done.
Qed.

Lemma render_heap_lookup_notin h l t : t ∉ l → tokens (render_heap h l) !! t = tokens h !! t.
Proof.
  unfold render_heap. revert h. induction l as [|t' l IH]; intros h Hn; [done|].
  apply not_elem_of_cons in Hn as [Hne Hn]. simpl. rewrite IH by done.
  destruct (tokens h !! t'); [by rewrite heap_set_token_lookup_ne|done].
Qed.

Lemma render_heap_lookup_in h l t :
  NoDup l → t ∈ l → tokens (render_heap h l) !! t = rendered_token <$> tokens h !! t.
Proof.
  unfold render_heap. revert h. induction l as [|t' l IH]; intros h Hnd Hin;
    [by apply elem_of_nil in Hin|].
  apply NoDup_cons in Hnd as [Hn Hnd]. simpl.
  apply elem_of_cons in Hin as [->|Hin].
  - fold (render_heap (match tokens h !! t' with
                       | Some tk => heap_set_token h t' (rendered_token tk)
                       | None => h end) l).
    rewrite render_heap_lookup_notin by done.
    destruct (tokens h !! t') eqn:E; [by rewrite heap_set_token_lookup_eq|by rewrite E].
  - rewrite IH by done. assert (t ≠ t') by (intros ->; contradiction).
    destruct (tokens h !! t'); [by rewrite heap_set_token_lookup_ne|done].
Qed.

Lemma chain_items_elem toks l items t :
  chain_items toks l = Some items → t ∈ l → ∃ tk s, toks !! t = Some tk ∧ token_text tk = Some s.
Proof.
  unfold chain_items. rewrite mapM_Some. intros H Hin.
  apply list_elem_of_lookup in Hin as [i Hi].
  destruct (Forall2_lookup_l _ _ _ _ _ H Hi) as (y & _ & Hy).
  destruct (toks !! t) as [tk|] eqn:Ht; [|done]. simpl in Hy.
  destruct (token_text tk) as [s|] eqn:Hs; [|done]. eauto.
Qed.

Lemma render_heap_lookup h l0 t :
  NoDup l0 → tokens (render_heap h l0) !! t =
    if decide (t ∈ l0) then rendered_token <$> tokens h !! t else tokens h !! t.
Proof.
  intros Hnd. case_decide; [by apply render_heap_lookup_in|by apply render_heap_lookup_notin].
Qed.

Lemma render_heap_chain h l0 p l :
  NoDup l0 → chain (tokens h) p l → chain (tokens (render_heap h l0)) p l.
Proof.
  intros Hnd. induction 1 as [|t tk l Ht Hc IH]; [constructor|].
  rewrite <-(rendered_token_next tk) in IH.
  destruct (decide (t ∈ l0)).
  - econstructor; [|exact IH]. rewrite render_heap_lookup, decide_True, Ht by done. done.
  - econstructor; [|rewrite (rendered_token_next tk) in IH; exact IH].
    rewrite render_heap_lookup, decide_False by done. done.
Qed.

Lemma render_heap_items h l0 l items :
  NoDup l0 → chain_items (tokens h) l = Some items →
  chain_items (tokens (render_heap h l0)) l = Some items.
Proof.
  unfold chain_items. rewrite !mapM_Some. intros Hnd H.
  eapply Forall2_impl; [done|]. intros t [k s] Hy.
  rewrite render_heap_lookup by done. case_decide; [|done].
  destruct (tokens h !! t) as [tk|]; [|done]. simpl in *.
  destruct (token_text tk) as [s'|] eqn:Hs; [|done]. simpl in Hy. injection Hy as <- <-.
  by rewrite (token_text_rendered _ _ Hs), rendered_token_kind.
Qed.

Lemma render_heap_twice h l items :
  NoDup l → chain_items (tokens h) l = Some items → render_heap (render_heap h l) l = render_heap h l.
Proof.
  intros Hnd Hi. destruct (render_heap_fields h l) as (G1 & N1 & U1 & C1).
  destruct (render_heap_fields (render_heap h l) l) as (G2 & N2 & U2 & C2).
  apply heap_eq; try congruence.
  apply map_eq. intros t. rewrite !render_heap_lookup by done. case_decide; [|done].
  destruct (chain_items_elem _ _ _ t Hi) as (tk & s & Ht & Hs); [done|].
  rewrite Ht. simpl. by rewrite (rendered_token_idem _ _ Hs).
Qed.

(** ** Rendering that raises *)

(** The walk raises the error of the first token whose text raises,
    after the plain tokens [l] before it. *)
Lemma chain_walk_raise f bound l : ∀ h cur prev acc t rest items e,
  chain (tokens h) cur (l ++ t :: rest) → chain_items (tokens h) l = Some items → length l < bound →
  (token_str (S (S f)) t (render_heap h l)).1 = inl e →
  (chain_walk (token_str (S (S f))) bound cur prev acc h).1 = inl e.
Proof.
  revert bound. induction l as [|t0 l IH]; intros bound h cur prev acc t rest items e Hc Hi Hb He.
  - inversion Hc; subst. destruct bound as [|bound]; [simpl in Hb; lia|].
    cbn [chain_walk]. by apply run_bind_err_fst.
  - inversion Hc as [|t' tk l' Ht Hc']; subst.
    destruct (chain_items_cons _ _ _ _ Hi) as (tk' & s & items' & Ht' & Hs & Hi' & ->).
    rewrite Ht in Ht'. injection Ht' as <-. destruct bound as [|bound]; [simpl in Hb; lia|].
    pose proof (chain_NoDup _ _ _ Hc) as Hnd. apply NoDup_cons in Hnd as [Htl _].
    cbn [chain_walk]. rewrite (run_bind_ok _ _ _ _ _ (token_str_plain _ _ _ _ _ Ht Hs)).
    rewrite (run_bind_ok _ _ _ _ _ (load_token_run _ _ _ (heap_set_token_lookup_eq _ _ _))).
    rewrite rendered_token_next.
    rewrite (render_heap_cons _ _ tk) in He by done.
    apply (IH bound _ _ _ _ t rest items' e); [|simpl; rewrite chain_items_insert_other; [done|set_solver]|simpl in Hb; lia|done].
    simpl. apply chain_insert_other; [done|done].
Qed.

(** [str(g)] raises the error of the first token whose text raises. *)
Lemma gremlin_str_raise f h g gr l t rest e :
  gremlins h !! g = Some gr → chain (tokens h) (Some (top gr)) (top gr :: l ++ t :: rest) →
  is_Some (chain_items (tokens h) (top gr :: l)) →
  (token_str (S (S f)) t (render_heap h (top gr :: l))).1 = inl e →
  (gremlin_str (S (S (S f))) g h).1 = inl e.
Proof.
  intros Hg Hc [items Hi] He. cbn [gremlin_str].
  rewrite (run_bind_ok _ _ _ _ _ (load_gremlin_run _ _ _ Hg)), (run_bind_ok _ _ _ _ _ (run_get _)).
  apply run_bind_err_fst. rewrite app_comm_cons in Hc.
  apply (chain_walk_raise _ _ (top gr :: l) _ _ _ _ t rest items); [done|done| |done].
  pose proof (chain_length_size _ _ _ Hc). rewrite length_app in *. simpl in *. lia.
Qed.

(** The walk over plain tokens [l] and a last token [t] whose text is
    [s] (computed by any code, in any heap [h2] that keeps [t] last). *)
Lemma chain_walk_last f bound l : ∀ h cur prev acc pi items t s h2 tk2,
  chain (tokens h) cur (l ++ [t]) → chain_items (tokens h) l = Some items → length l ≤ bound →
  walk_state acc prev pi →
  token_str (S (S f)) t (render_heap h l) = (inr s, h2) → tokens h2 !! t = Some tk2 → tok_next tk2 = None →
  chain_walk (token_str (S (S f))) (S bound) cur prev acc h =
    (inr (acc ++ walk_out pi (items ++ [(tok_kind tk2, s)])), h2).
Proof.
  revert bound. induction l as [|t0 l IH]; intros bound h cur prev acc pi items t s h2 tk2 Hc Hi Hb Hw Ht Ht2 Hn.
  - inversion Hc as [|? tk ? Htk Hc']; subst. unfold chain_items in Hi. simpl in Hi. injection Hi as <-.
    cbn [chain_walk]. rewrite (run_bind_ok _ _ _ _ _ Ht), (run_bind_ok _ _ _ _ _ (load_token_run _ _ _ Ht2)), Hn.
    cbn [chain_walk walk_out app].
    rewrite (sep_before_state _ _ _ _ Hw). by destruct bound.
  - inversion Hc as [|t' tk l' Ht0 Hc']; subst.
    destruct (chain_items_cons _ _ _ _ Hi) as (tk' & s0 & items' & Ht' & Hs & Hi' & ->).
    rewrite Ht0 in Ht'. injection Ht' as <-.
    pose proof (chain_NoDup _ _ _ Hc) as Hnd. apply NoDup_cons in Hnd as [Htl _].
    cbn [chain_walk]. rewrite (run_bind_ok _ _ _ _ _ (token_str_plain _ _ _ _ _ Ht0 Hs)).
    rewrite (run_bind_ok _ _ _ _ _ (load_token_run _ _ _ (heap_set_token_lookup_eq _ _ _))).
    rewrite rendered_token_kind, rendered_token_next.
    rewrite (render_heap_cons _ _ tk) in Ht by done.
    destruct bound as [|bound]; [simpl in Hb; lia|].
    rewrite (IH bound _ _ _ _ (Some (tok_kind tk, s0)) items' t s h2 tk2); [|simpl; apply chain_insert_other; [done|done]
      |simpl; rewrite chain_items_insert_other; [done|set_solver]|simpl in Hb; lia| |done|done|done].
    + rewrite (sep_before_state _ _ _ _ Hw). cbn [app walk_out]. by rewrite <-!app_assoc.
    + right. do 2 eexists. split; [done|]. split; [|done]. by rewrite !app_assoc, last_snoc.
Qed.

(** [str(g)] when every token but the last is plain and the last one
    renders as [s], leaving a heap [h2] where [g] keeps its return
    variable. *)
Lemma gremlin_str_last f h g gr l t items s h2 tk2 gr2 :
  gremlins h !! g = Some gr → gremlin_chain (tokens h) gr (l ++ [t]) →
  chain_items (tokens h) (top gr :: l) = Some items →
  token_str (S (S f)) t (render_heap h (top gr :: l)) = (inr s, h2) →
  tokens h2 !! t = Some tk2 → tok_next tk2 = None →
  gremlins h2 !! g = Some gr2 → return_var gr2 = return_var gr →
  gremlin_str (S (S (S f))) g h =
    (inr (ret_prefix (return_var gr) (spec_join None (items ++ [(tok_kind tk2, s)]))), h2).
Proof.
  intros Hg [Hc _] Hi Ht Ht2 Hn Hg2 Hr. cbn [gremlin_str].
  rewrite (run_bind_ok _ _ _ _ _ (load_gremlin_run _ _ _ Hg)), (run_bind_ok _ _ _ _ _ (run_get _)).
  pose proof (chain_length_size _ _ _ Hc) as Hsz. rewrite app_comm_cons, length_app in Hsz. simpl in Hsz.
  rewrite app_comm_cons in Hc.
  rewrite (run_bind_ok _ _ _ _ _ (chain_walk_last f (size (tokens h)) (top gr :: l) h _ None [] None items t s h2 tk2 Hc Hi
             ltac:(simpl; lia) ltac:(by left) Ht Ht2 Hn)).
  rewrite (run_bind_ok _ _ _ _ _ (load_gremlin_run _ _ _ Hg2)). cbn [app].
  rewrite walk_out_spec, Hr. by destruct (return_var gr).
Qed.

(** An unbound function whose arguments are not all strings raises
    [TypeError] ([', '.join(self.args)]). *)
Lemma token_str_unbound_raise f h t tk :
  tokens h !! t = Some tk → tok_kind tk = UnboudFunction ∨ tok_kind tk = UnboudFunctionRaw →
  as_strings (tok_args tk) = None →
  (token_str (S f) t h).1 = inl (TypeError "sequence item: expected string").
Proof.
  intros Ht Hk Ha. cbn [token_str]. rewrite (run_bind_ok _ _ _ _ _ (load_token_run _ _ _ Ht)).
  unfold join_values. rewrite Ha. by destruct Hk as [-> | ->].
Qed.

(** C1: rendering refines the specification of section 4.1: for a
    builder whose chain (graph variable first) holds tokens of plain
    values, [str(g)] is ["<return_var> = "] (when set) followed by each
    token's text, every token but the first preceded by its concat marker
    unless the previous token is raw or is the graph variable rendered
    empty. *)
Theorem gremlin_str_spec f h g gr l items :
  gremlins h !! g = Some gr → gremlin_chain (tokens h) gr l →
  chain_items (tokens h) (top gr :: l) = Some items →
  (gremlin_str (S (S (S f))) g h).1 = inr (ret_prefix (return_var gr) (spec_join None items)).
Proof. intros Hg Hc Hi. by rewrite (gremlin_str_plain_run _ _ _ _ _ _ Hg Hc Hi). Qed.

(** C14: rendering is repeatable: rendering again from the heap the first
    rendering left returns the same text and leaves the same heap (the
    first rendering only turns each function's last argument into its
    text). *)
Theorem gremlin_str_idempotent f h g gr l items :
  gremlins h !! g = Some gr → gremlin_chain (tokens h) gr l →
  chain_items (tokens h) (top gr :: l) = Some items →
  let r := gremlin_str (S (S (S f))) g h in
  gremlin_str (S (S (S f))) g r.2 = r.
Proof.
  intros Hg Hc Hi. cbv zeta. rewrite (gremlin_str_plain_run _ _ _ _ _ _ Hg Hc Hi). cbn [fst snd].
  pose proof (chain_NoDup _ _ _ (proj1 Hc)) as Hnd.
  rewrite (gremlin_str_plain_run _ _ g gr l items).
  - by rewrite (render_heap_twice _ _ items).
  - destruct (render_heap_fields h (top gr :: l)) as (-> & _). done.
  - split; [by apply render_heap_chain; [|apply Hc]|apply Hc].
  - by apply render_heap_items.
Qed.

Lemma gremlin_str_spec_witness :
  (gremlin_str 3 0 render_sample_heap).1 =
    inr (ret_prefix None (spec_join None [(GraphVariable, "g"); (Attribute, "a");
                                          (Function, "f(GPY_PARAM_abcde_1)")])).
Proof.
  apply (gremlin_str_spec 0 render_sample_heap 0 render_sample_gremlin [2; 3]).
  - reflexivity.
  - split; [apply chain_check_sound; vm_compute; reflexivity|reflexivity].
  - vm_compute. reflexivity.
Defined.

Lemma gremlin_str_idempotent_witness :
  let r := gremlin_str 3 0 render_sample_heap in gremlin_str 3 0 r.2 = r.
Proof.
  apply (gremlin_str_idempotent 0 render_sample_heap 0 render_sample_gremlin [2; 3]
           [(GraphVariable, "g"); (Attribute, "a"); (Function, "f(GPY_PARAM_abcde_1)")]).
  - reflexivity.
  - split; [apply chain_check_sound; vm_compute; reflexivity|reflexivity].
  - vm_compute. reflexivity.
Defined.
