(* ===== verification/Predicates.v ===== *)
(** * Predicates: [_p], [Predicate] and the named predicate classes

    gremlin.py lines 419-494.  A predicate is an object with arguments
    and a [_function] name, rendered as [_function(arg, ...)].
    [Predicate.__init__] normalises its arguments with [fix_value] run by
    the predicate itself ([Chain.FixPredicate]): a predicate has no
    [gremlin], and [Predicate.__getattr__] answers every missing attribute
    with the predicate, so [self.gremlin] is the predicate and binding
    through it is a call of [Predicate.__call__], which only prints.
    [_p(name, *args)] sets [_function] after construction; the classes
    [eq] ... [without] ([_NamedPredicate]) have their class name as
    [_function].  A predicate value is [VPred cls fn args]; rendering is
    [Render.pred_str]. *)

From S2P Require Import Prelude PyDict PyValue State Binder Chain Render.
#[local] Open Scope string_scope.

(** The subclasses of [_NamedPredicate] (lines 453-494). *)
Inductive named_pred :=
  | eq | neq | lt | lte | gt | gte | inside | outside | between | within | without.

#[export] Instance named_pred_eq_dec : EqDecision named_pred.
Proof. solve_decision. Defined.

(** [_NamedPredicate._function]: the class name. *)
Definition named_pred_name (c : named_pred) : string :=
  match c with
  | eq => "eq" | neq => "neq" | lt => "lt" | lte => "lte" | gt => "gt" | gte => "gte"
  | inside => "inside" | outside => "outside" | between => "between"
  | within => "within" | without => "without"
  end.

(** [Predicate.__init__(self, *args)] for an object of class [cls] whose
    [_function] is [fn]: [self.args = self.fix_value(list(args))]. *)
Definition predicate_init (fuel : nat) (cls : string) (fn : option string) (args : list pyval) : M pyval :=
  a ← fix_args fuel FixPredicate args false;
  mret (VPred cls fn a).

(** [_p(name, *args)] *)
Definition _p (fuel : nat) (name : string) (args : list pyval) : M pyval :=
  predicate_init fuel "Predicate" (Some name) args.

(** [Predicate( *args)]: the base class has no [_function]. *)
Definition predicate (fuel : nat) (args : list pyval) : M pyval :=
  predicate_init fuel "Predicate" None args.

(** [eq( *args)], ..., [without( *args)] *)
Definition named_predicate (fuel : nat) (c : named_pred) (args : list pyval) : M pyval :=
  predicate_init fuel (named_pred_name c) (Some (named_pred_name c)) args.

(** [str(p)] of the predicate built by [m]. *)
Definition str_of (fuel : nat) (m : M pyval) : M string :=
  v ← m; str_value fuel v.

(** ** Construction *)

(** Scalar arguments are kept as they are: a predicate binds nothing. *)
Lemma fix_args_predicate_scalars fuel args h :
  forallb inert args = true → fix_args fuel FixPredicate args false h = (inr args, h).
Proof.
  unfold fix_args. induction args as [|a args IH]; intros Ha; [done|].
  apply andb_prop in Ha as [Ha Has]. cbn [py_map].
  by rewrite (run_bind_ok _ _ _ _ _ (fix_value_inert _ _ _ Ha _)), (run_bind_ok _ _ _ _ _ (IH Has)).
Qed.

Lemma predicate_init_scalars fuel cls fn args h :
  forallb inert args = true → predicate_init fuel cls fn args h = (inr (VPred cls fn args), h).
Proof. intros Ha. unfold predicate_init. by rewrite (run_bind_ok _ _ _ _ _ (fix_args_predicate_scalars _ _ _ Ha)). Qed.

Lemma forallb_inert_VStr ss : forallb inert (map VStr ss) = true.
Proof. induction ss as [|s ss IH]; [done|]. by cbn; rewrite IH. Qed.

Lemma named_pred_name_nonempty c : named_pred_name c ≠ "".
Proof. by destruct c. Qed.

(** [str(p)] of a predicate built from scalar arguments. *)
Lemma str_of_scalars fuel cls fn args h :
  forallb inert args = true →
  str_of (S fuel) (predicate_init fuel cls fn args) h = pred_str fuel cls fn args h.
Proof. intros Ha. unfold str_of. by rewrite (run_bind_ok _ _ _ _ _ (predicate_init_scalars _ _ _ _ _ Ha)). Qed.

(** [Gremlin(P)] for a predicate [P] recurses until the recursion
    limit, whatever the limit. *)
Lemma gremlin_pred_gv_diverges fuel : ∀ h, (gremlin_pred_gv fuel h).1 = inl RecursionError.
Proof.
  induction fuel as [|f IH]; intros h; [done|]. cbn [gremlin_pred_gv].
  rewrite (run_bind_ok _ _ _ _ _ (eq_refl : alloc_id h = (inr _, _))).
  rewrite (run_bind_ok _ _ _ _ _ (eq_refl : alloc_id _ = (inr _, _))).
  apply run_bind_err_fst, IH.
Qed.

(** ** Rendering *)

(** A predicate without [_function] whose arguments join formats itself
    until the recursion limit, whatever the limit. *)
Lemma pred_str_self_diverges fuel args j :
  join_values ", " args = inr j → ∀ h, (pred_str_self fuel args h).1 = inl RecursionError.
Proof.
  intros Hj. induction fuel as [|f IH]; intros h; cbn [pred_str_self]; rewrite Hj; [done|].
  apply run_bind_err_fst, IH.
Qed.

(** C20: a named predicate [eq('a', 'b')] (any of the eleven classes)
    over string arguments renders as its class name applied to the
    arguments joined by [', '], and rendering changes nothing. *)
Theorem named_predicate_str fuel c ss h :
  str_of (S fuel) (named_predicate fuel c (map VStr ss)) h =
    (inr (named_pred_name c +:+ "(" +:+ py_join ", " ss +:+ ")"), h).
Proof.
  unfold named_predicate. rewrite str_of_scalars by apply forallb_inert_VStr.
  unfold pred_str. rewrite decide_False by apply named_pred_name_nonempty.
  unfold join_values. by rewrite as_strings_map.
Qed.

(** C21: [_p('', ...)] fails to render with [PredicateError]. *)
Theorem p_empty_function_raises fuel ss h :
  (str_of (S fuel) (_p fuel "" (map VStr ss)) h).1 =
    inl (PredicateError "Predicate predicate does not have a _function defined").
Proof. unfold _p. by rewrite str_of_scalars by apply forallb_inert_VStr. Qed.

(** C22: the base class [Predicate( *args)] has no [_function]; the
    attribute lookup answers with the predicate itself, which is truthy,
    and formatting it calls [str] on the predicate again: rendering
    never raises the [PredicateError] the code means to raise, it
    recurses until the recursion limit. *)
Theorem predicate_without_function_diverges fuel ss h :
  (str_of (S fuel) (predicate fuel (map VStr ss)) h).1 = inl RecursionError.
Proof.
  unfold predicate. rewrite str_of_scalars by apply forallb_inert_VStr.
  apply (pred_str_self_diverges _ _ (py_join ", " ss)). unfold join_values. by rewrite as_strings_map.
Qed.

(** C23: a predicate whose arguments are not all strings cannot be
    rendered: [', '.join(self.args)] raises [TypeError] (as for
    [eq(30)]). *)
Theorem predicate_non_string_arg fuel c args h :
  forallb inert args = true → as_strings args = None →
  (str_of (S fuel) (named_predicate fuel c args) h).1 = inl (TypeError "sequence item: expected string").
Proof.
  intros Ha Hs. unfold named_predicate. rewrite str_of_scalars by done.
  unfold pred_str. rewrite decide_False by apply named_pred_name_nonempty.
  unfold join_values. by rewrite Hs.
Qed.

Lemma predicate_non_string_arg_witness :
  (str_of 2 (named_predicate 1 eq [VInt 30]) (heap_empty (λ _, "fffff"))).1 =
    inl (TypeError "sequence item: expected string").
Proof. apply predicate_non_string_arg; reflexivity. Defined.

(** C24: a predicate passed to a predicate makes construction recurse
    until the recursion limit: [fix_value] gives the inner predicate
    [Gremlin(self.gremlin.gv)], where [self.gremlin.gv] is the outer
    predicate, and the builder's graph variable token then asks for
    [Gremlin(<predicate>)] again. *)
Theorem nested_predicate_diverges fuel cls fn pre cls' fn' args' rest h :
  forallb inert pre = true →
  (predicate_init fuel cls fn (pre ++ VPred cls' fn' args' :: rest) h).1 = inl RecursionError.
Proof.
  intros Hpre. unfold predicate_init, fix_args.
  apply run_bind_err_fst. induction pre as [|a pre IH].
  { cbn [app py_map]. apply run_bind_err_fst. cbn [fix_value]. apply run_bind_err_fst, gremlin_pred_gv_diverges. }
  apply andb_prop in Hpre as [Ha Hpre]. cbn [app py_map].
  rewrite (run_bind_ok _ _ _ _ _ (fix_value_inert _ _ _ Ha _)). apply run_bind_err_fst. by apply IH.
Qed.

Lemma nested_predicate_diverges_witness :
  (predicate_init 100 "eq" (Some "eq") ([VStr "a"] ++ VPred "lt" (Some "lt") [VStr "b"] :: [])
     (heap_empty (λ _, "fffff"))).1 = inl RecursionError.
Proof. apply nested_predicate_diverges. reflexivity. Defined.
