(* ===== verification/Builder.v ===== *)
(** * Builder: the fluent surface of [Gremlin]

    The methods a caller uses (gremlin.py lines 112-237), each one a
    computation of the monad on the builder [g]:
    - [gremlin_getattr]: [__getattr__]: an [Attribute] token named like
      the attribute (Python calls it for any name that is not an
      attribute of the builder);
    - [gremlin_call]: [__call__]: a [Function] token named [str(bottom)]
      with the call's arguments replaces the last token;
    - [gremlin_getitem]: [__getitem__]: an [Index] token over a slice;
    - [func], [func_raw], [unbound], [func_raw_unbound], [range],
      [close], [raw], [set_ret_variable].
    Each takes the [fuel] of the recursion limit, passed to the token
    constructor (which binds and nests) and to [str(bottom)].  The one
    theorem of the file shows that a [Statement] value makes every
    token-building method raise (the [apply_statment] typo). *)

From S2P Require Import Prelude PyDict PyValue State Binder Chain Render.
#[local] Open Scope string_scope.

(** The names a [Gremlin] object resolves without [__getattr__]: the
    methods and class attributes of [LinkList] and [Gremlin] (lines
    11-250) and the instance attributes [__init__] and [reset] set.
    Python calls [__getattr__] only for the other names; a name with a
    leading [__] may be an attribute of [object] and is left out. *)
Definition gremlin_members : list string :=
  ["add"; "remove"; "can_use"; "PARAM_PREFIX"; "reset"; "set_parent_gremlin";
   "bind_params"; "bind_param"; "range"; "unbound"; "func"; "func_raw";
   "func_raw_unbound"; "close"; "raw"; "add_token"; "remove_token";
   "set_ret_variable"; "set_graph_variable"; "apply_statement";
   "gv"; "top"; "bottom"; "parent"; "bound_params"; "bound_param";
   "bound_count"; "return_var"].

(** [g.attr] reaches [Gremlin.__getattr__]. *)
Definition reaches_getattr (attr : string) : bool :=
  negb (bool_decide (attr ∈ gremlin_members)) && negb (String.prefix "__" attr).

(** [Gremlin.__getattr__(attr)] *)
Definition gremlin_getattr (fuel : nat) (g : nat) (attr : string) : M unit :=
  t ← token_init fuel Attribute g (VStr attr) None;
  add_token g t.

(** [Gremlin.__call__( *args)] *)
Definition gremlin_call (fuel : nat) (g : nat) (args : list pyval) : M unit :=
  gr ← load_gremlin g;
  name ← token_str fuel (bottom gr);
  func ← token_init fuel Function g (VStr name) (Some args);
  gr1 ← load_gremlin g;
  update_token (bottom gr1) (λ tk, set_tok_next tk (Some func));;
  remove_token g (bottom gr1);;
  add_token g func.

(** The slice [__getitem__] builds from its key: a slice as it is, a list
    or tuple as [(start, stop, step)], anything else as [(key,)]; a
    missing item is [None]. *)
Definition getitem_slice (val : pyval) : pyval :=
  match val with
  | VSlice _ _ _ => val
  | _ =>
      let l := match val with VList l | VTuple l => l | _ => [val] end in
      VSlice (default VNone (l !! 0)) (default VNone (l !! 1)) (default VNone (l !! 2))
  end.

(** [Gremlin.__getitem__(val)] *)
Definition gremlin_getitem (fuel : nat) (g : nat) (val : pyval) : M unit :=
  t ← token_init fuel Index g (getitem_slice val) None;
  add_token g t.

(** [Gremlin.unbound(function, *args)] *)
Definition unbound (fuel : nat) (g : nat) (function : pyval) (args : list pyval) : M unit :=
  t ← token_init fuel UnboudFunction g function (Some args);
  add_token g t.

(** [Gremlin.func(function, *args)] *)
Definition func (fuel : nat) (g : nat) (function : pyval) (args : list pyval) : M unit :=
  t ← token_init fuel Function g function (Some args);
  add_token g t.

(** [Gremlin.func_raw(function, *args)] *)
Definition func_raw (fuel : nat) (g : nat) (function : pyval) (args : list pyval) : M unit :=
  t ← token_init fuel FunctionRaw g function (Some args);
  add_token g t.

(** [Gremlin.func_raw_unbound(function, *args)] *)
Definition func_raw_unbound (fuel : nat) (g : nat) (function : pyval) (args : list pyval) : M unit :=
  t ← token_init fuel UnboudFunctionRaw g function (Some args);
  add_token g t.

(** [Gremlin.range(start, end)] *)
Definition range (fuel : nat) (g : nat) (start end_ : pyval) : M unit :=
  func_raw_unbound fuel g (VStr "range") [start; end_].

(** [Gremlin.close(value, *args)] *)
Definition close (fuel : nat) (g : nat) (value : pyval) (args : list pyval) : M unit :=
  t ← (if decide (args = []) then token_init fuel Closure g value None
       else token_init fuel ClosureArguments g value (Some args));
  add_token g t.

(** [Gremlin.raw(value)] *)
Definition raw (fuel : nat) (g : nat) (value : pyval) : M unit :=
  t ← token_init fuel Raw g value None;
  add_token g t.

(** [Gremlin.set_ret_variable(return_var=None)] *)
Definition set_ret_variable (g : nat) (return_var : option string) : M unit :=
  update_gremlin g (λ gr, set_return_var gr return_var).

(** ** Statements *)

(** C28: a [Statement] given to a builder method raises
    [AttributeError]: [Token.__init__] passes the value to [fix_value],
    which calls [self.apply_statment] (misspelled; tokens define
    [apply_statement]).  So [close(statement)], [raw(statement)] and
    the function tokens over a statement never build a token, and the
    [Statement] branches of [Closure.__unicode__] and
    [ClosureArguments.__unicode__] cannot run. *)
Theorem statement_value_raises fuel g st args h :
  let err := inl (AttributeError "apply_statment") in
  (close fuel g (VStatement st) args h).1 = err ∧ (raw fuel g (VStatement st) h).1 = err ∧
  (func fuel g (VStatement st) args h).1 = err ∧ (func_raw fuel g (VStatement st) args h).1 = err ∧
  (unbound fuel g (VStatement st) args h).1 = err ∧
  (func_raw_unbound fuel g (VStatement st) args h).1 = err.
Proof.
  split_and!; unfold close; try case_decide; reflexivity.
Qed.
