(* ===== verification/Shape.v ===== *)
(** * Shape: what the builder's operations do to its chain

    The binder ([Binder]) and the value normaliser ([Chain.fix_value])
    change only the binding state of builders ([bound_params],
    [bound_count], [parent]); the chain operations ([add_token],
    [remove_token], [Gremlin.__call__], [__getattr__]) change only the
    chain.  This file proves that frame ([same_shape]), gives the chain
    an executable abstract view ([builder_view]: the kinds and texts of
    its tokens, in order) and shows that each chain operation refines
    the matching operation on that list. *)

From S2P Require Import Prelude PyDict PyValue State Binder Chain Render Builder.

(** ** The frame of the binder *)

(** The fields of a builder that binding never writes. *)
Definition shape (gr : gremlin) : string * nat * nat * option string :=
  (gv gr, top gr, bottom gr, return_var gr).

(** Two heaps that differ at most in the binding state of builders. *)
Definition same_shape (h h' : heap) : Prop :=
  tokens h' = tokens h ∧ next_id h' = next_id h ∧ uuids h' = uuids h ∧
  uuid_count h' = uuid_count h ∧ shape <$> gremlins h' = shape <$> gremlins h.

(** Values whose normalisation builds nothing: no predicate inside
    (a predicate gets a fresh [Gremlin] in [fix_value]). *)
Fixpoint no_pred (v : pyval) : bool :=
  match v with
  | VPred _ _ _ => false
  | VList l | VTuple l => forallb no_pred l
  | VSlice a b c => no_pred a && no_pred b && no_pred c
  | _ => true
  end.

(** Every object of the heap has an identity below the allocator's. *)
Definition fresh_ids (h : heap) : Prop :=
  map_Forall (λ i _, i < next_id h) (gremlins h) ∧ map_Forall (λ i _, i < next_id h) (tokens h).

#[export] Instance fresh_ids_dec h : Decision (fresh_ids h).
Proof. unfold fresh_ids. apply _. Defined.

(** ** The abstract view of a builder *)

(** The identities of the chain from [cur], following at most [bound]
    links. *)
Fixpoint chain_from (toks : gmap nat token) (bound : nat) (cur : option nat) : option (list nat) :=
  match cur with
  | None => Some []
  | Some t =>
      match bound with
      | 0 => None
      | S b => tk ← toks !! t; l ← chain_from toks b (tok_next tk); Some (t :: l)
      end
  end.

(** A builder as its [return_var] and the kinds and texts of its tokens,
    from its graph variable to its [bottom]; [None] when the chain is
    broken or cyclic, does not end at [bottom], or holds a token whose
    text runs code. *)
Definition builder_view (h : heap) (g : nat) : option (option string * list (tkind * string)) :=
  gr ← gremlins h !! g;
  l ← chain_from (tokens h) (S (size (tokens h))) (Some (top gr));
  if decide (last l = Some (bottom gr)) then
    items ← chain_items (tokens h) l; Some (return_var gr, items)
  else None.

(** The text the view promises (spec, section 4.1). *)
Definition view_text (v : option string * list (tkind * string)) : string :=
  ret_prefix v.1 (spec_join None v.2).

(** The item of an attribute [a]. *)
Definition attr_item (a : string) : tkind * string := (Attribute, a).

(** The heap after [alloc_id]. *)
Definition bump (h : heap) : heap :=
  mkHeap (gremlins h) (tokens h) (S (next_id h)) (uuids h) (uuid_count h).

#[export] Instance same_shape_equiv : Equivalence same_shape.
Proof.
  split.
  - intros h. by repeat split.
  - intros h h' (?&?&?&?&?). repeat split; congruence.
  - intros h1 h2 h3 (?&?&?&?&?) (?&?&?&?&?). repeat split; congruence.
Qed.

#[export] Instance same_shape_preorder : PreOrder same_shape.
Proof. split; apply _. Qed.

Lemma same_shape_set_gremlin h g gr gr' :
  gremlins h !! g = Some gr → shape gr' = shape gr → same_shape h (heap_set_gremlin h g gr').
Proof.
  intros Hg Hs. repeat split; simpl; try done.
  rewrite fmap_insert, Hs. apply insert_id. by rewrite lookup_fmap, Hg.
Qed.

Lemma keeps_load_gremlin g : keeps same_shape (load_gremlin g).
Proof. intros h. unfold load_gremlin. by destruct (gremlins h !! g). Qed.

Lemma keeps_load_token t : keeps same_shape (load_token t).
Proof. intros h. unfold load_token. by destruct (tokens h !! t). Qed.

Lemma keeps_update_gremlin g f :
  (∀ gr, shape (f gr) = shape gr) → keeps same_shape (update_gremlin g f).
Proof.
  intros Hf h. unfold update_gremlin, load_gremlin, mbind, PyM_bind.
  destruct (gremlins h !! g) as [gr|] eqn:Hg; [|done]. simpl. by apply (same_shape_set_gremlin _ _ gr).
Qed.

#[export] Hint Resolve keeps_load_gremlin keeps_load_token : gremlin.

(** The tactic that splits a [keeps] goal along the binds of the code. *)
Ltac keeps_step :=
  repeat first [ apply (keeps_bind same_shape); [solve [eauto with gremlin typeclass_instances] | intros ?]
               | solve [eauto with gremlin typeclass_instances] ].

Lemma bind_param_shape fuel g v nm : keeps same_shape (bind_param fuel g v nm).
Proof.
  revert g v nm. induction fuel as [|fuel IH]; intros g v nm h; [done|].
  destruct (gremlins h !! g) as [gr|] eqn:Hg.
  2: { cbn [bind_param]. unfold mbind at 1, PyM_bind at 1, load_gremlin. by rewrite Hg. }
  rewrite (bind_param_unfold _ _ _ _ _ _ Hg).
  destruct (bind_resolve _ v nm) as [[n x]|]; [|simpl; by apply (same_shape_set_gremlin _ _ gr)].
  assert (Hb : same_shape h (heap_set_gremlin h g (bound_gremlin gr n x)))
    by (by apply (same_shape_set_gremlin _ _ gr)).
  destruct (parent gr) as [[p|]|]; try (simpl; exact Hb).
  etrans; [exact Hb|]. apply (keeps_bind same_shape _ _ (IH _ _ _) (λ _, keeps_ret _ _)).
Qed.

#[export] Hint Resolve bind_param_shape : gremlin.

Lemma bind_own_params_shape fuel g len0 i rest : keeps same_shape (bind_own_params fuel g len0 i rest).
Proof.
  revert i. induction rest as [|rest IH]; intros i; simpl;
    (apply (keeps_bind same_shape); [apply keeps_load_gremlin|intros gr]);
    (case_decide; [|apply (keeps_throw same_shape)]); destruct (dict_keys (bound_params gr) !! i); try apply (keeps_ret same_shape).
  apply (keeps_bind same_shape); [apply bind_param_shape|intros; apply IH].
Qed.

#[export] Hint Resolve bind_own_params_shape : gremlin.

Lemma set_parent_gremlin_shape fuel g p : keeps same_shape (set_parent_gremlin fuel g p).
Proof.
  unfold set_parent_gremlin.
  apply (keeps_bind same_shape); [by apply keeps_update_gremlin|intros _]. keeps_step.
Qed.

#[export] Hint Resolve set_parent_gremlin_shape : gremlin.

(** C13: normalising a value that holds no predicate ([fix_value], with
    any owner and either binding mode, normally or by an exception)
    changes nothing but the binding state of builders: the tokens, the
    allocator, the [uuid4] draws and every builder's graph variable,
    [top], [bottom] and [return_var] are as before. *)
Theorem fix_value_shape fuel self v cb : no_pred v = true → keeps same_shape (fix_value fuel self v cb).
Proof.
  induction v as [s|z|z|b| |l IH|l IH|a b c Ha Hb Hc|c|cls f l _|s] using pyval_ind'; simpl;
    intros Hv; try discriminate; try (destruct self; keeps_step; by destruct cb; keeps_step).
  all: try (keeps_step; fail).
  all: apply (keeps_bind same_shape); [|intros; apply (keeps_ret same_shape)]; apply keeps_py_map; [apply _|].
  all: intros x Hx; rewrite Forall_forall in IH; apply IH; [done|].
  all: apply (proj1 (forallb_forall _ _) Hv); by apply list_elem_of_In.
Qed.

Lemma fix_value_shape_witness :
  keeps same_shape (fix_value 3 (FixToken 0) (VList [VStr "a"; VGremlin 1; VInt 2]) true).
Proof. apply fix_value_shape. reflexivity. Defined.


(** ** Normalising values that need no work *)

Lemma fix_args_inert fuel self args h :
  forallb inert args = true → fix_args fuel self args false h = (inr args, h).
Proof.
  unfold fix_args. induction args as [|a args IH]; intros Ha; [done|].
  apply andb_prop in Ha as [Ha Has]. simpl.
  rewrite (run_bind_ok _ _ _ _ _ (fix_value_inert _ _ _ Ha _)), (run_bind_ok _ _ _ _ _ (IH Has)). done.
Qed.

(** [Token.__init__] on values it keeps: the token is stored, fresh, at
    the next identity. *)
Lemma token_init_inert fuel k g v args h :
  inert v = true → forallb inert (default [] args) = true →
  (can_bind_of k = false ∨ args = None ∨ args = Some []) →
  token_init fuel k g v args h =
    (inr (next_id h), heap_set_token (bump h) (next_id h) (mkToken k g v (default [] args) None)).
Proof.
  intros Hv Ha Hk. unfold token_init.
  rewrite (run_bind_ok _ _ _ _ _ (eq_refl : alloc_id h = (inr (next_id h), bump h))).
  rewrite (run_bind_ok _ _ _ _ _ (fix_value_inert _ _ _ Hv _)).
  assert (Hargs : fix_args fuel (FixToken g) (default [] args) (can_bind_of k) (bump h) =
            (inr (default [] args), bump h)).
  { destruct Hk as [->|[->| ->]]; [by apply fix_args_inert|done|done]. }
  by rewrite (run_bind_ok _ _ _ _ _ Hargs).
Qed.

(** ** The view, walked and related *)

Lemma chain_from_None toks b : chain_from toks b None = Some [].
Proof. by destruct b. Qed.

Lemma chain_from_sound toks b cur l : chain_from toks b cur = Some l → chain toks cur l.
Proof.
  revert cur l. induction b as [|b IH]; intros [t|] l; simpl; try (intros [= <-]; constructor); try done.
  destruct (toks !! t) as [tk|] eqn:Ht; simpl; [|done].
  destruct (chain_from toks b (tok_next tk)) as [l'|] eqn:E; simpl; [|done].
  intros [= <-]. econstructor; eauto.
Qed.

Lemma chain_from_complete toks b cur l : chain toks cur l → length l ≤ b → chain_from toks b cur = Some l.
Proof.
  intros Hc. revert b. induction Hc as [|t tk l Ht Hc IH]; intros b Hb; [by destruct b|].
  destruct b as [|b]; simpl in *; [lia|]. rewrite Ht. simpl. rewrite IH by lia. done.
Qed.

Lemma builder_view_spec h g rv items :
  builder_view h g = Some (rv, items) ↔
  ∃ gr l, gremlins h !! g = Some gr ∧ return_var gr = rv ∧ gremlin_chain (tokens h) gr l ∧
    chain_items (tokens h) (top gr :: l) = Some items.
Proof.
  unfold builder_view. split.
  - destruct (gremlins h !! g) as [gr|] eqn:Hg; cbv [mbind option_bind]; [|done].
    destruct (chain_from (tokens h) (S (size (tokens h))) (Some (top gr))) as [l'|] eqn:E; [|done].
    apply chain_from_sound in E. inversion E as [|t tk l Ht Hc]; subst.
    case_decide; [|done]. destruct (chain_items _ _) as [its|] eqn:Hi; [|done].
    intros [= <- <-]. exists gr, l. by repeat split.
  - intros (gr & l & Hg & <- & [Hc Hl] & Hi). rewrite Hg. cbv [mbind option_bind].
    rewrite (chain_from_complete _ (S (size (tokens h))) _ _ Hc) by (pose proof (chain_length_size _ _ _ Hc); lia).
    by rewrite decide_True, Hi.
Qed.

(** Rendering refines the view: a builder whose view is [v] renders as
    [view_text v]. *)
Lemma gremlin_str_view f h g v :
  builder_view h g = Some v → (gremlin_str (S (S (S f))) g h).1 = inr (view_text v).
Proof.
  destruct v as [rv items]. intros (gr & l & Hg & <- & Hc & Hi)%builder_view_spec.
  by rewrite (gremlin_str_plain_run _ _ _ _ _ _ Hg Hc Hi).
Qed.

Lemma fresh_ids_token h t : fresh_ids h → is_Some (tokens h !! t) → t < next_id h.
Proof. intros [_ Ht] [tk Htk]. exact (Ht _ _ Htk). Qed.

Lemma fresh_ids_gremlin h g : fresh_ids h → is_Some (gremlins h !! g) → g < next_id h.
Proof. intros [Hg _] [gr Hgr]. exact (Hg _ _ Hgr). Qed.

(** A heap whose new objects all have identities the allocator handed
    out since [h] keeps the invariant. *)
Lemma fresh_ids_grow h h' :
  fresh_ids h → next_id h ≤ next_id h' →
  (∀ i, is_Some (gremlins h' !! i) → is_Some (gremlins h !! i) ∨ next_id h ≤ i < next_id h') →
  (∀ i, is_Some (tokens h' !! i) → is_Some (tokens h !! i) ∨ next_id h ≤ i < next_id h') →
  fresh_ids h'.
Proof.
  intros Hf Hle Hg Ht. split; intros i x Hx.
  - destruct (Hg i (mk_is_Some _ _ Hx)) as [Hs|]; [|lia].
    pose proof (fresh_ids_gremlin h i Hf Hs). lia.
  - destruct (Ht i (mk_is_Some _ _ Hx)) as [Hs|]; [|lia].
    pose proof (fresh_ids_token h i Hf Hs). lia.
Qed.

(** ** [add_token]: appending to the chain *)

Lemma token_text_set_next tk n : token_text (set_tok_next tk n) = token_text tk.
Proof. by destruct tk. Qed.

Lemma chain_items_insert_same toks b tkb tkb' l :
  toks !! b = Some tkb → tok_kind tkb' = tok_kind tkb → token_text tkb' = token_text tkb →
  chain_items (<[b:=tkb']> toks) l = chain_items toks l.
Proof.
  intros Hb Hk Ht. unfold chain_items. induction l as [|t l IH]; [done|]. cbn [mapM].
  rewrite IH. destruct (decide (t = b)) as [->|Hne].
  - by rewrite lookup_insert_eq, Hb; cbn [mbind option_bind]; rewrite Ht, Hk.
  - by rewrite lookup_insert_ne.
Qed.

Lemma chain_items_snoc toks l t tk s :
  toks !! t = Some tk → token_text tk = Some s →
  chain_items toks (l ++ [t]) = (λ items, items ++ [(tok_kind tk, s)]) <$> chain_items toks l.
Proof.
  intros Ht Hs. unfold chain_items. induction l as [|t' l IH]; cbn [mapM app].
  - by rewrite Ht; cbn [mbind option_bind]; rewrite Hs.
  - rewrite IH. destruct (toks !! t') as [tk'|]; cbn [mbind option_bind]; [|done].
    destruct (token_text tk'); cbn [mbind option_bind]; [|done].
    by destruct (mapM _ l).
Qed.

(** [Gremlin.add_token(token)] on a builder whose chain is [l]: the
    token is linked after [bottom] and becomes [bottom]. *)
Lemma add_token_run h g gr l t tk :
  gremlins h !! g = Some gr → gremlin_chain (tokens h) gr l →
  tokens h !! t = Some tk → tok_next tk = None → t ∉ top gr :: l →
  ∃ tkb, tokens h !! bottom gr = Some tkb ∧
    add_token g t h =
      (inr (), heap_set_gremlin (heap_set_token h (bottom gr) (set_tok_next tkb (Some t))) g
                 (set_bottom gr t)) ∧
    gremlin_chain (<[bottom gr:=set_tok_next tkb (Some t)]> (tokens h)) (set_bottom gr t) (l ++ [t]).
Proof.
  intros Hg [Hc Hl] Ht Hn Hnot. apply last_Some in Hl as [l0 Heq].
  destruct (chain_in_dom _ _ _ (bottom gr) Hc) as [tkb Hb]; [rewrite Heq; set_solver|].
  exists tkb. split; [done|]. split.
  - unfold add_token, update_token, load_gremlin, load_token. cbv [mbind PyM_bind].
    by rewrite Hg, Hb.
  - split; simpl; rewrite app_comm_cons; [|by rewrite last_snoc].
    rewrite Heq, <-app_assoc. apply (chain_snoc _ _ _ _ _ _ tk); [by rewrite <-Heq|done|by rewrite <-Heq|done|done].
Qed.

(** Appending a fresh token (of any text) to a builder whose chain is
    [l]: the chain grows by the token, the items of the old chain stay. *)
Lemma add_new_token_chain h g gr l tk :
  gremlins h !! g = Some gr → gremlin_chain (tokens h) gr l → fresh_ids h → tok_next tk = None →
  ∃ h', add_token g (next_id h) (heap_set_token (bump h) (next_id h) tk) = (inr (), h') ∧
    gremlins h' = <[g:=set_bottom gr (next_id h)]> (gremlins h) ∧
    gremlin_chain (tokens h') (set_bottom gr (next_id h)) (l ++ [next_id h]) ∧
    chain_items (tokens h') (top gr :: l) = chain_items (tokens h) (top gr :: l) ∧
    tokens h' !! next_id h = Some tk ∧ fresh_ids h' ∧
    next_id h' = S (next_id h) ∧ uuid_count h' = uuid_count h ∧ uuids h' = uuids h ∧
    (∀ i, i ≠ next_id h → i ≠ bottom gr → tokens h' !! i = tokens h !! i).
Proof.
  intros Hg Hc Hf Hn.
  set (h1 := heap_set_token (bump h) (next_id h) tk).
  assert (Hfr : next_id h ∉ top gr :: l).
  { intros Hin. destruct Hc as [Hc _]. assert (next_id h < next_id h); [|lia].
    apply (fresh_ids_token h); [done|]. by eapply chain_in_dom. }
  assert (Hc1 : gremlin_chain (tokens h1) gr l).
  { destruct Hc as [Hc Hl]. split; [|done]. by apply chain_insert_other. }
  destruct (add_token_run h1 g gr l (next_id h) tk) as (tkb & Hb & Hrun & Hc2);
    [done|done|apply lookup_insert_eq|done|done|].
  assert (Hbin : bottom gr ∈ top gr :: l)
    by (destruct Hc as [_ Hl]; apply last_Some in Hl as [l0 Hl0]; rewrite Hl0; set_solver).
  assert (Hbt : bottom gr ≠ next_id h) by (intros Heq; apply Hfr; by rewrite <-Heq).
  assert (Hb' : tokens h !! bottom gr = Some tkb) by (revert Hb; unfold h1; simpl; by rewrite lookup_insert_ne).
  eexists. split; [exact Hrun|]. split; [done|]. split; [exact Hc2|].
  split; [|split; [|split; [|split_and!; [done|done|done|]]]].
  4: { intros i Hi1 Hi2. unfold h1. cbn [tokens heap_set_gremlin heap_set_token bump].
       by rewrite !lookup_insert_ne by done. }
  - unfold h1. cbn [tokens heap_set_gremlin heap_set_token top set_bottom bump].
    rewrite (chain_items_insert_same _ _ tkb); [|by rewrite lookup_insert_ne|by destruct tkb|apply token_text_set_next].
    by rewrite chain_items_insert_other.
  - unfold h1. cbn [tokens heap_set_gremlin heap_set_token bump].
    by rewrite lookup_insert_ne, lookup_insert_eq.
  - destruct Hf as [Hfg Hft]. split; cbn [gremlins tokens next_id heap_set_gremlin heap_set_token bump].
    + apply map_Forall_insert_2.
      * assert (g < next_id h) by (apply (fresh_ids_gremlin h); [by split|by exists gr]). simpl. lia.
      * eapply map_Forall_impl; [exact Hfg|]. simpl. lia.
    + apply map_Forall_insert_2.
      * assert (bottom gr < next_id h); [|simpl; lia].
        apply (fresh_ids_token h); [by split|]. destruct Hc as [Hc _]. by eapply chain_in_dom.
      * apply map_Forall_insert_2; [simpl; lia|]. eapply map_Forall_impl; [exact Hft|]. simpl. lia.
Qed.

(** Appending a fresh token extends the view by its item. *)
Lemma add_new_token_view h g rv items tk s :
  builder_view h g = Some (rv, items) → fresh_ids h → tok_next tk = None → token_text tk = Some s →
  ∃ h', add_token g (next_id h) (heap_set_token (bump h) (next_id h) tk) = (inr (), h') ∧
    builder_view h' g = Some (rv, items ++ [(tok_kind tk, s)]) ∧ fresh_ids h' ∧
    next_id h' = S (next_id h) ∧ uuid_count h' = uuid_count h ∧ uuids h' = uuids h ∧
    ∀ gr, gremlins h !! g = Some gr → gremlins h' = <[g:=set_bottom gr (next_id h)]> (gremlins h).
Proof.
  intros (gr & l & Hg & <- & Hc & Hi)%builder_view_spec Hf Hn Hs.
  destruct (add_new_token_chain h g gr l tk Hg Hc Hf Hn)
    as (h' & Hrun & Hgs & Hc' & Hi' & Ht & Hf' & Hrest).
  exists h'. split; [done|]. split; [|split; [done|split; [apply Hrest|split; [apply Hrest|split; [apply Hrest|]]]]].
  - apply builder_view_spec. exists (set_bottom gr (next_id h)), (l ++ [next_id h]).
    split; [by rewrite Hgs, lookup_insert_eq|]. split; [done|]. split; [exact Hc'|].
    cbn [top set_bottom]. rewrite app_comm_cons, (chain_items_snoc _ _ _ tk s Ht Hs), Hi', Hi. done.
  - intros gr' Hg'. rewrite Hg in Hg'. by injection Hg' as <-.
Qed.

(** ** [__getattr__] and the constructor on the view *)

(** [Gremlin.__getattr__(a)] appends the item [(Attribute, a)]. *)
Lemma gremlin_getattr_view fuel h g rv items a :
  builder_view h g = Some (rv, items) → fresh_ids h →
  ∃ h', gremlin_getattr fuel g a h = (inr (), h') ∧
    builder_view h' g = Some (rv, items ++ [attr_item a]) ∧ fresh_ids h' ∧
    next_id h' = S (next_id h) ∧ uuid_count h' = uuid_count h ∧ uuids h' = uuids h ∧
    ∀ gr, gremlins h !! g = Some gr → gremlins h' = <[g:=set_bottom gr (next_id h)]> (gremlins h).
Proof.
  intros Hv Hf.
  destruct (add_new_token_view h g rv items (mkToken Attribute g (VStr a) [] None) a Hv Hf)
    as (h' & Hrun & Hrest); [done|done|].
  exists h'. split; [|exact Hrest]. unfold gremlin_getattr.
  by rewrite (run_bind_ok _ _ _ _ _ (token_init_inert fuel Attribute g (VStr a) None h eq_refl eq_refl
                                       (or_introl eq_refl))).
Qed.

Lemma getattrs_view fuel g attrs : ∀ h rv items,
  builder_view h g = Some (rv, items) → fresh_ids h →
  ∃ h', py_iter (gremlin_getattr fuel g) attrs h = (inr (), h') ∧
    builder_view h' g = Some (rv, items ++ map attr_item attrs) ∧ fresh_ids h'.
Proof.
  induction attrs as [|a attrs IH]; intros h rv items Hv Hf.
  - exists h. by rewrite app_nil_r.
  - destruct (gremlin_getattr_view fuel h g rv items a Hv Hf) as (h1 & Hrun & Hv1 & Hf1 & _).
    destruct (IH h1 _ _ Hv1 Hf1) as (h2 & Hrun2 & Hv2 & Hf2).
    exists h2. cbn [py_iter]. rewrite (run_bind_ok _ _ _ _ _ Hrun). split; [done|].
    by rewrite <-app_assoc in Hv2.
Qed.

(** [Gremlin(gv)] on a heap with fresh identities: a builder whose view
    is its graph variable alone, at the next identity. *)
Lemma gremlin_init_view gv h :
  fresh_ids h →
  ∃ h', gremlin_init gv h = (inr (next_id h), h') ∧
    builder_view h' (next_id h) = Some (None, [(GraphVariable, gv)]) ∧ fresh_ids h' ∧
    gremlins h' !! next_id h =
      Some (mkGremlin gv (S (next_id h)) (S (next_id h)) None [] (py_tail 5 (uuids h (uuid_count h))) 0 None).
Proof.
  intros [Hfg Hft].
  eexists. split; [|split; [|split]].
  - unfold gremlin_init, reset, set_graph_variable, update_token, load_gremlin, load_token,
      alloc_id, draw_uuid, store_gremlin, store_token, modify_st.
    cbv [mbind PyM_bind mret PyM_ret]. do 6 (simpl; rewrite ?lookup_insert_eq). reflexivity.
  - apply builder_view_spec. eexists _, []. split; [simpl; by rewrite lookup_insert_eq|].
    split; [done|]. split; [split; [|done]|].
    + econstructor; [simpl; by rewrite lookup_insert_eq|constructor].
    + unfold chain_items. simpl. by rewrite lookup_insert_eq.
  - split; simpl; repeat (apply map_Forall_insert_2; [simpl; lia|]);
      (eapply map_Forall_impl; [eassumption|]); simpl; lia.
  - simpl. by rewrite lookup_insert_eq.
Qed.

(** [Gremlin(gv)] touches no builder but the one it creates. *)
Lemma gremlin_init_frame gv h i :
  i ≠ next_id h → gremlins (gremlin_init gv h).2 !! i = gremlins h !! i.
Proof.
  intros Hi. unfold gremlin_init, reset, set_graph_variable, update_token, load_gremlin, load_token,
    alloc_id, draw_uuid, store_gremlin, store_token, modify_st.
  cbv [mbind PyM_bind mret PyM_ret]. do 6 (simpl; rewrite ?lookup_insert_eq). simpl.
  by rewrite !lookup_insert_ne.
Qed.

(** [Gremlin(gv)] allocates two identities and draws one uuid. *)
Lemma gremlin_init_counters gv h :
  next_id (gremlin_init gv h).2 = S (S (next_id h)) ∧ uuids (gremlin_init gv h).2 = uuids h ∧
  uuid_count (gremlin_init gv h).2 = S (uuid_count h).
Proof.
  unfold gremlin_init, reset, set_graph_variable, update_token, load_gremlin, load_token,
    alloc_id, draw_uuid, store_gremlin, store_token, modify_st.
  cbv [mbind PyM_bind mret PyM_ret]. do 6 (simpl; rewrite ?lookup_insert_eq). done.
Qed.

(** ** Attribute chains *)

Lemma spec_join_attrs attrs : ∀ x pk,
  pk ≠ Raw → (pk = GraphVariable → x ≠ "") →
  x +:+ spec_join (Some (pk, x)) (map attr_item attrs) = py_join "." (x :: attrs).
Proof.
  induction attrs as [|a attrs IH]; intros x pk Hr Hg; cbn [map spec_join].
  - by rewrite (right_id "" String.append).
  - unfold attr_item at 1, emit_sep. rewrite decide_False by done.
    rewrite decide_False by (intros [Hp Hx]; by apply (Hg Hp)). rewrite py_join_cons2, <-(IH a Attribute) by done. done.
Qed.

Lemma spec_join_gv_attrs gv attrs :
  spec_join None ((GraphVariable, gv) :: map attr_item attrs) =
    py_join "." (if decide (gv = "") then attrs else gv :: attrs).
Proof.
  cbn [spec_join emit_sep]. rewrite (left_id "" String.append).
  case_decide as Hgv; [subst|by rewrite spec_join_attrs].
  destruct attrs as [|a attrs]; [done|]. cbn [map spec_join]. unfold attr_item at 1, emit_sep.
  rewrite decide_False, decide_True by done. rewrite (left_id "" String.append).
  by rewrite spec_join_attrs.
Qed.

(** C5: [Gremlin(gv)] followed by [__getattr__] of the names [attrs]
    renders as the names joined by ["."] after the graph variable, or
    without it when the graph variable is empty (the tests
    [test_can_add_random_attributes] and
    [test_can_add_random_attributes_drop_graph_variable], for every
    list of names). *)
Theorem attribute_chain_str fuel gv attrs h :
  fresh_ids h →
  ((g ← gremlin_init gv; py_iter (gremlin_getattr fuel g) attrs;; gremlin_str (S (S (S fuel))) g) h).1 =
    inr (py_join "." (if decide (gv = "") then attrs else gv :: attrs)).
Proof.
  intros Hf. destruct (gremlin_init_view gv h Hf) as (h1 & Hrun1 & Hv1 & Hf1 & _).
  destruct (getattrs_view fuel _ attrs h1 _ _ Hv1 Hf1) as (h2 & Hrun2 & Hv2 & _).
  rewrite (run_bind_ok _ _ _ _ _ Hrun1). cbv beta. rewrite (run_bind_ok _ _ _ _ _ Hrun2).
  rewrite (gremlin_str_view _ _ _ _ Hv2). unfold view_text. cbn [fst snd ret_prefix app].
  by rewrite spec_join_gv_attrs.
Qed.

Lemma attribute_chain_str_witness :
  fresh_ids (heap_empty (λ _, "abcde")) ∧
  ((g ← gremlin_init "g"; py_iter (gremlin_getattr 0 g) ["1"; "2"; "3"];; gremlin_str 3 g)
     (heap_empty (λ _, "abcde"))).1 =
    inr (py_join "." (if decide ("g" = "") then ["1"; "2"; "3"] else "g" :: ["1"; "2"; "3"])).
Proof.
  split; [apply (bool_decide_unpack _); vm_compute; reflexivity|].
  apply (attribute_chain_str 0 "g" ["1"; "2"; "3"]). apply (bool_decide_unpack _); vm_compute; reflexivity.
Defined.

(** ** The other operations that append one token *)

(** [Token.__init__] then [add_token] for a token whose value and
    arguments [fix_value] keeps: the view gains the token's item. *)
Lemma token_init_add_view f h g rv items k v args s :
  builder_view h g = Some (rv, items) → fresh_ids h →
  inert v = true → forallb inert (default [] args) = true →
  (can_bind_of k = false ∨ args = None ∨ args = Some []) →
  token_text (mkToken k g v (default [] args) None) = Some s →
  ∃ h', (t ← token_init f k g v args; add_token g t) h = (inr (), h') ∧
    builder_view h' g = Some (rv, items ++ [(k, s)]) ∧ fresh_ids h' ∧
    ∀ gr, gremlins h !! g = Some gr → gremlins h' = <[g:=set_bottom gr (next_id h)]> (gremlins h).
Proof.
  intros Hv Hf Hi Ha Hk Hs.
  destruct (add_new_token_view h g rv items (mkToken k g v (default [] args) None) s Hv Hf)
    as (h' & Hrun & Hv' & Hf' & _ & _ & _ & Hg'); [done|done|].
  exists h'. split; [|done].
  by rewrite (run_bind_ok _ _ _ _ _ (token_init_inert f k g v args h Hi Ha Hk)).
Qed.

(** [Gremlin.set_graph_variable(s)] replaces the graph variable's item. *)
Lemma set_graph_variable_view h g rv x items s :
  builder_view h g = Some (rv, (GraphVariable, x) :: items) → fresh_ids h →
  ∃ h', set_graph_variable g (Some s) h = (inr (), h') ∧
    builder_view h' g = Some (rv, (GraphVariable, s) :: items) ∧ fresh_ids h' ∧ gremlins h' = gremlins h.
Proof.
  intros (gr & l & Hg & <- & [Hc Hl] & Hi)%builder_view_spec Hf.
  destruct (chain_items_cons _ _ _ _ Hi) as (tk & s0 & items' & Ht & Hs0 & Hi' & Heq).
  injection Heq as Hk <- <-.
  pose proof (chain_NoDup _ _ _ Hc) as Hnd. apply NoDup_cons in Hnd as [Htl _].
  exists (heap_set_token h (top gr) (set_tok_value tk (VStr s))). split_and!.
  - unfold set_graph_variable, update_token.
    rewrite (run_bind_ok _ _ _ _ _ (load_gremlin_run _ _ _ Hg)), (run_bind_ok _ _ _ _ _ (load_token_run _ _ _ Ht)).
    done.
  - apply builder_view_spec. exists gr, l. split_and!; [done|done| |].
    + split; [|done]. apply (chain_insert_same_next _ _ _ _ tk); [done|by destruct tk|done].
    + unfold chain_items. cbn [mapM tokens heap_set_token]. rewrite lookup_insert_eq.
      cbn [mbind option_bind]. fold (chain_items (<[top gr:=set_tok_value tk (VStr s)]> (tokens h)) l).
      rewrite chain_items_insert_other, Hi' by done. destruct tk; simpl in *; by subst.
  - apply (fresh_ids_grow h); [done|done|by left|].
    intros i. cbn. destruct (decide (i = top gr)) as [->|?].
    + left. by exists tk.
    + rewrite lookup_insert_ne by done. by left.
  - done.
Qed.

(** [Gremlin.set_ret_variable(r)] sets the view's prefix. *)
Lemma set_ret_variable_view h g rv items r :
  builder_view h g = Some (rv, items) → fresh_ids h →
  ∃ h', set_ret_variable g r h = (inr (), h') ∧ builder_view h' g = Some (r, items) ∧ fresh_ids h' ∧
    ∀ gr, gremlins h !! g = Some gr → gremlins h' = <[g:=set_return_var gr r]> (gremlins h).
Proof.
  intros (gr & l & Hg & <- & Hc & Hi)%builder_view_spec Hf.
  exists (heap_set_gremlin h g (set_return_var gr r)). split_and!.
  - unfold set_ret_variable. by rewrite (update_gremlin_run _ _ _ _ Hg).
  - apply builder_view_spec. exists (set_return_var gr r), l. by rewrite heap_set_gremlin_lookup_eq.
  - apply (fresh_ids_grow h); [done|done| |by left].
    intros i. cbn. destruct (decide (i = g)) as [->|?].
    + left. by exists gr.
    + rewrite lookup_insert_ne by done. by left.
  - intros gr' Hg'. rewrite Hg in Hg'. by injection Hg' as <-.
Qed.

(** ** The view under the binder's frame *)

Lemma builder_view_same_shape h h' g : same_shape h h' → builder_view h' g = builder_view h g.
Proof.
  intros (Ht & _ & _ & _ & Hs). unfold builder_view. rewrite Ht.
  assert (Hg : shape <$> gremlins h' !! g = shape <$> gremlins h !! g) by (by rewrite <-!lookup_fmap, Hs).
  destruct (gremlins h' !! g) as [gr'|], (gremlins h !! g) as [gr|]; try done.
  injection Hg as _ Htop Hbot Hrv. cbn [mbind option_bind].
  by rewrite Htop, Hbot, Hrv.
Qed.

Lemma fresh_ids_same_shape h h' : same_shape h h' → fresh_ids h → fresh_ids h'.
Proof.
  intros (Ht & Hn & _ & _ & Hs) Hf. apply (fresh_ids_grow h); [done|lia| |by rewrite Ht; left].
  intros i [gr Hgr]. left. apply (fmap_is_Some shape). rewrite <-lookup_fmap, <-Hs, lookup_fmap, Hgr. by eexists.
Qed.

(** C25: [Gremlin.range(start, end)] cannot be rendered with the
    integer bounds it is meant for: on any builder whose chain renders,
    [range(a, b)] with values that are not both strings succeeds, and
    [str(g)] then raises [TypeError], because [UnboudFunctionRaw]
    renders its arguments with [', '.join(self.args)]. *)
Theorem range_str_raises f h g rv items a b :
  builder_view h g = Some (rv, items) → fresh_ids h → inert a = true → inert b = true →
  as_strings [a; b] = None →
  ∃ h', range (S f) g a b h = (inr (), h') ∧
    (gremlin_str (S (S (S f))) g h').1 = inl (TypeError "sequence item: expected string").
Proof.
  intros (gr & l & Hg & <- & Hc & Hi)%builder_view_spec Hf Ha Hb Hs.
  unfold range, func_raw_unbound.
  rewrite (run_bind_ok _ _ _ _ _ (token_init_inert (S f) UnboudFunctionRaw g (VStr "range") (Some [a; b]) h
             eq_refl ltac:(simpl; by rewrite Ha, Hb) (or_introl eq_refl))).
  destruct (add_new_token_chain h g gr l (mkToken UnboudFunctionRaw g (VStr "range") [a; b] None) Hg Hc Hf eq_refl)
    as (h' & Hrun & Hgs & [Hc' _] & Hi' & Ht & _).
  exists h'. split; [exact Hrun|].
  pose proof (chain_NoDup _ _ _ Hc') as Hnd. cbn [top set_bottom] in *.
  rewrite app_comm_cons in Hnd. apply NoDup_app in Hnd as (_ & Hd & _).
  apply (gremlin_str_raise f h' g (set_bottom gr (next_id h)) l (next_id h) []).
  - by rewrite Hgs, lookup_insert_eq.
  - exact Hc'.
  - cbn [top set_bottom]. rewrite Hi', Hi. by eexists.
  - apply (token_str_unbound_raise _ _ _ (mkToken UnboudFunctionRaw g (VStr "range") [a; b] None)); [|by right|done].
    rewrite render_heap_lookup_notin; [done|]. intros Hin. apply (Hd _ Hin). set_solver.
Qed.

Lemma range_str_raises_witness :
  ∃ h', range 3 0 (VInt 0) (VInt 5) render_sample_heap = (inr (), h') ∧
    (gremlin_str 5 0 h').1 = inl (TypeError "sequence item: expected string").
Proof.
  apply (range_str_raises 2 render_sample_heap 0 None
           [(GraphVariable, "g"); (Attribute, "a"); (Function, "f(GPY_PARAM_abcde_1)")]);
    [vm_compute; reflexivity|apply (bool_decide_unpack _); vm_compute; reflexivity|reflexivity..].
Defined.

(** C26: an open slice renders as an index: on any builder whose chain
    renders, [g[n:]] (and [g[n::step]]) builds the slice [(n, None,
    step)], which [Index.__unicode__] prints as ["[n]"], the text of
    the single index [g[n]]; the two builders render the same. *)
Theorem open_slice_renders_as_index f h g rv items n st :
  builder_view h g = Some (rv, items) → fresh_ids h → inert st = true →
  ∃ h1 h2, gremlin_getitem f g (VSlice (VInt n) VNone st) h = (inr (), h1) ∧
    gremlin_getitem f g (VInt n) h = (inr (), h2) ∧
    (gremlin_str (S (S (S f))) g h1).1 =
      inr (view_text (rv, items ++ [(Index, "[" +:+ py_repr (VInt n) +:+ "]")])) ∧
    (gremlin_str (S (S (S f))) g h2).1 = (gremlin_str (S (S (S f))) g h1).1.
Proof.
  intros Hv Hf Hst.
  destruct (token_init_add_view f h g rv items Index (VSlice (VInt n) VNone st) None
              ("[" +:+ py_repr (VInt n) +:+ "]") Hv Hf) as (h1 & Hr1 & Hv1 & _);
    [done|done|by left|reflexivity|].
  destruct (token_init_add_view f h g rv items Index (VSlice (VInt n) VNone VNone) None
              ("[" +:+ py_repr (VInt n) +:+ "]") Hv Hf) as (h2 & Hr2 & Hv2 & _);
    [done|done|by left|reflexivity|].
  exists h1, h2. split_and!; [exact Hr1|exact Hr2|..].
  - exact (gremlin_str_view _ _ _ _ Hv1).
  - by rewrite (gremlin_str_view _ _ _ _ Hv1), (gremlin_str_view _ _ _ _ Hv2).
Qed.

Lemma open_slice_renders_as_index_witness :
  ∃ h1 h2, gremlin_getitem 2 0 (VSlice (VInt 1) VNone VNone) render_sample_heap = (inr (), h1) ∧
    gremlin_getitem 2 0 (VInt 1) render_sample_heap = (inr (), h2) ∧
    (gremlin_str 5 0 h1).1 = inr (view_text (None,
      [(GraphVariable, "g"); (Attribute, "a"); (Function, "f(GPY_PARAM_abcde_1)");
       (Index, "[" +:+ py_repr (VInt 1) +:+ "]")])) ∧
    (gremlin_str 5 0 h2).1 = (gremlin_str 5 0 h1).1.
Proof.
  apply (open_slice_renders_as_index 2 render_sample_heap 0 None
           [(GraphVariable, "g"); (Attribute, "a"); (Function, "f(GPY_PARAM_abcde_1)")]);
    [vm_compute; reflexivity|apply (bool_decide_unpack _); vm_compute; reflexivity|reflexivity].
Defined.

(** C27: [reset()] gives the graph variable back the value passed to
    the constructor ([self.gv]), not the one set since: after
    [set_graph_variable(s)] and [reset()], the builder is the single
    graph variable [gv], with no return variable, no bindings, a count
    of 0 and the next [uuid4] seed. *)
Theorem reset_restores_constructor_gv h g gr tk s :
  gremlins h !! g = Some gr → tokens h !! top gr = Some tk → tok_kind tk = GraphVariable →
  ∃ h', (set_graph_variable g (Some s);; reset g) h = (inr (), h') ∧
    builder_view h' g = Some (None, [(GraphVariable, gv gr)]) ∧
    gremlins h' !! g = Some (mkGremlin (gv gr) (top gr) (top gr) None [] (py_tail 5 (uuids h (uuid_count h))) 0 None).
Proof.
  intros Hg Ht Hk.
  rewrite (run_bind_ok _ _ _ _ _ (set_graph_variable_run _ _ _ _ _ Hg Ht)).
  rewrite (reset_run _ g gr (set_tok_value tk (VStr s))); [|done|apply heap_set_token_lookup_eq].
  eexists. split; [reflexivity|]. cbn [gremlins tokens heap_set_token]. split; [|apply lookup_insert_eq].
  unfold builder_view. cbn [gremlins tokens]. rewrite lookup_insert_eq.
  cbn [mbind option_bind chain_from top bottom]. rewrite lookup_insert_eq.
  cbn [mbind option_bind tok_next set_tok_value set_tok_next]. rewrite chain_from_None.
  cbn [mbind option_bind last]. rewrite decide_True by done.
  unfold chain_items. cbn [mapM]. rewrite lookup_insert_eq. destruct tk; cbn in *. by subst.
Qed.

Lemma reset_restores_constructor_gv_witness :
  ∃ h', (set_graph_variable 0 (Some "h");; reset 0) render_sample_heap = (inr (), h') ∧
    builder_view h' 0 = Some (None, [(GraphVariable, "g")]) ∧
    gremlins h' !! 0 = Some (mkGremlin "g" 1 1 None [] "fffff" 0 None).
Proof.
  apply (reset_restores_constructor_gv render_sample_heap 0 render_sample_gremlin
           (mkToken GraphVariable 0 (VStr "g") [] (Some 2)) "h"); reflexivity.
Defined.
