(* ===== verification/Call.v ===== *)
(** * Call: [Gremlin.remove_token] and [Gremlin.__call__] on the chain

    [g.name(args)] first appends an [Attribute] token [name]
    ([__getattr__]), then [__call__] renders that last token, builds a
    [Function] token with the text as its name (binding the arguments),
    links it after the last token, unlinks the last token with
    [remove_token] and appends the function with [add_token]
    (gremlin.py lines 117-121, 216-232).  This file proves what
    [remove_token] does to the linked chain, what the [Function]
    constructor does to the arguments and the binder, that a call
    replaces the last item of the builder's view by the function, and
    that [g.name(args)] and [g.func('name', args)] build the same
    builder. *)

From S2P Require Import Prelude PyDict PyValue State Binder Chain Render Builder Shape.

(** Arguments that [fix_value] binds under fresh generated names: scalars
    that are no placeholder of the builder and no generated name of its
    seed; an integer is a Python 2 [int] (a [long] is not bound). *)
Definition fresh_arg (gr : gremlin) (a : pyval) : Prop :=
  match a with
  | VStr s => (s ∉ dict_keys (bound_params gr)) ∧ (∀ c, s ≠ param_name (bound_param gr) c)
  | VInt z => py_int_range z = true
  | VBool _ => True
  | _ => False
  end.

(** The names [GPY_PARAM_<seed>_<c+1>], ..., [GPY_PARAM_<seed>_<c+n>]. *)
Fixpoint gen_names (seed : string) (c n : nat) : list string :=
  match n with
  | 0 => []
  | S n' => param_name seed (S c) :: gen_names seed (S c) n'
  end.

(** The builder after its counter moved by [n] and the pairs [kv] were
    appended to its dict. *)
Definition bound_many (gr : gremlin) (n : nat) (kv : dict pyval) : gremlin :=
  set_params (set_count gr (bound_count gr + n)) (bound_params gr ++ kv).

(** [Gremlin().function] with seed [abcde]: the builder [0], its graph
    variable [1] and the attribute [2]. *)
Definition call_gremlin : gremlin := mkGremlin "g" 1 2 None [] "abcde" 0 None.
Definition call_heap : heap :=
  mkHeap {[0 := call_gremlin]}
    {[1 := mkToken GraphVariable 0 (VStr "g") [] (Some 2);
      2 := mkToken Attribute 0 (VStr "function") [] None]}
    3 (λ _, "fffff") 1.





(** ** Binding the arguments of a [Function] *)

Lemma fresh_arg_not_placeholder gr a : fresh_arg gr a → not_placeholder (bound_params gr) a.
Proof.
  unfold not_placeholder. destruct a as [s| | | | | | | | | |]; try done.
  intros [Hs _]. rewrite dict_lookup_value_str. by apply dict_get_None in Hs as ->.
Qed.

Lemma fresh_counter_next gr :
  fresh_counter gr → param_name (bound_param gr) (S (bound_count gr)) ∉ dict_keys (bound_params gr).
Proof. intros Hf. apply Hf. lia. Qed.

(** Storing the next generated name keeps the counter's names fresh. *)
Lemma fresh_counter_bound gr b :
  fresh_counter gr → fresh_counter (bound_gremlin gr (param_name (bound_param gr) (S (bound_count gr))) b).
Proof.
  intros Hf c Hc. unfold fresh_counter, bound_gremlin in *.
  cbn [bound_params bound_count bound_param set_params set_count] in *.
  rewrite dict_keys_set_notin by (by apply fresh_counter_next).
  rewrite elem_of_app, list_elem_of_singleton. intros [Hin|Heq].
  - revert Hin. apply Hf. lia.
  - apply param_name_inj in Heq. lia.
Qed.

(** One more binding keeps the later arguments fresh. *)
Lemma fresh_arg_bound gr a b :
  fresh_counter gr → fresh_arg gr a →
  fresh_arg (bound_gremlin gr (param_name (bound_param gr) (S (bound_count gr))) b) a.
Proof.
  intros Hf. destruct a as [s| | | | | | | | | |]; try done. intros [Hs Hn]. unfold bound_gremlin.
  cbn [fresh_arg bound_params bound_count bound_param set_params set_count].
  split; [|done]. rewrite dict_keys_set_notin by (by apply fresh_counter_next).
  rewrite elem_of_app, list_elem_of_singleton. intros [?|?]; [done|]. by apply (Hn (S (bound_count gr))).
Qed.

(** [fix_value(a, can_bind=True)] on a fresh scalar: [bind_param(a)[0]]. *)
Lemma fix_value_binds fuel h g gr a :
  gremlins h !! g = Some gr → parent gr = None → fresh_arg gr a →
  let n := param_name (bound_param gr) (S (bound_count gr)) in
  fix_value (S fuel) (FixToken g) a true h = (inr (VStr n), heap_set_gremlin h g (bound_gremlin gr n a)).
Proof.
  intros Hg Hp Ha. pose proof (bind_param_new fuel h g gr a None Hg Hp (fresh_arg_not_placeholder _ _ Ha)) as Hb.
  destruct a; try done; cbn [fix_value]; by rewrite (run_bind_ok _ _ _ _ _ Hb).
Qed.

(** [self.fix_value(tuple(args), can_bind=True)] binds every argument,
    in order, under the next generated names. *)
Lemma fix_args_binds fuel g args : ∀ h gr,
  gremlins h !! g = Some gr → parent gr = None → fresh_counter gr → Forall (fresh_arg gr) args →
  let names := gen_names (bound_param gr) (bound_count gr) (length args) in
  fix_args (S fuel) (FixToken g) args true h =
    (inr (VStr <$> names), heap_set_gremlin h g (bound_many gr (length args) (zip names args))).
Proof.
  unfold fix_args. induction args as [|a args IH]; intros h gr Hg Hp Hf Ha; cbn [py_map length gen_names].
  - rewrite heap_set_gremlin_id; [done|]. rewrite Hg. unfold bound_many. rewrite Nat.add_0_r, app_nil_r.
    by destruct gr.
  - apply Forall_cons in Ha as [Ha Has].
    rewrite (run_bind_ok _ _ _ _ _ (fix_value_binds fuel h g gr a Hg Hp Ha)).
    set (gr1 := bound_gremlin gr (param_name (bound_param gr) (S (bound_count gr))) a).
    assert (Has1 : Forall (fresh_arg gr1) args) by (eapply Forall_impl; [exact Has|]; by intros; apply fresh_arg_bound).
    rewrite (run_bind_ok _ _ _ _ _ (IH _ gr1 (heap_set_gremlin_lookup_eq _ _ _) Hp (fresh_counter_bound _ _ Hf) Has1)).
    cbn. rewrite heap_set_gremlin_twice. unfold mret, PyM_ret. do 2 f_equal.
    unfold gr1, bound_many, bound_gremlin.
    cbn [bound_params bound_count bound_param set_params set_count].
    rewrite dict_set_notin by (by apply fresh_counter_next).
    rewrite <-app_assoc. destruct gr; unfold set_params, set_count; cbn. do 2 f_equal. lia.
Qed.

(** [Function(gremlin, name, args)] (or any token that may bind) on fresh
    scalar arguments: a token at the next identity whose arguments are
    the generated placeholders. *)
Lemma token_init_binds f h g gr k name args :
  can_bind_of k = true →
  gremlins h !! g = Some gr → parent gr = None → fresh_counter gr → Forall (fresh_arg gr) args →
  let names := gen_names (bound_param gr) (bound_count gr) (length args) in
  token_init (S f) k g (VStr name) (Some args) h =
    (inr (next_id h),
     heap_set_token (heap_set_gremlin (bump h) g (bound_many gr (length args) (zip names args)))
       (next_id h) (mkToken k g (VStr name) (VStr <$> names) None)).
Proof.
  intros Hk Hg Hp Hf Ha. unfold token_init.
  rewrite (run_bind_ok _ _ _ _ _ (eq_refl : alloc_id h = (inr (next_id h), bump h))).
  rewrite (run_bind_ok _ _ _ _ _ (fix_value_inert _ _ (VStr name) eq_refl _)). cbn [default]. rewrite Hk.
  by rewrite (run_bind_ok _ _ _ _ _ (fix_args_binds f g args (bump h) gr Hg Hp Hf Ha)).
Qed.

(** ** The chain after a call *)

Lemma chain_items_app_inv toks l t items k s :
  chain_items toks (l ++ [t]) = Some (items ++ [(k, s)]) →
  ∃ tk, toks !! t = Some tk ∧ tok_kind tk = k ∧ token_text tk = Some s ∧ chain_items toks l = Some items.
Proof.
  unfold chain_items. rewrite !mapM_Some. intros H.
  apply Forall2_app_inv_l in H as (k1 & k2 & H1 & H2 & Heq).
  apply Forall2_cons_inv_l in H2 as (y & k2' & Hy & Hnil & ->). apply Forall2_nil_inv_l in Hnil as ->.
  apply app_inj_tail in Heq as [-> <-].
  destruct (toks !! t) as [tk|] eqn:Ht; [|done]. cbn [mbind option_bind] in Hy.
  destruct (token_text tk) as [s'|] eqn:Hs; [|done]. simpl in Hy. simplify_eq.
  exists tk. split_and!; try done. by apply mapM_Some.
Qed.

(** The view of tokens depends only on their kinds and texts. *)
Lemma chain_items_agree toks toks' l :
  (∀ i, i ∈ l → (λ tk, (tok_kind tk, token_text tk)) <$> toks' !! i =
                (λ tk, (tok_kind tk, token_text tk)) <$> toks !! i) →
  chain_items toks' l = chain_items toks l.
Proof.
  unfold chain_items. induction l as [|i l IH]; intros Hag; [done|]. cbn [mapM].
  rewrite IH by set_solver. specialize (Hag i ltac:(set_solver)).
  destruct (toks' !! i) as [tk'|], (toks !! i) as [tk|]; try discriminate; [|done].
  injection Hag as Hk Ht. cbn [mbind option_bind]. by rewrite Hk, Ht.
Qed.

Lemma mapM_plain_VStr ss : mapM plain_str (VStr <$> ss) = Some ss.
Proof. induction ss as [|s ss IH]; [done|]. cbn. by rewrite IH. Qed.

Lemma cons_app_split {A} (x : A) l L b : x :: l = L ++ [b] → L ≠ [] → ∃ l', L = x :: l'.
Proof. destruct L as [|y L]; [done|]. intros [= -> _] _. by eexists. Qed.

(** The last three statements of [__call__]: link the function [t]
    after the last token [b], unlink [b] (its predecessor [p] now points
    to [t]), append [t]. *)
Lemma call_relink_run h g gr l0 p b t tkp tkb tkt :
  gremlins h !! g = Some gr → bottom gr = b → chain (tokens h) (Some (top gr)) (l0 ++ [p; b]) →
  tokens h !! t = Some tkt → tok_next tkt = None → t ∉ l0 ++ [p; b] →
  tokens h !! p = Some tkp → tokens h !! b = Some tkb →
  ∃ h', (update_token b (λ tk, set_tok_next tk (Some t));; remove_token g b;; add_token g t) h = (inr (), h') ∧
    gremlins h' = <[g:=set_bottom gr t]> (gremlins h) ∧
    chain (tokens h') (Some (top gr)) (l0 ++ [p; t]) ∧
    tokens h' !! p = Some (set_tok_next tkp (Some t)) ∧
    (∀ i, i ≠ p → i ≠ b → tokens h' !! i = tokens h !! i) ∧
    next_id h' = next_id h ∧ (∀ i, is_Some (tokens h' !! i) ↔ is_Some (tokens h !! i)).
Proof.
  intros Hg Hb Hc Ht Htn Htc Hp Hbt. pose proof (chain_NoDup _ _ _ Hc) as Hnd.
  apply NoDup_app in Hnd as (_ & Hdis & Hnd). apply NoDup_cons in Hnd as [Hpb _].
  assert (p ≠ b) by set_solver. assert (b ∉ l0) by (intros Hin; by apply (Hdis b); set_solver).
  assert (t ≠ b ∧ t ≠ p) as [] by set_solver.
  set (tkb1 := set_tok_next tkb (Some t)).
  set (h1 := heap_set_token h b tkb1).
  assert (Hc1 : chain (tokens h1) (Some (top gr)) (l0 ++ [p; b; t])).
  { replace (l0 ++ [p; b; t]) with ((l0 ++ [p]) ++ [b; t]) by by rewrite <-app_assoc.
    apply (chain_snoc _ _ _ _ _ _ tkt); [by rewrite <-app_assoc|done|by rewrite <-app_assoc|done|done]. }
  set (h2 := heap_set_token h1 p (set_tok_next tkp (Some t))).
  assert (Hrm : remove_token g b h1 = (inr (), h2)).
  { unfold remove_token. rewrite (run_bind_ok _ _ _ _ _ (load_gremlin_run h1 _ _ Hg)), (run_bind_ok _ _ _ _ _ (run_get _)).
    apply (remove_walk_run h1 l0 _ _ p b [t] tkp tkb1); [done|cbn; by rewrite lookup_insert_ne|apply lookup_insert_eq|].
    pose proof (chain_length_size _ _ _ Hc1) as Hl. rewrite length_app in Hl. simpl in *. lia. }
  eexists. split; [|split; [|split; [|split; [|split; [|split]]]]].
  - unfold update_token. rewrite (run_bind_ok _ _ _ _ _ (run_bind_ok _ _ _ _ _ (load_token_run _ _ _ Hbt))).
    cbv beta. rewrite (run_bind_ok _ _ _ _ _ Hrm). unfold add_token, update_token.
    rewrite (run_bind_ok _ _ _ _ _ (load_gremlin_run h2 _ _ Hg)), Hb.
    rewrite (run_bind_ok _ _ _ _ _ (run_bind_ok _ _ _ _ _
      (load_token_run h2 b tkb1 ltac:(cbn; by rewrite lookup_insert_ne, lookup_insert_eq)))).
    reflexivity.
  - done.
  - cbn. apply chain_insert_other; [set_solver|].
    apply (chain_splice (tokens h1) l0 (Some (top gr)) p b [t] tkp tkb1);
      [exact Hc1|cbn; by rewrite lookup_insert_ne|apply lookup_insert_eq].
  - cbn. by rewrite lookup_insert_ne, lookup_insert_eq.
  - intros i Hip Hib. cbn. by rewrite !lookup_insert_ne.
  - done.
  - intros i. cbn. rewrite !lookup_insert_is_Some'.
    pose proof (mk_is_Some _ _ Hp). pose proof (mk_is_Some _ _ Hbt). naive_solver.
Qed.

(** The first statement of [__call__]: [Function(self, str(self.bottom),
    args)], on a builder whose last token [b] has a plain text [s]. *)
Lemma call_function_run f h g gr b tkb s args :
  gremlins h !! g = Some gr → bottom gr = b → tokens h !! b = Some tkb → token_text tkb = Some s →
  parent gr = None → fresh_counter gr → Forall (fresh_arg gr) args →
  let names := gen_names (bound_param gr) (bound_count gr) (length args) in
  let grB := bound_many gr (length args) (zip names args) in
  let tkt := mkToken Function g (VStr s) (VStr <$> names) None in
  let h2 := heap_set_token (heap_set_gremlin (bump (heap_set_token h b (rendered_token tkb))) g grB)
              (next_id h) tkt in
  gremlin_call (S (S f)) g args h =
    (update_token b (λ tk, set_tok_next tk (Some (next_id h)));; remove_token g b;;
     add_token g (next_id h)) h2.
Proof.
  intros Hg <- Hb Hs Hp Hf Ha names grB tkt h2. unfold gremlin_call.
  rewrite (run_bind_ok _ _ _ _ _ (load_gremlin_run _ _ _ Hg)), (run_bind_ok _ _ _ _ _ (token_str_plain _ _ _ _ _ Hb Hs)).
  rewrite (run_bind_ok _ _ _ _ _ (token_init_binds (S f) (heap_set_token h (bottom gr) (rendered_token tkb))
                                      g gr Function s args eq_refl Hg Hp Hf Ha)).
  assert (Hl : gremlins h2 !! g = Some grB) by (unfold h2; cbn; apply lookup_insert_eq).
  by rewrite (run_bind_ok _ _ _ _ _ (load_gremlin_run h2 g grB Hl)).
Qed.

(** The view of the chain [L ++ [t]] after the relinking, from the view
    of [L] before it: the tokens of [L] keep their kinds and texts. *)
Lemma relinked_prefix toks toks' L p t tkp :
  toks !! p = Some tkp → toks' !! p = Some (set_tok_next tkp (Some t)) →
  (∀ i, i ∈ L → i ≠ p → toks' !! i = toks !! i) → chain_items toks' L = chain_items toks L.
Proof.
  intros Hp Hp' Hoth. apply chain_items_agree. intros i Hi. destruct (decide (i = p)) as [->|Hne].
  - rewrite Hp, Hp'. cbn. by rewrite token_text_set_next.
  - by rewrite Hoth.
Qed.

Lemma relinked_items toks toks' L p t tkp tkt s :
  NoDup (L ++ [t]) → p ∈ L → toks !! p = Some tkp →
  toks' !! p = Some (set_tok_next tkp (Some t)) → (∀ i, i ∈ L → i ≠ p → toks' !! i = toks !! i) →
  toks' !! t = Some tkt → token_text tkt = Some s →
  chain_items toks' (L ++ [t]) = (λ its, its ++ [(tok_kind tkt, s)]) <$> chain_items toks L.
Proof.
  intros Hnd HpL Hp Hp' Hoth Ht Hs. rewrite (chain_items_snoc _ _ _ tkt s) by done. f_equal.
  by apply (relinked_prefix _ _ _ p t tkp).
Qed.

(** The view of the builder after the relinking. *)
Lemma relinked_view h h' g gr grB l' l0 p t tkp tkt s items :
  gremlins h' !! g = Some (set_bottom grB t) → top grB = top gr → return_var grB = return_var gr →
  l0 ++ [p] = top gr :: l' → chain (tokens h') (Some (top gr)) (l0 ++ [p; t]) →
  tokens h !! p = Some tkp → tokens h' !! p = Some (set_tok_next tkp (Some t)) →
  (∀ i, i ∈ l0 ++ [p] → i ≠ p → tokens h' !! i = tokens h !! i) →
  tokens h' !! t = Some tkt → token_text tkt = Some s → chain_items (tokens h) (l0 ++ [p]) = Some items →
  builder_view h' g = Some (return_var gr, items ++ [(tok_kind tkt, s)]).
Proof.
  intros Hg Htop Hrv HL Hc Hp Hp' Hoth Ht Hs Hi.
  apply builder_view_spec. exists (set_bottom grB t), (l' ++ [t]).
  assert (Hc' : chain (tokens h') (Some (top gr)) (top gr :: l' ++ [t]))
    by (by rewrite app_comm_cons, <-HL, <-app_assoc).
  split_and!; [done|done|split; [cbn; by rewrite Htop|cbn; by rewrite app_comm_cons, last_snoc]|].
  cbn [top set_bottom]. rewrite Htop, app_comm_cons, <-HL.
  rewrite (relinked_items (tokens h) _ _ p _ tkp tkt s); [by rewrite Hi|..|done|done|done|done|done].
  - rewrite <-app_assoc. by eapply chain_NoDup.
  - set_solver.
Qed.

(** [__call__] on a builder whose chain is [l0 ++ [p; b]] ([b] its last
    token, with text [s]): what the run leaves in the heap. *)
Lemma call_run_facts f h g gr l0 p tkp tkb s args :
  gremlins h !! g = Some gr → fresh_ids h → chain (tokens h) (Some (top gr)) ((l0 ++ [p]) ++ [bottom gr]) →
  tokens h !! bottom gr = Some tkb → token_text tkb = Some s → tokens h !! p = Some tkp →
  parent gr = None → fresh_counter gr → Forall (fresh_arg gr) args →
  let names := gen_names (bound_param gr) (bound_count gr) (length args) in
  let grB := bound_many gr (length args) (zip names args) in
  let tkt := mkToken Function g (VStr s) (VStr <$> names) None in
  ∃ h', gremlin_call (S (S f)) g args h = (inr (), h') ∧
    gremlins h' = <[g:=set_bottom grB (next_id h)]> (<[g:=grB]> (gremlins h)) ∧
    chain (tokens h') (Some (top gr)) (l0 ++ [p; next_id h]) ∧
    tokens h' !! p = Some (set_tok_next tkp (Some (next_id h))) ∧
    (∀ i, i ∈ l0 ++ [p] → i ≠ p → tokens h' !! i = tokens h !! i) ∧
    tokens h' !! next_id h = Some tkt ∧ next_id h' = S (next_id h) ∧
    (∀ i, is_Some (tokens h' !! i) → is_Some (tokens h !! i) ∨ i = next_id h).
Proof.
  intros Hg Hf Hc Hbt Hs Hpt Hp Hfc Ha names grB tkt.
  pose proof (chain_NoDup _ _ _ Hc) as Hnd. apply NoDup_app in Hnd as (_ & Hd & _).
  assert (Hfresh : ∀ i, i ∈ (l0 ++ [p]) ++ [bottom gr] → i ≠ next_id h).
  { intros i Hin ->. assert (next_id h < next_id h); [|lia].
    apply (fresh_ids_token h); [done|]. by eapply chain_in_dom. }
  rewrite (call_function_run f h g gr (bottom gr) tkb s args Hg eq_refl Hbt Hs Hp Hfc Ha).
  set (h2 := heap_set_token (heap_set_gremlin (bump (heap_set_token h (bottom gr) (rendered_token tkb))) g grB)
               (next_id h) tkt).
  destruct (call_relink_run h2 g grB l0 p (bottom gr) (next_id h) tkp (rendered_token tkb) tkt)
    as (h' & Hrun & Hgr & Hc' & Hp' & Hoth & Hnext & Hdom); try done.
  { cbn. apply lookup_insert_eq. }
  { cbn. apply chain_insert_other; [intros Hin; by apply (Hfresh (next_id h)); [rewrite <-app_assoc|]|].
    rewrite <-app_assoc in Hc. apply (chain_insert_same_next _ _ _ _ tkb); [done|apply rendered_token_next|done]. }
  { cbn. apply lookup_insert_eq. }
  { intros Hin. by apply (Hfresh (next_id h)); [rewrite <-app_assoc|]. }
  { cbn. rewrite lookup_insert_ne by (apply not_eq_sym, Hfresh; set_solver).
    rewrite lookup_insert_ne; [done|]. intros Heq. apply (Hd p); set_solver. }
  { cbn. rewrite lookup_insert_ne by (apply not_eq_sym, Hfresh; set_solver). apply lookup_insert_eq. }
  exists h'. split_and!; try done.
  - intros i Hin Hip. rewrite Hoth by (done || (intros Heq; apply (Hd i Hin); rewrite <-Heq; set_solver)).
    cbn. rewrite lookup_insert_ne by (apply not_eq_sym, Hfresh; set_solver).
    rewrite lookup_insert_ne; [done|]. intros Heq. apply (Hd i Hin). rewrite <-Heq. set_solver.
  - rewrite Hoth; [cbn; apply lookup_insert_eq| |]; apply not_eq_sym, Hfresh; set_solver.
  - intros i. rewrite Hdom. cbn. rewrite !lookup_insert_is_Some'. intros [<-|[<-|?]]; [by right|left|by left].
    by exists tkb.
Qed.

(** [__call__] on the view, with the builder it leaves. *)
Lemma gremlin_call_run f h g gr rv items k s args :
  builder_view h g = Some (rv, items ++ [(k, s)]) → items ≠ [] → fresh_ids h →
  gremlins h !! g = Some gr → parent gr = None → fresh_counter gr → Forall (fresh_arg gr) args →
  let names := gen_names (bound_param gr) (bound_count gr) (length args) in
  ∃ h', gremlin_call (S (S f)) g args h = (inr (), h') ∧
    builder_view h' g = Some (rv, items ++ [(Function, s +:+ "(" +:+ py_join ", " names +:+ ")")]) ∧
    gremlins h' = <[g:=set_bottom (bound_many gr (length args) (zip names args)) (next_id h)]> (gremlins h) ∧
    fresh_ids h'.
Proof.
  intros Hv Hne Hf Hg Hp Hfc Ha names.
  apply builder_view_spec in Hv as (gr' & l & Hg' & <- & [Hc Hl] & Hi). rewrite Hg in Hg'. injection Hg' as <-.
  apply last_Some in Hl as [L HL]. rewrite HL in Hi, Hc.
  destruct (chain_items_app_inv _ _ _ _ _ _ Hi) as (tkb & Hbt & <- & Hs & HiL).
  assert (HL0 : L ≠ []) by (intros ->; injection HiL as <-; done).
  destruct (cons_app_split _ _ _ _ HL HL0) as [l' HL'].
  destruct (exists_last HL0) as [l0 [p ->]].
  destruct (chain_in_dom _ _ _ p Hc) as [tkp Hpt]; [set_solver|].
  destruct (call_run_facts f h g gr l0 p tkp tkb s args) as (h' & Hrun & Hgr & Hc' & Hp' & Hoth & Ht & Hnext & Hdom);
    try done.
  exists h'. split_and!; [done| | |].
  - apply (relinked_view h h' g gr (bound_many gr (length args) (zip names args)) l' l0 p (next_id h) tkp
             (mkToken Function g (VStr s) (VStr <$> names) None)); try done.
    + by rewrite Hgr, lookup_insert_eq.
    + cbn. by rewrite mapM_plain_VStr.
  - by rewrite Hgr, insert_insert_eq.
  - apply (fresh_ids_grow h); [done|lia| |].
    + intros i. rewrite Hgr. rewrite !lookup_insert_is_Some'. intros [->|[->|?]]; left; [by exists gr..|done].
    + intros i Hi'. destruct (Hdom i Hi') as [?| ->]; [by left|right; lia].
Qed.

(** C4: [g.<name>(args)] on a builder whose last token is the attribute
    [name] replaces that token by a [Function] token whose name is the
    attribute's text and whose arguments are ALL bound, each under the
    next generated placeholder, in order: the view's last item becomes
    [name(GPY_PARAM_<seed>_<c+1>, ..., GPY_PARAM_<seed>_<c+n>)] and the
    builder's dict gains the [n] bindings.  (The docstring of
    [Function] and the tests expect only the last argument bound.) *)
Theorem gremlin_call_binds_all f h g gr rv items k s args :
  builder_view h g = Some (rv, items ++ [(k, s)]) → items ≠ [] → fresh_ids h →
  gremlins h !! g = Some gr → parent gr = None → fresh_counter gr → Forall (fresh_arg gr) args →
  let names := gen_names (bound_param gr) (bound_count gr) (length args) in
  ∃ h', gremlin_call (S (S f)) g args h = (inr (), h') ∧
    builder_view h' g = Some (rv, items ++ [(Function, s +:+ "(" +:+ py_join ", " names +:+ ")")]) ∧
    (bound_params <$> gremlins h' !! g) = Some (bound_params gr ++ zip names args).
Proof.
  intros Hv Hne Hf Hg Hp Hfc Ha names.
  destruct (gremlin_call_run f h g gr rv items k s args Hv Hne Hf Hg Hp Hfc Ha) as (h' & Hrun & Hv' & Hgr & _).
  exists h'. split_and!; [done|done|]. by rewrite Hgr, lookup_insert_eq.
Qed.



(** [Gremlin().function('one', 'two')] (the test
    [test_can_add_functon_two_args]). *)
Lemma gremlin_call_binds_all_witness :
  ∃ h', gremlin_call 2 0 [VStr "one"; VStr "two"] call_heap = (inr (), h') ∧
    builder_view h' 0 =
      Some (None, [(GraphVariable, "g")] ++
                  [(Function, "function" +:+ "(" +:+ py_join ", " (gen_names "abcde" 0 2) +:+ ")")]) ∧
    (bound_params <$> gremlins h' !! 0) = Some ([] ++ zip (gen_names "abcde" 0 2) [VStr "one"; VStr "two"]).
Proof.
  apply (gremlin_call_binds_all 0 call_heap 0 call_gremlin None [(GraphVariable, "g")] Attribute "function");
    [vm_compute; reflexivity|discriminate|apply (bool_decide_unpack _); vm_compute; reflexivity
    |reflexivity|reflexivity|intros c _; apply not_elem_of_nil|].
  repeat constructor; [apply not_elem_of_nil|intros c; vm_compute; discriminate
                      |apply not_elem_of_nil|intros c; vm_compute; discriminate].
Defined.

(** [Gremlin.func(name, *args)] and [func_raw]: a token that binds all
    its arguments is appended. *)
Lemma func_binds_view f h g gr rv items k name args :
  can_bind_of k = true → builder_view h g = Some (rv, items) → fresh_ids h →
  gremlins h !! g = Some gr → parent gr = None → fresh_counter gr → Forall (fresh_arg gr) args →
  let names := gen_names (bound_param gr) (bound_count gr) (length args) in
  ∃ h', (t ← token_init (S f) k g (VStr name) (Some args); add_token g t) h = (inr (), h') ∧
    builder_view h' g = Some (rv, items ++ [(k, name +:+ "(" +:+ py_join ", " names +:+ ")")]) ∧
    gremlins h' = <[g:=set_bottom (bound_many gr (length args) (zip names args)) (next_id h)]> (gremlins h) ∧
    fresh_ids h'.
Proof.
  intros Hk Hv Hf Hg Hp Hfc Ha names.
  set (grB := bound_many gr (length args) (zip names args)).
  set (hX := heap_set_gremlin h g grB).
  assert (HsX : same_shape h hX) by (by apply (same_shape_set_gremlin _ _ gr)).
  destruct (add_new_token_view hX g rv items (mkToken k g (VStr name) (VStr <$> names) None)
              (name +:+ "(" +:+ py_join ", " names +:+ ")")) as (h' & Hrun & Hv' & Hf' & _ & _ & _ & Hg').
  { by rewrite (builder_view_same_shape h hX). }
  { by apply (fresh_ids_same_shape h). }
  { done. }
  { destruct k; try discriminate Hk; cbn; by rewrite mapM_plain_VStr. }
  exists h'. split_and!; [|done| |done].
  - rewrite (run_bind_ok _ _ _ _ _ (token_init_binds f h g gr k name args Hk Hg Hp Hfc Ha)). exact Hrun.
  - rewrite (Hg' grB (heap_set_gremlin_lookup_eq _ _ _)). unfold hX. cbn. by rewrite insert_insert_eq.
Qed.

Lemma builder_view_nonempty h g rv items : builder_view h g = Some (rv, items) → items ≠ [].
Proof.
  intros (gr & l & _ & _ & _ & Hi)%builder_view_spec ->.
  by destruct (chain_items_cons _ _ _ _ Hi) as (? & ? & ? & _ & _ & _ & ?).
Qed.

(** C29: the two ways of writing a bound function step are equivalent:
    [g.name( *args)] ([__getattr__] then [__call__], which replaces the
    attribute token) and [g.func('name', *args)] leave the same chain
    text and the same bindings, under the same placeholder names. *)
Theorem call_after_getattr_is_func f h g gr rv items name args :
  builder_view h g = Some (rv, items) → fresh_ids h →
  gremlins h !! g = Some gr → parent gr = None → fresh_counter gr → Forall (fresh_arg gr) args →
  ∃ h1 h2 gr1 gr2,
    (gremlin_getattr (S (S f)) g name;; gremlin_call (S (S f)) g args) h = (inr (), h1) ∧
    func (S (S f)) g (VStr name) args h = (inr (), h2) ∧
    builder_view h1 g = builder_view h2 g ∧
    gremlins h1 !! g = Some gr1 ∧ gremlins h2 !! g = Some gr2 ∧
    bound_params gr1 = bound_params gr2 ∧ bound_count gr1 = bound_count gr2.
Proof.
  intros Hv Hf Hg Hp Hfc Ha.
  destruct (gremlin_getattr_view (S (S f)) h g rv items name Hv Hf) as (h' & Hr1 & Hv1 & Hf1 & _ & _ & _ & Hg1).
  set (gr' := set_bottom gr (next_id h)).
  assert (Hg' : gremlins h' !! g = Some gr') by (by rewrite (Hg1 gr Hg), lookup_insert_eq).
  destruct (gremlin_call_run f h' g gr' rv items Attribute name args Hv1 (builder_view_nonempty _ _ _ _ Hv)
              Hf1 Hg' Hp Hfc Ha) as (h1 & Hr2 & Hv2 & Hgs2 & _).
  destruct (func_binds_view (S f) h g gr rv items Function name args eq_refl Hv Hf Hg Hp Hfc Ha)
    as (h2 & Hr3 & Hv3 & Hgs3 & _).
  do 4 eexists. split_and!.
  - rewrite (run_bind_ok _ _ _ _ _ Hr1). exact Hr2.
  - exact Hr3.
  - by rewrite Hv2, Hv3.
  - by rewrite Hgs2, lookup_insert_eq.
  - by rewrite Hgs3, lookup_insert_eq.
  - done.
  - done.
Qed.

Lemma call_after_getattr_is_func_witness :
  ∃ h1 h2 gr1 gr2,
    (gremlin_getattr 2 0 "has";; gremlin_call 2 0 [VStr "name"; VStr "marko"]) call_heap = (inr (), h1) ∧
    func 2 0 (VStr "has") [VStr "name"; VStr "marko"] call_heap = (inr (), h2) ∧
    builder_view h1 0 = builder_view h2 0 ∧
    gremlins h1 !! 0 = Some gr1 ∧ gremlins h2 !! 0 = Some gr2 ∧
    bound_params gr1 = bound_params gr2 ∧ bound_count gr1 = bound_count gr2.
Proof.
  apply (call_after_getattr_is_func 0 call_heap 0 call_gremlin None
           [(GraphVariable, "g"); (Attribute, "function")]);
    [vm_compute; reflexivity|apply (bool_decide_unpack _); vm_compute; reflexivity
    |reflexivity|reflexivity|intros c _; apply not_elem_of_nil|].
  repeat constructor; [apply not_elem_of_nil|intros c; vm_compute; discriminate
                      |apply not_elem_of_nil|intros c; vm_compute; discriminate].
Defined.

(** ** Every scalar argument becomes a parameter *)

(** The values [fix_value] binds when asked to: [str], [bool] and the
    Python 2 [int]s (a [long] passes through). *)
Definition scalar (a : pyval) : bool :=
  match a with VStr _ | VBool _ => true | VInt z => py_int_range z | _ => false end.

(** An argument as a [Function] token stores it after binding: the name
    of one of the builder's parameters. *)
Definition is_param (gr : gremlin) (a : pyval) : Prop :=
  ∃ n, a = VStr n ∧ n ∈ dict_keys (bound_params gr).

(** [bind_param(v)] on a top-level builder, for any scalar [v]: a key of
    the dict ([v] itself when it is one, a generated name otherwise). *)
Lemma bind_param_top fuel h g gr v :
  gremlins h !! g = Some gr → parent gr = None → scalar v = true →
  ∃ n x, bind_param (S fuel) g v None h = (inr (n, x), heap_set_gremlin h g (bound_gremlin gr n x)).
Proof.
  intros Hg Hp Hv. rewrite (bind_param_unfold _ _ _ _ _ _ Hg), Hp.
  unfold bind_resolve. destruct v as [s|z|z|b| | | | | | |]; try discriminate; cbn [dict_lookup_value py_hashable].
  - destruct (dict_get _ s); cbn; by do 2 eexists.
  - by do 2 eexists.
  - by do 2 eexists.
Qed.

Lemma fix_value_param fuel h g gr a :
  gremlins h !! g = Some gr → parent gr = None → scalar a = true →
  ∃ n x, fix_value (S fuel) (FixToken g) a true h = (inr (VStr n), heap_set_gremlin h g (bound_gremlin gr n x)).
Proof.
  intros Hg Hp Ha. destruct (bind_param_top fuel h g gr a Hg Hp Ha) as (n & x & Hb).
  exists n, x. destruct a; try discriminate; cbn [fix_value]; by rewrite (run_bind_ok _ _ _ _ _ Hb).
Qed.

(** [self.fix_value(tuple(args), can_bind=True)] on scalars: every
    argument comes back as a parameter of the builder. *)
Lemma fix_args_params fuel g args : ∀ h gr,
  gremlins h !! g = Some gr → parent gr = None → forallb scalar args = true →
  ∃ args' gr', fix_args (S fuel) (FixToken g) args true h = (inr args', heap_set_gremlin h g gr') ∧
    length args' = length args ∧ Forall (is_param gr') args' ∧
    dict_keys (bound_params gr) ⊆ dict_keys (bound_params gr') ∧ parent gr' = None ∧
    bottom gr' = bottom gr.
Proof.
  unfold fix_args. induction args as [|a args IH]; intros h gr Hg Hp Ha; cbn [py_map].
  - exists [], gr. rewrite heap_set_gremlin_id by done. done.
  - apply andb_prop in Ha as [Ha Has].
    destruct (fix_value_param fuel h g gr a Hg Hp Ha) as (n & x & Hfv).
    set (gr1 := bound_gremlin gr n x).
    destruct (IH (heap_set_gremlin h g gr1) gr1 (heap_set_gremlin_lookup_eq _ _ _) Hp Has)
      as (args' & gr2 & Hrun & Hlen & Hall & Hsub & Hp2 & Hb2).
    destruct (dict_keys_set (bound_params gr) n x) as [Hn Hsub1].
    exists (VStr n :: args'), gr2. rewrite (run_bind_ok _ _ _ _ _ Hfv), (run_bind_ok _ _ _ _ _ Hrun).
    rewrite heap_set_gremlin_twice. split_and!; [done|cbn; lia| |set_solver|done|done].
    constructor; [|done]. exists n. split; [done|]. by apply Hsub.
Qed.

(** C33: [Function] tokens carry no raw value (the guard of the
    injection tests): [g.func(name, *args)] on a top-level builder with
    scalar arguments of any kind (fresh values, strings that are
    already placeholders, integers in the range of Python 2's [int],
    booleans) succeeds, and the token it
    links last holds one argument per argument given, each the name of
    a parameter of the builder's [bound_params]. *)
Theorem func_scalar_args_bound f h g gr name args :
  fresh_ids h → gremlins h !! g = Some gr → parent gr = None → is_Some (tokens h !! bottom gr) →
  forallb scalar args = true →
  ∃ h' gr' args', func (S f) g (VStr name) args h = (inr (), h') ∧
    gremlins h' !! g = Some gr' ∧ bottom gr' = next_id h ∧
    tokens h' !! next_id h = Some (mkToken Function g (VStr name) args' None) ∧
    length args' = length args ∧ Forall (is_param gr') args'.
Proof.
  intros Hf Hg Hp [tkb Hb] Ha.
  destruct (fix_args_params f g args (bump h) gr Hg Hp Ha) as (args' & gr1 & Hfa & Hlen & Hall & _ & _ & Hb1).
  set (t := next_id h). set (tk := mkToken Function g (VStr name) args' None).
  assert (Hbt : bottom gr ≠ t).
  { intros Heq. assert (bottom gr < next_id h); [|unfold t in Heq; lia]. apply (fresh_ids_token h); [done|by eexists]. }
  set (h2 := heap_set_token (heap_set_gremlin (bump h) g gr1) t tk).
  assert (Htok : token_init (S f) Function g (VStr name) (Some args) h = (inr t, h2)).
  { unfold token_init.
    rewrite (run_bind_ok _ _ _ _ _ (eq_refl : alloc_id h = (inr (next_id h), bump h))).
    rewrite (run_bind_ok _ _ _ _ _ (fix_value_inert _ _ (VStr name) eq_refl _)).
    by rewrite (run_bind_ok _ _ _ _ _ Hfa), (run_bind_ok _ _ _ _ _ (store_token_run _ _ _)). }
  assert (Hg2 : gremlins h2 !! g = Some gr1) by apply heap_set_gremlin_lookup_eq.
  assert (Hb2 : tokens h2 !! bottom gr1 = Some tkb)
    by (rewrite Hb1; unfold h2; cbn; by rewrite lookup_insert_ne by done).
  eexists _, (set_bottom gr1 t), args'. split_and!.
  - unfold func. rewrite (run_bind_ok _ _ _ _ _ Htok). unfold add_token.
    rewrite (run_bind_ok _ _ _ _ _ (load_gremlin_run _ _ _ Hg2)).
    rewrite (run_bind_ok _ _ _ _ _ (update_token_run _ _ _ _ Hb2)). apply store_gremlin_run.
  - apply heap_set_gremlin_lookup_eq.
  - done.
  - cbn. rewrite Hb1, lookup_insert_ne by done. apply lookup_insert_eq.
  - done.
  - eapply Forall_impl; [exact Hall|]. by intros x.
Qed.

Lemma func_scalar_args_bound_witness :
  ∃ h' gr' args', func 2 0 (VStr "has") [VStr "GPY_PARAM_abcde_1"; VInt 3; VBool true] render_sample_heap = (inr (), h') ∧
    gremlins h' !! 0 = Some gr' ∧ bottom gr' = 4 ∧
    tokens h' !! 4 = Some (mkToken Function 0 (VStr "has") args' None) ∧
    length args' = 3 ∧ Forall (is_param gr') args'.
Proof.
  apply (func_scalar_args_bound 1 render_sample_heap 0 render_sample_gremlin);
    [apply (bool_decide_unpack _); vm_compute; reflexivity|reflexivity|reflexivity|by eexists|reflexivity].
Defined.

(** ** A Python 2 [long] is never bound *)

(** [fix_value] keeps a [long] whatever the binding mode:
    [isinstance(value, (int, str, unicode, float, bool))] is false. *)
Lemma fix_args_longs fuel self zs cb h : fix_args fuel self (map VLong zs) cb h = (inr (map VLong zs), h).
Proof.
  unfold fix_args. induction zs as [|z zs IH]; [done|]. cbn [map py_map].
  rewrite (run_bind_ok _ _ _ _ _ (eq_refl : fix_value fuel self (VLong z) cb h = (inr (VLong z), h))).
  by rewrite (run_bind_ok _ _ _ _ _ IH).
Qed.

Lemma mapM_plain_VLong zs : mapM plain_str (map VLong zs) = Some (map pretty zs).
Proof. induction zs as [|z zs IH]; [done|]. cbn. by rewrite IH. Qed.

(** C38: [g.func(name, *args)] with Python 2 [long] arguments (such as
    [2 ** 63], [int_of_Z]) binds none of them: the [Function] token
    keeps the raw values, the view's last item is [name(<digits>, ...)],
    and the builder's dict is unchanged.  The spec (section 4.5) binds
    every number. *)
Theorem func_long_args_unbound f h g gr rv items name zs :
  builder_view h g = Some (rv, items) → fresh_ids h → gremlins h !! g = Some gr →
  ∃ h', func f g (VStr name) (map VLong zs) h = (inr (), h') ∧
    builder_view h' g = Some (rv, items ++ [(Function, name +:+ "(" +:+ py_join ", " (map pretty zs) +:+ ")")]) ∧
    (bound_params <$> gremlins h' !! g) = Some (bound_params gr).
Proof.
  intros Hv Hf Hg. set (tk := mkToken Function g (VStr name) (map VLong zs) None).
  assert (Htok : token_init f Function g (VStr name) (Some (map VLong zs)) h =
                   (inr (next_id h), heap_set_token (bump h) (next_id h) tk)).
  { unfold token_init.
    rewrite (run_bind_ok _ _ _ _ _ (eq_refl : alloc_id h = (inr (next_id h), bump h))).
    rewrite (run_bind_ok _ _ _ _ _ (fix_value_inert _ _ (VStr name) eq_refl _)).
    cbn [default id]. by rewrite (run_bind_ok _ _ _ _ _ (fix_args_longs _ _ _ _ _)). }
  destruct (add_new_token_view h g rv items tk (name +:+ "(" +:+ py_join ", " (map pretty zs) +:+ ")") Hv Hf)
    as (h' & Hrun & Hv' & _ & _ & _ & _ & Hg');
    [done|cbn; by rewrite mapM_plain_VLong|].
  exists h'. split_and!; [|done|].
  - unfold func. by rewrite (run_bind_ok _ _ _ _ _ Htok).
  - rewrite (Hg' gr Hg), lookup_insert_eq. done.
Qed.

(** [g.has(2 ** 63)] on [g]: the text is [g.has(9223372036854775808)]
    and nothing is bound. *)
Lemma func_long_args_unbound_witness :
  int_of_Z (2 ^ 63) = VLong (2 ^ 63) ∧
  ∃ h', func 2 0 (VStr "has") (map VLong [(2 ^ 63)%Z]) render_sample_heap = (inr (), h') ∧
    builder_view h' 0 = Some (None, [(GraphVariable, "g"); (Attribute, "a"); (Function, "f(GPY_PARAM_abcde_1)")] ++
      [(Function, "has" +:+ "(" +:+ py_join ", " (map pretty [(2 ^ 63)%Z]) +:+ ")")]) ∧
    (bound_params <$> gremlins h' !! 0) = Some (bound_params render_sample_gremlin).
Proof.
  split; [vm_compute; reflexivity|].
  apply (func_long_args_unbound 2 render_sample_heap 0 render_sample_gremlin None
           [(GraphVariable, "g"); (Attribute, "a"); (Function, "f(GPY_PARAM_abcde_1)")]);
    [vm_compute; reflexivity|apply (bool_decide_unpack _); vm_compute; reflexivity|reflexivity].
Defined.
