(* ===== verification/Refine.v ===== *)
(** * Refine: the builder surface refines an abstract builder

    An abstract builder ([abs_builder]) is what a caller can observe of a
    [Gremlin] object: its [return_var], the kinds and texts of its
    tokens in order, its [bound_params], its seed and its counter.
    [abs_step] gives the effect of each operation of the fluent surface
    ([op]) on it, as list and dict operations: an attribute, index,
    closure, raw text or unbound function appends one item; a call
    replaces the last item by a function whose arguments are the next
    generated placeholders and appends their bindings; the two setters
    change the prefix or the first item.  [abs_of h g a] relates a heap
    to the abstract builder of its builder [g].  The simulation theorem
    [run_op_refines] shows that every operation of the model
    ([run_op], the methods of [Builder]) implements [abs_step]; with
    [Render.gremlin_str_spec] it gives the text of any program of such
    operations ([program_str]).  [abs_step] is [None] outside the cases
    covered: a call right after the graph variable, arguments that are
    not fresh scalars, values whose text runs code. *)

From S2P Require Import Prelude PyDict PyValue State Binder Chain Render Predicates Builder Shape Call.
#[local] Open Scope string_scope.

(** The operations of the fluent surface a program applies to a builder. *)
Inductive op :=
  | OGetattr (name : string)                        (* g.name *)
  | OCall (args : list pyval)                       (* g(args) *)
  | OGetitem (key : pyval)                          (* g[key] *)
  | OFunc (function : string) (args : list pyval)
  | OFuncRaw (function : string) (args : list pyval)
  | OUnbound (function : string) (args : list string)
  | OFuncRawUnbound (function : string) (args : list string)
  | OClose (body : string) (args : list string)
  | ORaw (value : string)
  | OSetRetVariable (return_var : option string)
  | OSetGraphVariable (graph_variable : string).

(** The method of [Gremlin] each operation calls. *)
Definition run_op (fuel : nat) (g : nat) (o : op) : M unit :=
  match o with
  | OGetattr a => gremlin_getattr fuel g a
  | OCall args => gremlin_call fuel g args
  | OGetitem key => gremlin_getitem fuel g key
  | OFunc f args => func fuel g (VStr f) args
  | OFuncRaw f args => func_raw fuel g (VStr f) args
  | OUnbound f args => unbound fuel g (VStr f) (map VStr args)
  | OFuncRawUnbound f args => func_raw_unbound fuel g (VStr f) (map VStr args)
  | OClose b args => close fuel g (VStr b) (map VStr args)
  | ORaw s => raw fuel g (VStr s)
  | OSetRetVariable r => set_ret_variable g r
  | OSetGraphVariable s => set_graph_variable g (Some s)
  end.

Definition run_ops (fuel : nat) (g : nat) (os : list op) : M unit := py_iter (run_op fuel g) os.

Record abs_builder := AbsBuilder {
  ab_ret : option string;
  ab_items : list (tkind * string);
  ab_params : dict pyval;
  ab_seed : string;
  ab_count : nat
}.

Definition set_items (a : abs_builder) (items : list (tkind * string)) : abs_builder :=
  AbsBuilder (ab_ret a) items (ab_params a) (ab_seed a) (ab_count a).

(** A scalar the binder stores under a fresh name, decided: not a key of
    the dict and not a string with the placeholder prefix; an integer
    is a Python 2 [int]. *)
Definition fresh_arg_b (params : dict pyval) (a : pyval) : bool :=
  match a with
  | VStr s => negb (String.prefix PARAM_PREFIX s) && negb (dict_mem params s)
  | VInt z => py_int_range z
  | VBool _ => true
  | _ => false
  end.

(** The item of a token of kind [k] with value [v] and arguments [args]. *)
Definition plain_item (k : tkind) (v : pyval) (args : list pyval) : option (tkind * string) :=
  s ← token_text (mkToken k 0 v args None); Some (k, s).

Definition append_item (a : abs_builder) (it : option (tkind * string)) : option abs_builder :=
  (λ i, set_items a (ab_items a ++ [i])) <$> it.

(** A token of kind [k] named [fn] that binds all its arguments. *)
Definition bind_append (a : abs_builder) (k : tkind) (fn : string) (args : list pyval) : option abs_builder :=
  if forallb (fresh_arg_b (ab_params a)) args then
    let names := gen_names (ab_seed a) (ab_count a) (length args) in
    Some (AbsBuilder (ab_ret a) (ab_items a ++ [(k, fn +:+ "(" +:+ py_join ", " names +:+ ")")])
           (ab_params a ++ zip names args)%list (ab_seed a) (ab_count a + length args))
  else None.

(** The effect of one operation on the abstract builder. *)
Definition abs_step (a : abs_builder) (o : op) : option abs_builder :=
  match o with
  | OGetattr x =>
      (* g.x is an attribute token only when Python calls __getattr__ *)
      if reaches_getattr x then Some (set_items a (ab_items a ++ [(Attribute, x)])) else None
  | OCall args =>
      match py_pop (ab_items a) with
      | Some (items, (_, s)) =>
          if decide (items = []) then None
          else if forallb (fresh_arg_b (ab_params a)) args then
            let names := gen_names (ab_seed a) (ab_count a) (length args) in
            Some (AbsBuilder (ab_ret a) (items ++ [(Function, s +:+ "(" +:+ py_join ", " names +:+ ")")])
                   (ab_params a ++ zip names args)%list (ab_seed a) (ab_count a + length args))
          else None
      | None => None
      end
  | OGetitem key => append_item a (plain_item Index (getitem_slice key) [])
  | OFunc fn args => bind_append a Function fn args
  | OFuncRaw fn args => bind_append a FunctionRaw fn args
  | OUnbound f args => append_item a (plain_item UnboudFunction (VStr f) (map VStr args))
  | OFuncRawUnbound f args => append_item a (plain_item UnboudFunctionRaw (VStr f) (map VStr args))
  | OClose b args =>
      if decide (args = []) then append_item a (plain_item Closure (VStr b) [])
      else append_item a (plain_item ClosureArguments (VStr b) (map VStr args))
  | ORaw s => append_item a (plain_item Raw (VStr s) [])
  | OSetRetVariable r => Some (AbsBuilder r (ab_items a) (ab_params a) (ab_seed a) (ab_count a))
  | OSetGraphVariable s =>
      match ab_items a with
      | (GraphVariable, _) :: rest => Some (set_items a ((GraphVariable, s) :: rest))
      | _ => None
      end
  end.

Fixpoint abs_run (a : abs_builder) (os : list op) : option abs_builder :=
  match os with
  | [] => Some a
  | o :: os' => a' ← abs_step a o; abs_run a' os'
  end.

(** [Gremlin(gv)] with the seed [seed]. *)
Definition abs_init (gv seed : string) : abs_builder := AbsBuilder None [(GraphVariable, gv)] [] seed 0.

(** The text the abstract builder promises. *)
Definition abs_text (a : abs_builder) : string := view_text (ab_ret a, ab_items a).

(** The heap [h] holds, at [g], a top-level builder whose abstraction is [a]. *)
Definition abs_of (h : heap) (g : nat) (a : abs_builder) : Prop :=
  fresh_ids h ∧ builder_view h g = Some (ab_ret a, ab_items a) ∧
  ∃ gr, gremlins h !! g = Some gr ∧ parent gr = None ∧ bound_params gr = ab_params a ∧
    bound_param gr = ab_seed a ∧ bound_count gr = ab_count a ∧ fresh_counter gr.

(** [g.V().has('name', 'marko').out('knows')[0:2].close('it.age').func('limit', 10)]
    on a fresh heap. *)
Definition sample_program : list op :=
  [OGetattr "V"; OCall []; OGetattr "has"; OCall [VStr "name"; VStr "marko"];
   OGetattr "out"; OCall [VStr "knows"]; OGetitem (VList [VInt 0; VInt 2]); OClose "it.age" [];
   OFunc "limit" [VInt 10]].

(** ** The abstraction of one builder *)

Lemma prefix_app s t : String.prefix s (s +:+ t) = true.
Proof. induction s as [|c s IH]; [by destruct t|]. rewrite string_app_cons. cbn. by destruct (Ascii.ascii_dec c c). Qed.

Lemma fresh_arg_b_sound gr a : fresh_arg_b (bound_params gr) a = true → fresh_arg gr a.
Proof.
  destruct a as [s| | | | | | | | | |]; try done. cbn.
  intros [Hp Hm]%andb_prop. apply negb_true_iff in Hp, Hm. split.
  - intros Hin. apply dict_get_in_keys, dict_mem_get in Hin. congruence.
  - intros c ->. unfold param_name in Hp. by rewrite prefix_app in Hp.
Qed.

Lemma token_text_gremlin k g v args : token_text (mkToken k g v args None) = token_text (mkToken k 0 v args None).
Proof. by destruct k. Qed.

Lemma fresh_counter_set_bottom gr t : fresh_counter gr → fresh_counter (set_bottom gr t).
Proof. done. Qed.

(** Appending a token whose value and arguments [fix_value] keeps. *)
Lemma abs_append_run f h g a k v args s :
  abs_of h g a → inert v = true → forallb inert (default [] args) = true →
  (can_bind_of k = false ∨ args = None ∨ args = Some []) →
  plain_item k v (default [] args) = Some (k, s) →
  ∃ h', (t ← token_init f k g v args; add_token g t) h = (inr (), h') ∧
    abs_of h' g (set_items a (ab_items a ++ [(k, s)])).
Proof.
  intros (Hf & Hv & gr & Hg & Hp & Hpar & Hseed & Hcnt & Hfc) Hi Ha Hk Hs.
  unfold plain_item in Hs. rewrite <-(token_text_gremlin k g) in Hs.
  destruct (token_text _) as [s'|] eqn:Ht; [|done]. injection Hs as <-.
  destruct (token_init_add_view f h g _ _ k v args s' Hv Hf Hi Ha Hk Ht) as (h' & Hrun & Hv' & Hf' & Hg').
  exists h'. split; [done|]. split_and!; [done|done|].
  exists (set_bottom gr (next_id h)). rewrite (Hg' gr Hg), lookup_insert_eq. by split_and!.
Qed.

Lemma getitem_slice_inert key : inert (getitem_slice key) = true.
Proof. by destruct key. Qed.

Lemma map_VStr_nil ss : map VStr ss = [] ↔ ss = [].
Proof. by destruct ss. Qed.

Lemma zip_keys_elem (l1 : list string) (l2 : list pyval) x : x ∈ dict_keys (zip l1 l2) → x ∈ l1.
Proof.
  unfold dict_keys. revert l2. induction l1 as [|y l1 IH]; intros [|z l2]; cbn; try set_solver.
Qed.

Lemma gen_names_elem seed c n x : x ∈ gen_names seed c n → ∃ i, c < i ≤ c + n ∧ x = param_name seed i.
Proof.
  revert c. induction n as [|n IH]; intros c; cbn; [set_solver|].
  rewrite elem_of_cons. intros [->|Hx]; [exists (S c); split; [lia|done]|].
  destruct (IH (S c) Hx) as (i & Hi & ->). exists i. split; [lia|done].
Qed.

(** Binding [n] fresh arguments keeps the counter's names fresh. *)
Lemma fresh_counter_bound_many gr args t :
  fresh_counter gr →
  let names := gen_names (bound_param gr) (bound_count gr) (length args) in
  fresh_counter (set_bottom (bound_many gr (length args) (zip names args)) t).
Proof.
  intros Hf names c Hc. cbn in Hc |- *. unfold dict_keys. rewrite fmap_app, elem_of_app. intros [Hin|Hin].
  - revert Hin. apply Hf. lia.
  - apply zip_keys_elem, gen_names_elem in Hin as (i & Hi & Heq). apply param_name_inj in Heq. lia.
Qed.

(** ** One operation *)

Lemma fresh_args_sound gr args :
  forallb (fresh_arg_b (bound_params gr)) args = true → Forall (fresh_arg gr) args.
Proof.
  intros Hargs. apply Forall_forall. intros x Hx. apply fresh_arg_b_sound.
  apply (proj1 (forallb_forall _ _) Hargs). by apply list_elem_of_In.
Qed.

Lemma abs_func_run f h g a k fn args a' :
  can_bind_of k = true → abs_of h g a → bind_append a k fn args = Some a' →
  ∃ h', (t ← token_init (S (S f)) k g (VStr fn) (Some args); add_token g t) h = (inr (), h') ∧ abs_of h' g a'.
Proof.
  intros Hk (Hf & Hv & gr & Hg & Hp & Hpar & Hseed & Hcnt & Hfc). unfold bind_append.
  destruct (forallb _ args) eqn:Hargs; [|done]. intros [= <-].
  rewrite <-Hpar in Hargs. apply fresh_args_sound in Hargs.
  destruct (func_binds_view (S f) h g gr _ _ k fn args Hk Hv Hf Hg Hp Hfc Hargs) as (h' & Hrun & Hv' & Hg' & Hf').
  exists h'. split; [done|]. rewrite <-Hseed, <-Hcnt, <-Hpar. split_and!; [done|done|].
  eexists. rewrite Hg', lookup_insert_eq. split_and!; [done|done|done|done|cbn; lia|].
  by apply fresh_counter_bound_many.
Qed.

Lemma abs_call_run f h g a args a' :
  abs_of h g a → abs_step a (OCall args) = Some a' →
  ∃ h', gremlin_call (S (S f)) g args h = (inr (), h') ∧ abs_of h' g a'.
Proof.
  intros (Hf & Hv & gr & Hg & Hp & Hpar & Hseed & Hcnt & Hfc). cbn.
  destruct (py_pop (ab_items a)) as [[items [k s]]|] eqn:Hpop; [|done].
  apply py_pop_Some in Hpop. rewrite Hpop in Hv.
  case_decide as Hne; [done|]. destruct (forallb _ args) eqn:Hargs; [|done]. intros [= <-].
  assert (Ha : Forall (fresh_arg gr) args) by (apply fresh_args_sound; by rewrite Hpar).
  destruct (gremlin_call_run f h g gr _ items k s args Hv Hne Hf Hg Hp Hfc Ha) as (h' & Hrun & Hv' & Hg' & Hf').
  exists h'. split; [done|]. rewrite <-Hseed, <-Hcnt, <-Hpar. split_and!; [done|done|].
  eexists. rewrite Hg', lookup_insert_eq. split_and!; [done|done|done|done|cbn; lia|].
  by apply fresh_counter_bound_many.
Qed.

Lemma abs_set_ret_run h g a r :
  abs_of h g a → ∃ h', set_ret_variable g r h = (inr (), h') ∧
    abs_of h' g (AbsBuilder r (ab_items a) (ab_params a) (ab_seed a) (ab_count a)).
Proof.
  intros (Hf & Hv & gr & Hg & Hp & Hpar & Hseed & Hcnt & Hfc).
  destruct (set_ret_variable_view h g _ _ r Hv Hf) as (h' & Hrun & Hv' & Hf' & Hg').
  exists h'. split; [done|]. split_and!; [done|done|].
  exists (set_return_var gr r). by rewrite (Hg' gr Hg), lookup_insert_eq.
Qed.

Lemma abs_set_gv_run h g a s x rest :
  abs_of h g a → ab_items a = (GraphVariable, x) :: rest →
  ∃ h', set_graph_variable g (Some s) h = (inr (), h') ∧ abs_of h' g (set_items a ((GraphVariable, s) :: rest)).
Proof.
  intros (Hf & Hv & gr & Hg & Hp & Hpar & Hseed & Hcnt & Hfc) Hi. rewrite Hi in Hv.
  destruct (set_graph_variable_view h g _ x rest s Hv Hf) as (h' & Hrun & Hv' & Hf' & Hg').
  exists h'. split; [done|]. split_and!; [done|done|]. exists gr. by rewrite Hg'.
Qed.

(** The operations that append one token. *)
Lemma abs_append_op f h g a o a' :
  abs_of h g a → abs_step a o = Some a' →
  (∃ x, o = OGetattr x) ∨ (∃ key, o = OGetitem key) ∨ (∃ fn args, o = OUnbound fn args) ∨
  (∃ fn args, o = OFuncRawUnbound fn args) ∨ (∃ b args, o = OClose b args) ∨ (∃ s, o = ORaw s) →
  ∃ h', run_op (S (S f)) g o h = (inr (), h') ∧ abs_of h' g a'.
Proof.
  intros Ha Hs Ho.
  assert (Happ : ∀ k v args, inert v = true → forallb inert (default [] args) = true →
            (can_bind_of k = false ∨ args = None ∨ args = Some []) →
            append_item a (plain_item k v (default [] args)) = Some a' →
            ∃ h', (t ← token_init (S (S f)) k g v args; add_token g t) h = (inr (), h') ∧ abs_of h' g a').
  { intros k v args Hv Hargs Hk. unfold append_item.
    destruct (plain_item k v (default [] args)) as [[k' s]|] eqn:Hp; [|done]. intros [= <-].
    assert (k' = k) as -> by (unfold plain_item in Hp; destruct (token_text _); by simplify_eq/=).
    exact (abs_append_run (S (S f)) h g a k v args s Ha Hv Hargs Hk Hp). }
  destruct Ho as [[x ->]|[[key ->]|[(fn & args & ->)|[(fn & args & ->)|[(b & args & ->)|[s ->]]]]]];
    cbn in Hs |- *.
  - apply (Happ Attribute (VStr x) None); [done|done|by left|]. destruct (reaches_getattr x); [|done]. by injection Hs as <-.
  - by apply (Happ Index _ None); [apply getitem_slice_inert|done|left|].
  - by apply (Happ UnboudFunction _ (Some (map VStr args))); [|apply forallb_inert_VStr|left|].
  - by apply (Happ UnboudFunctionRaw _ (Some (map VStr args))); [|apply forallb_inert_VStr|left|].
  - unfold close. destruct args as [|x args]; cbn in Hs |- *.
    + by apply (Happ Closure _ None); [|done|left|].
    + by apply (Happ ClosureArguments _ (Some (map VStr (x :: args)))); [|apply forallb_inert_VStr|left|].
  - by apply (Happ Raw _ None); [|done|left|].
Qed.

(** One operation simulates its abstract effect. *)
Lemma op_sim f h g a o a' :
  abs_of h g a → abs_step a o = Some a' →
  ∃ h', run_op (S (S f)) g o h = (inr (), h') ∧ abs_of h' g a'.
Proof.
  intros Ha Hs. destruct o as [x|args|key|fn args|fn args|fn args|fn args|b args|s|r|s].
  - apply (abs_append_op f h g a _ a' Ha Hs). left. by eexists.
  - by apply (abs_call_run f h g a args a').
  - apply (abs_append_op f h g a _ a' Ha Hs). right; left. by eexists.
  - by apply (abs_func_run f h g a Function fn args a').
  - by apply (abs_func_run f h g a FunctionRaw fn args a').
  - apply (abs_append_op f h g a _ a' Ha Hs). do 2 right; left. by do 2 eexists.
  - apply (abs_append_op f h g a _ a' Ha Hs). do 3 right; left. by do 2 eexists.
  - apply (abs_append_op f h g a _ a' Ha Hs). do 4 right; left. by do 2 eexists.
  - apply (abs_append_op f h g a _ a' Ha Hs). do 5 right. by eexists.
  - injection Hs as <-. by apply (abs_set_ret_run h g a r).
  - cbn in Hs. destruct (ab_items a) as [|[[] x] rest] eqn:Hi; try done.
    injection Hs as <-. by apply (abs_set_gv_run h g a s x rest).
Qed.

Lemma run_ops_refines f g os : ∀ h a a',
  abs_of h g a → abs_run a os = Some a' →
  ∃ h', run_ops (S (S f)) g os h = (inr (), h') ∧ abs_of h' g a'.
Proof.
  unfold run_ops. induction os as [|o os IH]; intros h a a' Ha Hr; cbn in Hr.
  - injection Hr as <-. by exists h.
  - destruct (abs_step a o) as [a1|] eqn:Hs; [|done]. cbn in Hr.
    destruct (op_sim f h g a o a1 Ha Hs) as (h1 & Hrun1 & Ha1).
    destruct (IH h1 a1 a' Ha1 Hr) as (h2 & Hrun2 & Ha2).
    exists h2. cbn [py_iter]. by rewrite (run_bind_ok _ _ _ _ _ Hrun1).
Qed.

(** C2: every operation of the fluent surface implements its abstract
    effect: from a heap holding a top-level builder [g] abstracted by
    [a], an operation [o] with [abs_step a o = Some a'] runs without
    error, leaves a heap holding [g] abstracted by [a'] (a simulation
    of [abs_step] by [run_op]), and [str(g)] is then the abstract text
    of [a']. *)
Theorem run_op_refines f h g a o a' :
  abs_of h g a → abs_step a o = Some a' →
  ∃ h', run_op (S (S f)) g o h = (inr (), h') ∧ abs_of h' g a' ∧
    (gremlin_str (S (S (S f))) g h').1 = inr (abs_text a').
Proof.
  intros Ha Hs. destruct (op_sim f h g a o a' Ha Hs) as (h' & Hrun & Ha').
  exists h'. split_and!; [done|done|]. apply gremlin_str_view, Ha'.
Qed.

Lemma abs_of_init gv h :
  fresh_ids h → ∃ h', gremlin_init gv h = (inr (next_id h), h') ∧
    abs_of h' (next_id h) (abs_init gv (py_tail 5 (uuids h (uuid_count h)))).
Proof.
  intros Hf. destruct (gremlin_init_view gv h Hf) as (h' & Hrun & Hv & Hf' & Hg).
  exists h'. split; [done|]. split_and!; [done|done|]. eexists. split; [exact Hg|]. split_and!; try done.
  intros c _. apply not_elem_of_nil.
Qed.

(** C3: the text of any program of the fluent surface applied to a new
    builder [Gremlin(gv)] is the text of the abstract builder the
    program computes, whenever [abs_step] covers every operation: the
    builder surface and the renderer together implement the abstract
    specification. *)
Theorem program_str f gv os h a' :
  fresh_ids h → abs_run (abs_init gv (py_tail 5 (uuids h (uuid_count h)))) os = Some a' →
  ((g ← gremlin_init gv; run_ops (S (S f)) g os;; gremlin_str (S (S (S f))) g) h).1 = inr (abs_text a').
Proof.
  intros Hf Hr. destruct (abs_of_init gv h Hf) as (h1 & Hrun1 & Ha1).
  destruct (run_ops_refines f _ os h1 _ a' Ha1 Hr) as (h2 & Hrun2 & (_ & Hv2 & _)).
  rewrite (run_bind_ok _ _ _ _ _ Hrun1). cbv beta. rewrite (run_bind_ok _ _ _ _ _ Hrun2).
  by rewrite (gremlin_str_view _ _ _ _ Hv2).
Qed.

Lemma run_op_refines_witness :
  ∃ h' a', abs_step (abs_init "g" "fffff") (OGetattr "V") = Some a' ∧
    run_op 2 (next_id (heap_empty (λ _, "fffff"))) (OGetattr "V")
      (gremlin_init "g" (heap_empty (λ _, "fffff"))).2 = (inr (), h') ∧
    abs_of h' (next_id (heap_empty (λ _, "fffff"))) a' ∧
    (gremlin_str 3 (next_id (heap_empty (λ _, "fffff"))) h').1 = inr (abs_text a').
Proof.
  destruct (abs_of_init "g" (heap_empty (λ _, "fffff"))) as (h1 & Hrun & Ha);
    [apply (bool_decide_unpack _); vm_compute; reflexivity|].
  rewrite Hrun. cbn [snd].
  destruct (run_op_refines 0 h1 _ _ (OGetattr "V") _ Ha eq_refl) as (h' & Hr & Ha' & Ht).
  exists h'. eexists. split_and!; [reflexivity|exact Hr|exact Ha'|exact Ht].
Defined.

Lemma program_str_witness :
  fresh_ids (heap_empty (λ _, "fffff")) ∧
  abs_run (abs_init "g" "fffff") sample_program =
    Some (AbsBuilder None
      [(GraphVariable, "g"); (Function, "V()"); (Function, "has(GPY_PARAM_fffff_1, GPY_PARAM_fffff_2)");
       (Function, "out(GPY_PARAM_fffff_3)"); (Index, "[0..2]"); (Closure, "{it.age}");
       (Function, "limit(GPY_PARAM_fffff_4)")]
      [("GPY_PARAM_fffff_1", VStr "name"); ("GPY_PARAM_fffff_2", VStr "marko");
       ("GPY_PARAM_fffff_3", VStr "knows"); ("GPY_PARAM_fffff_4", VInt 10)] "fffff" 4) ∧
  ((g ← gremlin_init "g"; run_ops 2 g sample_program;; gremlin_str 3 g) (heap_empty (λ _, "fffff"))).1 =
    inr "g.V().has(GPY_PARAM_fffff_1, GPY_PARAM_fffff_2).out(GPY_PARAM_fffff_3)[0..2]{it.age}.limit(GPY_PARAM_fffff_4)".
Proof.
  split_and!; [apply (bool_decide_unpack _); vm_compute; reflexivity|vm_compute; reflexivity|].
  apply (program_str 0 "g" sample_program (heap_empty (λ _, "fffff"))
           (AbsBuilder None
      [(GraphVariable, "g"); (Function, "V()"); (Function, "has(GPY_PARAM_fffff_1, GPY_PARAM_fffff_2)");
       (Function, "out(GPY_PARAM_fffff_3)"); (Index, "[0..2]"); (Closure, "{it.age}");
       (Function, "limit(GPY_PARAM_fffff_4)")]
      [("GPY_PARAM_fffff_1", VStr "name"); ("GPY_PARAM_fffff_2", VStr "marko");
       ("GPY_PARAM_fffff_3", VStr "knows"); ("GPY_PARAM_fffff_4", VInt 10)] "fffff" 4));
    [apply (bool_decide_unpack _); vm_compute; reflexivity|vm_compute; reflexivity].
Defined.
