(* ===== verification/Statement.v ===== *)
(** * Statement: the declarative statement collaborator

    statement.py is not part of the sources.  The core calls it in two
    places: [Gremlin.apply_statement] (gremlin.py lines 247-250) and
    [_Tokenable.apply_statement] (lines 261-267).  Section 6 of the
    spec states the contract the core needs from it: a statement is
    attached to a builder ([set_gremlin]) and then applies its prebuilt
    fragment to that builder ([build]).

    - The class [Statement] states that interface, with the one law the
      code relies on: after [set_gremlin s g] the statement's builder is
      [g].  The two [apply_statement] methods are defined against it,
      and [_Tokenable.apply_statement] is proved for every instance.
    - [ops_statement] is a statement whose prebuilt fragment is a
      program of builder operations of [Refine]; [Gremlin.apply_statement]
      on it is proved to refine the program, through
      [Refine.run_ops_refines].

    The Python statement object is mutated in place by [set_gremlin], so
    the methods return its new state beside their result. *)

From S2P Require Import Prelude PyDict PyValue State Binder Chain Render Builder Shape Call Refine.
#[local] Open Scope string_scope.

(** What the core calls on a statement. *)
Class Statement (St : Type) := {
  st_gremlin : St → option nat;   (** [statement.gremlin], [None] when [hasattr] is false *)
  set_gremlin : St → nat → St;    (** [statement.set_gremlin(g)], which returns the statement *)
  build : nat → St → M unit;      (** [statement.build()], with the recursion limit *)
  st_gremlin_set s g : st_gremlin (set_gremlin s g) = Some g
}.

Section apply.
Context `{Statement St}.

(** [Gremlin.apply_statement(statement)]:
    [statement.set_gremlin(self).build(); return self]. *)
Definition apply_statement (fuel : nat) (g : nat) (s : St) : M (nat * St) :=
  let s' := set_gremlin s g in
  build fuel s';;
  mret (g, s').

(** [_Tokenable.apply_statement(statement)]: a statement without a
    builder gets a new [Gremlin()], and the statement's builder is
    nested into the token's builder ([self.gremlin]). *)
Definition tokenable_apply_statement (fuel : nat) (self : fixer) (s : St) : M St :=
  s' ← (match st_gremlin s with
        | Some _ => mret s
        | None => g ← gremlin_init GRAPH_VARIABLE; mret (set_gremlin s g)
        end);
  match st_gremlin s' with
  | Some c => set_parent_gremlin fuel c (fixer_owner self);; mret s'
  | None => mthrow (AttributeError "gremlin")
  end.

End apply.

(** A statement whose fragment is a program of builder operations:
    [build] runs them on the statement's builder, and a statement with
    no builder raises [AttributeError] on [self.gremlin]. *)
Record ops_statement := OpsStatement { os_gremlin : option nat; os_ops : list op }.

Definition ops_build (fuel : nat) (s : ops_statement) : M unit :=
  match os_gremlin s with
  | Some g => run_ops fuel g (os_ops s)
  | None => mthrow (AttributeError "gremlin")
  end.

#[export] Instance ops_statement_statement : Statement ops_statement := {
  st_gremlin := os_gremlin;
  set_gremlin s g := OpsStatement (Some g) (os_ops s);
  build := ops_build;
  st_gremlin_set s g := eq_refl
}.

(** A statement applying [g.V.out('knows')] as a fragment. *)
Definition knows_statement : ops_statement := OpsStatement None [OGetattr "V"; OGetattr "out"; OCall [VStr "knows"]].

(** A heap holding one builder [g] (identity [0], token [10]) with one
    binding, the host of a token's [apply_statement]. *)
Definition statement_host_heap : heap :=
  mkHeap {[0 := nest_parent]} {[10 := mkToken GraphVariable 0 (VStr "g") [] None]} 11 (λ _, "fffff") 0.

(** ** [Gremlin.apply_statement] *)

(** C36: [g.apply_statement(s)] for a statement whose fragment is the
    program [ops]: whatever builder [s] was attached to before, the call
    attaches it to [g], returns [g], and runs the fragment on [g]; on a
    builder that implements the abstract builder [a], it succeeds and
    leaves a builder that implements [abs_run a ops], whose [str(g)] is
    the abstract text. *)
Theorem apply_statement_refines f h g a og ops a' :
  abs_of h g a → abs_run a ops = Some a' →
  ∃ h', apply_statement (S (S f)) g (OpsStatement og ops) h = (inr (g, OpsStatement (Some g) ops), h') ∧
    abs_of h' g a' ∧ (gremlin_str (S (S (S f))) g h').1 = inr (abs_text a').
Proof.
  intros Ha Hr. destruct (run_ops_refines f g ops h a a' Ha Hr) as (h' & Hb & Ha').
  exists h'. split_and!; [|done|apply gremlin_str_view, Ha'].
  unfold apply_statement. cbn [set_gremlin ops_statement_statement build].
  unfold ops_build. cbn [os_gremlin os_ops]. by rewrite (run_bind_ok _ _ _ _ _ Hb).
Qed.

(** ** [_Tokenable.apply_statement] *)

Section tokenable_spec.
Context `{Statement St}.

(** C37: a token's [apply_statement(s)] on a statement without a builder
    attaches a new [Gremlin()] to it (the next identity, whose view is
    the graph variable [g]) and nests that builder into the token's
    builder [g]: its parent is [g], it has no binding, and [g]'s
    bindings are unchanged. *)
Theorem tokenable_apply_statement_fresh f h g grp s :
  fresh_ids h → gremlins h !! g = Some grp → parent grp = None → st_gremlin s = None →
  ∃ h' grc, tokenable_apply_statement (S (S f)) (FixToken g) s h = (inr (set_gremlin s (next_id h)), h') ∧
    gremlins h' !! next_id h = Some grc ∧ parent grc = Some (OGremlin g) ∧ bound_params grc = [] ∧
    builder_view h' (next_id h) = Some (None, [(GraphVariable, GRAPH_VARIABLE)]) ∧
    (bound_params <$> gremlins h' !! g) = Some (bound_params grp).
Proof.
  intros Hf Hg Hp Hs.
  destruct (gremlin_init_view GRAPH_VARIABLE h Hf) as (h1 & Hrun & Hv & _ & Hc).
  assert (Hne : next_id h ≠ g).
  { intros Heq. assert (g < next_id h); [|lia]. apply (fresh_ids_gremlin h); [done|by eexists]. }
  assert (Hg1 : gremlins h1 !! g = Some grp).
  { pose proof (gremlin_init_frame GRAPH_VARIABLE h g (not_eq_sym Hne)) as Hfr.
    rewrite Hrun in Hfr. cbn [snd] in Hfr. by rewrite Hfr. }
  destruct (set_parent_gremlin_run f h1 (next_id h) g _ grp Hne Hc Hg1 Hp (NoDup_nil_2))
    as (h2 & grc & grp' & Hrun2 & Hc' & Hpc & Hpar & Hg' & _ & Hpg); [done|].
  assert (Hsh : same_shape h1 h2)
    by (pose proof (set_parent_gremlin_shape (S (S f)) (next_id h) (OGremlin g) h1) as Hk; by rewrite Hrun2 in Hk).
  exists h2, grc. split_and!; try done.
  - unfold tokenable_apply_statement. rewrite Hs.
    rewrite (run_bind_ok _ _ _ _ _ (run_bind_ok _ _ _ _ _ Hrun)). cbn [mret PyM_ret].
    rewrite (st_gremlin_set s (next_id h)). cbn [fixer_owner].
    by rewrite (run_bind_ok _ _ _ _ _ Hrun2).
  - by rewrite (builder_view_same_shape h1 h2).
  - rewrite Hg'. simpl. by rewrite Hpg.
Qed.

End tokenable_spec.

Lemma apply_statement_refines_witness :
  ∃ h' a', abs_run (abs_init "g" "fffff") (os_ops knows_statement) = Some a' ∧
    apply_statement 2 (next_id (heap_empty (λ _, "fffff"))) knows_statement
      (gremlin_init "g" (heap_empty (λ _, "fffff"))).2 =
      (inr (next_id (heap_empty (λ _, "fffff")),
            OpsStatement (Some (next_id (heap_empty (λ _, "fffff")))) (os_ops knows_statement)), h') ∧
    abs_of h' (next_id (heap_empty (λ _, "fffff"))) a' ∧
    (gremlin_str 3 (next_id (heap_empty (λ _, "fffff"))) h').1 = inr (abs_text a').
Proof.
  destruct (abs_of_init "g" (heap_empty (λ _, "fffff"))) as (h1 & Hrun & Ha);
    [apply (bool_decide_unpack _); vm_compute; reflexivity|].
  rewrite Hrun. cbn [snd].
  set (a' := default (abs_init "g" "fffff") (abs_run (abs_init "g" "fffff") (os_ops knows_statement))).
  destruct (apply_statement_refines 0 h1 _ _ None (os_ops knows_statement) a' Ha) as (h' & Hr & Ha' & Ht);
    [vm_compute; reflexivity|].
  exists h', a'. split_and!; [vm_compute; reflexivity|exact Hr|exact Ha'|exact Ht].
Defined.

Lemma tokenable_apply_statement_fresh_witness :
  ∃ h' grc, tokenable_apply_statement 2 (FixToken 0) knows_statement statement_host_heap =
      (inr (set_gremlin knows_statement (next_id statement_host_heap)), h') ∧
    gremlins h' !! next_id statement_host_heap = Some grc ∧ parent grc = Some (OGremlin 0) ∧
    bound_params grc = [] ∧
    builder_view h' (next_id statement_host_heap) = Some (None, [(GraphVariable, GRAPH_VARIABLE)]) ∧
    (bound_params <$> gremlins h' !! 0) = Some (bound_params nest_parent).
Proof.
  apply (tokenable_apply_statement_fresh 0 statement_host_heap 0 nest_parent knows_statement);
    [apply (bool_decide_unpack _); vm_compute; reflexivity|reflexivity|reflexivity|reflexivity].
Defined.
