(* ===== verification/Nest.v ===== *)
(** * Nest: a builder passed as an argument of another one

    [g.func('name', c)] with [c] a [Gremlin] (gremlin.py lines 188-191,
    269-285, 333-351): [Token.__init__] runs [fix_value] over the
    arguments, which calls [c.set_parent_gremlin(g)] (the child's
    bindings are copied into [g]); rendering [g] pops the argument,
    nests [c] again and appends [str(c)].  [g.name(c)] ([__call__],
    lines 117-121) takes the same path after rendering the attribute
    [name].  This file composes the
    binder ([Binder.set_parent_gremlin]), the chain operations and the
    renderer: the parent renders as its own text followed by
    [.name(<text of c>)], and the parent's dict ends as the overlay of
    the child's bindings on its own.

    The chains of the two builders are disjoint ([chain_of]), as they
    are in Python, where every builder creates its own tokens. *)

From S2P Require Import Prelude PyDict PyValue State Binder Chain Render Builder Shape Call.
#[local] Open Scope string_scope.

(** The tokens of the chain of builder [g], in order ([[]] when it has
    no well-formed chain). *)
Definition chain_of (h : heap) (g : nat) : list nat :=
  default [] (gr ← gremlins h !! g; chain_from (tokens h) (S (size (tokens h))) (Some (top gr))).

(** The condition under which nesting [c] into [p] copies every binding:
    no value of the child is a placeholder of the merged dict. *)
Definition nest_clear (grp grc : gremlin) : Prop :=
  ∀ k x, dict_get (bound_params grc) k = Some x →
    not_placeholder (overlay (bound_params grp) (bound_params grc)) x.

(** A parent [g.V] (identity [0], tokens [10], [11]) and a child
    [Gremlin('').out('knows')] already bound (identity [1], tokens [12],
    [13]). *)
Definition nest_sample_parent : gremlin := mkGremlin "g" 10 11 None [] "aaaaa" 0 None.
Definition nest_sample_child : gremlin :=
  mkGremlin "" 12 13 None [("GPY_PARAM_bbbbb_1", VStr "knows")] "bbbbb" 1 None.
Definition nest_sample_heap : heap :=
  mkHeap {[0 := nest_sample_parent; 1 := nest_sample_child]}
    {[10 := mkToken GraphVariable 0 (VStr "g") [] (Some 11);
      11 := mkToken Attribute 0 (VStr "V") [] None;
      12 := mkToken GraphVariable 1 (VStr "") [] (Some 13);
      13 := mkToken Function 1 (VStr "out") [VStr "GPY_PARAM_bbbbb_1"] None]}
    14 (λ _, "fffff") 2.

(** The same parent extended by the attribute [has] (token [14]):
    [g.V.has], ready for [__call__]. *)
Definition nest_call_parent : gremlin := mkGremlin "g" 10 14 None [] "aaaaa" 0 None.
Definition nest_call_heap : heap :=
  mkHeap {[0 := nest_call_parent; 1 := nest_sample_child]}
    {[10 := mkToken GraphVariable 0 (VStr "g") [] (Some 11);
      11 := mkToken Attribute 0 (VStr "V") [] (Some 14);
      12 := mkToken GraphVariable 1 (VStr "") [] (Some 13);
      13 := mkToken Function 1 (VStr "out") [VStr "GPY_PARAM_bbbbb_1"] None;
      14 := mkToken Attribute 0 (VStr "has") [] None]}
    15 (λ _, "fffff") 2.

(** ** Heaps that agree on shape *)

Lemma same_shape_lookup h h' g gr gr' :
  same_shape h h' → gremlins h !! g = Some gr → gremlins h' !! g = Some gr' → shape gr' = shape gr.
Proof.
  intros (_ & _ & _ & _ & Hs) Hg Hg'.
  assert (H : (shape <$> gremlins h') !! g = (shape <$> gremlins h) !! g) by (by rewrite Hs).
  rewrite !lookup_fmap, Hg, Hg' in H. by apply (inj Some) in H.
Qed.

Lemma shape_top gr gr' : shape gr' = shape gr → top gr' = top gr.
Proof. unfold shape. by intros [= _ ? _ _]. Qed.

Lemma shape_bottom gr gr' : shape gr' = shape gr → bottom gr' = bottom gr.
Proof. unfold shape. by intros [= _ _ ? _]. Qed.

Lemma shape_return_var gr gr' : shape gr' = shape gr → return_var gr' = return_var gr.
Proof. unfold shape. by intros [= _ _ _ ?]. Qed.

(** A builder's chain read in a heap of the same shape. *)
Lemma gremlin_chain_shape toks gr gr' l :
  shape gr' = shape gr → gremlin_chain toks gr l → gremlin_chain toks gr' l.
Proof. intros Hs [Hc Hl]. split; [by rewrite (shape_top _ _ Hs)|by rewrite (shape_top _ _ Hs), (shape_bottom _ _ Hs)]. Qed.

Lemma chain_of_spec h g gr l :
  gremlins h !! g = Some gr → gremlin_chain (tokens h) gr l → chain_of h g = top gr :: l.
Proof.
  intros Hg [Hc _]. unfold chain_of. rewrite Hg. cbn [mbind option_bind].
  rewrite (chain_from_complete _ _ _ _ Hc); [done|]. pose proof (chain_length_size _ _ _ Hc). lia.
Qed.

Lemma shape_set_bottom gr gr' b : shape gr' = shape gr → shape (set_bottom gr' b) = shape (set_bottom gr b).
Proof. unfold shape. intros [= ? ? ? ?]. by destruct gr, gr'; cbn in *; subst. Qed.

(** A chain whose tokens are unchanged in another map is a chain there. *)
Lemma chain_agree toks toks' p l :
  (∀ i, i ∈ l → toks' !! i = toks !! i) → chain toks p l → chain toks' p l.
Proof.
  intros Hag Hc. induction Hc as [|t tk l Ht Hc IH]; [constructor|].
  econstructor; [rewrite Hag; [exact Ht|set_solver]|]. apply IH. intros i Hi. apply Hag. set_solver.
Qed.

Lemma chain_items_agree_eq toks toks' l :
  (∀ i, i ∈ l → toks' !! i = toks !! i) → chain_items toks' l = chain_items toks l.
Proof. intros Hag. apply chain_items_agree. intros i Hi. by rewrite Hag. Qed.

(** ** Rendering a function over a nested builder *)

(** [Function.__unicode__] on [name(c)]: the argument is popped, [c] is
    nested again ([set_parent_gremlin]) and rendered, and its text
    becomes the argument. *)
Lemma token_str_nested F hR t g c name grc grp lc items :
  tokens hR !! t = Some (mkToken Function g (VStr name) [VGremlin c] None) →
  c ≠ g → gremlins hR !! c = Some grc → gremlins hR !! g = Some grp → parent grp = None →
  dict_wf (bound_params grc) → nest_clear grp grc →
  gremlin_chain (tokens hR) grc lc → chain_items (tokens hR) (top grc :: lc) = Some items →
  t ∉ top grc :: lc →
  let sc := ret_prefix (return_var grc) (spec_join None items) in
  ∃ h2 grp2 grc2,
    token_str (S (S (S (S (S (S F)))))) t hR = (inr (name +:+ "(" +:+ sc +:+ ")"), h2) ∧
    tokens h2 !! t = Some (mkToken Function g (VStr name) [VStr sc] None) ∧
    gremlins h2 !! g = Some grp2 ∧ shape grp2 = shape grp ∧ parent grp2 = None ∧
    bound_params grp2 = overlay (bound_params grp) (bound_params grc) ∧
    gremlins h2 !! c = Some grc2 ∧ parent grc2 = Some (OGremlin g) ∧ bound_params grc2 = bound_params grc ∧
    (∀ i, i ≠ t → i ∉ top grc :: lc → tokens h2 !! i = tokens hR !! i).
Proof.
  intros Ht Hne Hc Hg Hp Hwf Hclear Hch Hi Hnot sc.
  set (h' := heap_set_token hR t (mkToken Function g (VStr name) [] None)).
  destruct (set_parent_gremlin_run (S (S (S F))) h' c g grc grp Hne Hc Hg Hp Hwf Hclear)
    as (hS & grc' & grp' & Hrun & Hc' & Hpc' & Hpar' & Hg' & Hpp' & Hpg').
  assert (HsS : same_shape h' hS)
    by (pose proof (set_parent_gremlin_shape (S (S (S (S (S F))))) c (OGremlin g) h') as Hk; by rewrite Hrun in Hk).
  assert (Hshc : shape grc' = shape grc) by (by apply (same_shape_lookup h' hS c)).
  assert (Hshg : shape grp' = shape grp) by (by apply (same_shape_lookup h' hS g)).
  destruct HsS as (HtS & _).
  assert (HchS : gremlin_chain (tokens hS) grc' lc).
  { rewrite HtS. apply (gremlin_chain_shape _ grc); [done|]. destruct Hch as [Hch Hl].
    split; [|done]. by apply chain_insert_other. }
  assert (HiS : chain_items (tokens hS) (top grc' :: lc) = Some items)
    by (rewrite HtS, (shape_top _ _ Hshc); cbn [h' tokens heap_set_token]; by rewrite chain_items_insert_other).
  assert (Hnot' : t ∉ top grc' :: lc) by (by rewrite (shape_top _ _ Hshc)).
  pose proof (chain_NoDup _ _ _ (proj1 HchS)) as Hnd.
  set (hRR := render_heap hS (top grc' :: lc)).
  assert (HtRR : tokens hRR !! t = Some (mkToken Function g (VStr name) [] None)).
  { unfold hRR. rewrite render_heap_lookup_notin by done. rewrite HtS. apply heap_set_token_lookup_eq. }
  assert (HgRR : gremlins hRR = gremlins hS) by apply render_heap_fields.
  exists (heap_set_token hRR t (mkToken Function g (VStr name) [VStr sc] None)), grp', grc'.
  split_and!; try done.
  - cbn [token_str]. rewrite (run_bind_ok _ _ _ _ _ (load_token_run _ _ _ Ht)).
    cbn [tok_kind tok_args tok_gremlin tok_value tok_next py_pop last removelast set_tok_args].
    rewrite (run_bind_ok _ _ _ _ _ (store_token_run _ _ _)).
    change (heap_set_token hR t (set_tok_args _ [])) with h'.
    assert (Hm : (set_parent_gremlin (S (S (S (S (S F))))) c (OGremlin g) ≫=
                  (λ _, str_value (S (S (S (S (S F))))) (VGremlin c))) h' = (inr sc, hRR)).
    { rewrite (run_bind_ok _ _ _ _ _ Hrun). cbn [str_value].
      rewrite (gremlin_str_plain_run _ _ _ _ _ _ Hc' HchS HiS). by rewrite (shape_return_var _ _ Hshc). }
    rewrite (run_bind_ok _ _ _ _ _ Hm).
    rewrite (run_bind_ok _ _ _ _ _ (load_token_run _ _ _ HtRR)). cbn [tok_args tok_value set_tok_args app].
    rewrite (run_bind_ok _ _ _ _ _ (store_token_run _ _ _)).
    rewrite (run_bind_ok _ _ _ _ _ (py_map_str_plain _ _ [VStr sc] [sc] eq_refl)).
    by rewrite (run_bind_ok _ _ _ _ _ (str_value_plain _ _ (VStr name) name eq_refl)).
  - apply heap_set_token_lookup_eq.
  - cbn [gremlins heap_set_token]. by rewrite HgRR.
  - cbn [gremlins heap_set_token]. by rewrite HgRR.
  - intros i Hi1 Hi2. rewrite heap_set_token_lookup_ne by done. unfold hRR.
    rewrite render_heap_lookup_notin by (by rewrite (shape_top _ _ Hshc)). rewrite HtS.
    unfold h'. by rewrite heap_set_token_lookup_ne.
Qed.

(** ** Building a function over a nested builder *)

(** [Token.__init__] of a [Function] whose one argument is the builder
    [c]: [fix_value] nests [c] into the token's builder [g]. *)
Lemma token_init_nested f h g c name D hS :
  set_parent_gremlin (S (S f)) c (OGremlin g) (bump h) = (inr D, hS) →
  token_init (S (S f)) Function g (VStr name) (Some [VGremlin c]) h =
    (inr (next_id h), heap_set_token hS (next_id h) (mkToken Function g (VStr name) [VGremlin c] None)).
Proof.
  intros Hrun.
  assert (Ha : fix_args (S (S f)) (FixToken g) [VGremlin c] (can_bind_of Function) (bump h) = (inr [VGremlin c], hS)).
  { unfold fix_args. cbn [py_map fix_value fixer_owner].
    by rewrite (run_bind_ok _ _ _ _ _ (run_bind_ok _ _ _ _ _ Hrun)). }
  unfold token_init.
  rewrite (run_bind_ok _ _ _ _ _ (eq_refl : alloc_id h = (inr (next_id h), bump h))).
  rewrite (run_bind_ok _ _ _ _ _ (fix_value_inert _ _ (VStr name) eq_refl _)).
  by rewrite (run_bind_ok _ _ _ _ _ Ha), (run_bind_ok _ _ _ _ _ (store_token_run _ _ _)).
Qed.

(** [g.func(name, c)]: the argument [c] is nested into [g] (its
    bindings are copied), then the [Function] token is linked last. *)
Lemma func_nested_run f h g c name grp grc lg :
  c ≠ g → fresh_ids h → gremlins h !! g = Some grp → parent grp = None →
  gremlin_chain (tokens h) grp lg →
  gremlins h !! c = Some grc → dict_wf (bound_params grc) → nest_clear grp grc →
  ∃ h1 grp1 grc1, func (S (S f)) g (VStr name) [VGremlin c] h = (inr (), h1) ∧
    gremlins h1 !! g = Some grp1 ∧ shape grp1 = shape (set_bottom grp (next_id h)) ∧ parent grp1 = None ∧
    bound_params grp1 = overlay (bound_params grp) (bound_params grc) ∧
    gremlins h1 !! c = Some grc1 ∧ shape grc1 = shape grc ∧ parent grc1 = Some (OGremlin g) ∧
    bound_params grc1 = bound_params grc ∧
    gremlin_chain (tokens h1) grp1 (lg ++ [next_id h]) ∧
    chain_items (tokens h1) (top grp :: lg) = chain_items (tokens h) (top grp :: lg) ∧
    tokens h1 !! next_id h = Some (mkToken Function g (VStr name) [VGremlin c] None) ∧
    (∀ i, i ≠ next_id h → i ≠ bottom grp → tokens h1 !! i = tokens h !! i) ∧ fresh_ids h1.
Proof.
  intros Hne Hf Hg Hp Hch Hc Hwf Hclear.
  destruct (set_parent_gremlin_run f (bump h) c g grc grp Hne Hc Hg Hp Hwf Hclear)
    as (hS & grc' & grp' & Hrun & Hc' & Hpc' & Hpar' & Hg' & Hpp' & Hpg').
  assert (HsS : same_shape (bump h) hS)
    by (pose proof (set_parent_gremlin_shape (S (S f)) c (OGremlin g) (bump h)) as Hk; by rewrite Hrun in Hk).
  assert (Hshc : shape grc' = shape grc) by (by apply (same_shape_lookup (bump h) hS c)).
  assert (Hshg : shape grp' = shape grp) by (by apply (same_shape_lookup (bump h) hS g)).
  set (hX := mkHeap (gremlins hS) (tokens h) (next_id h) (uuids h) (uuid_count h)).
  assert (HbX : bump hX = hS).
  { destruct HsS as (Ht & Hn & Hu & Huc & _). destruct hS; cbn in *. by subst. }
  assert (HsX : same_shape h hX).
  { destruct HsS as (_ & _ & _ & _ & Hs). repeat split; done. }
  set (tk := mkToken Function g (VStr name) [VGremlin c] None).
  destruct (add_new_token_chain hX g grp' lg tk) as (h1 & Hrun1 & Hgs & Hc1 & Hi1 & Ht1 & Hf1 & _ & _ & _ & Hfr);
    [done|by apply (gremlin_chain_shape _ grp)|by apply (fresh_ids_same_shape h)|done|].
  exists h1, (set_bottom grp' (next_id h)), grc'. split_and!; try done.
  - unfold func. rewrite (run_bind_ok _ _ _ _ _ (token_init_nested f h g c name _ hS Hrun)), <-HbX. exact Hrun1.
  - by rewrite Hgs, lookup_insert_eq.
  - by apply shape_set_bottom.
  - by rewrite Hgs, lookup_insert_ne by done.
  - revert Hi1. cbn [tokens hX]. by rewrite (shape_top _ _ Hshg).
  - intros i Hne1 Hne2. rewrite Hfr; [done|done|]. by rewrite (shape_bottom _ _ Hshg).
Qed.

(** [g.name(c)] ([__call__] with a builder argument) on a builder whose
    chain is [l0 ++ [p; b]] and whose last token [b] has text [s]: [b] is
    rendered, the [Function] token [s(c)] nests [c] into [g] and takes
    [b]'s place after [p]. *)
Lemma call_nested_run f h g c grp grc l0 p tkp tkb s :
  c ≠ g → fresh_ids h → gremlins h !! g = Some grp → parent grp = None →
  chain (tokens h) (Some (top grp)) ((l0 ++ [p]) ++ [bottom grp]) →
  tokens h !! bottom grp = Some tkb → token_text tkb = Some s → tokens h !! p = Some tkp →
  gremlins h !! c = Some grc → dict_wf (bound_params grc) → nest_clear grp grc →
  ∃ h1 grp1 grc1, gremlin_call (S (S f)) g [VGremlin c] h = (inr (), h1) ∧
    gremlins h1 !! g = Some (set_bottom grp1 (next_id h)) ∧ shape grp1 = shape grp ∧ parent grp1 = None ∧
    bound_params grp1 = overlay (bound_params grp) (bound_params grc) ∧
    gremlins h1 !! c = Some grc1 ∧ shape grc1 = shape grc ∧ parent grc1 = Some (OGremlin g) ∧
    bound_params grc1 = bound_params grc ∧
    chain (tokens h1) (Some (top grp)) (l0 ++ [p; next_id h]) ∧
    tokens h1 !! p = Some (set_tok_next tkp (Some (next_id h))) ∧
    tokens h1 !! next_id h = Some (mkToken Function g (VStr s) [VGremlin c] None) ∧
    (∀ i, i ≠ p → i ≠ bottom grp → i ≠ next_id h → tokens h1 !! i = tokens h !! i) ∧
    (∀ i, i ∈ (l0 ++ [p])%list → i ≠ p → tokens h1 !! i = tokens h !! i).
Proof.
  intros Hne Hf Hg Hp Hc Hbt Hs Hpt Hgc Hwf Hcl.
  pose proof (chain_NoDup _ _ _ Hc) as Hnd. apply NoDup_app in Hnd as (_ & Hd & _).
  assert (Hfresh : ∀ i, i ∈ ((l0 ++ [p]) ++ [bottom grp])%list → i ≠ next_id h).
  { intros i Hin ->. assert (next_id h < next_id h); [|lia].
    apply (fresh_ids_token h); [done|]. by eapply chain_in_dom. }
  assert (Hpb : p ≠ bottom grp) by (intros Heq; apply (Hd p); set_solver).
  set (hB := heap_set_token h (bottom grp) (rendered_token tkb)).
  destruct (set_parent_gremlin_run f (bump hB) c g grc grp Hne Hgc Hg Hp Hwf Hcl)
    as (hS & grc' & grp' & Hrun & Hc' & Hpc' & Hpar' & Hg' & Hpp' & Hpg').
  assert (HsS : same_shape (bump hB) hS)
    by (pose proof (set_parent_gremlin_shape (S (S f)) c (OGremlin g) (bump hB)) as Hk; by rewrite Hrun in Hk).
  assert (Hshc : shape grc' = shape grc) by (by apply (same_shape_lookup (bump hB) hS c)).
  assert (Hshg : shape grp' = shape grp) by (by apply (same_shape_lookup (bump hB) hS g)).
  destruct HsS as (HtS & _).
  set (tk := mkToken Function g (VStr s) [VGremlin c] None).
  set (h2 := heap_set_token hS (next_id h) tk).
  assert (Hl2 : ∀ i, i ≠ next_id h → tokens h2 !! i = <[bottom grp:=rendered_token tkb]> (tokens h) !! i).
  { intros i Hi. cbn [h2 tokens heap_set_token]. rewrite lookup_insert_ne by done. by rewrite HtS. }
  destruct (call_relink_run h2 g grp' l0 p (bottom grp) (next_id h) tkp (rendered_token tkb) tk)
    as (h' & Hrun2 & Hgr & Hc'' & Hp'' & Hoth & _ & _).
  { done. }
  { apply (shape_bottom _ _ Hshg). }
  { cbn [h2 tokens heap_set_token]. rewrite HtS, (shape_top _ _ Hshg).
    apply chain_insert_other; [intros Hin; by apply (Hfresh (next_id h)); [rewrite <-app_assoc|]|].
    rewrite <-app_assoc in Hc. apply (chain_insert_same_next _ _ _ _ tkb); [done|apply rendered_token_next|done]. }
  { apply heap_set_token_lookup_eq. }
  { done. }
  { intros Hin. by apply (Hfresh (next_id h)); [rewrite <-app_assoc|]. }
  { rewrite Hl2 by (apply Hfresh; set_solver). by rewrite lookup_insert_ne. }
  { rewrite Hl2 by (apply Hfresh; set_solver). apply lookup_insert_eq. }
  exists h', grp', grc'. split_and!; try done.
  - unfold gremlin_call.
    rewrite (run_bind_ok _ _ _ _ _ (load_gremlin_run _ _ _ Hg)), (run_bind_ok _ _ _ _ _ (token_str_plain _ _ _ _ _ Hbt Hs)).
    rewrite (run_bind_ok _ _ _ _ _ (token_init_nested f hB g c s _ hS Hrun)).
    rewrite (run_bind_ok _ _ _ _ _ (load_gremlin_run h2 g grp' Hg')), (shape_bottom _ _ Hshg). exact Hrun2.
  - by rewrite Hgr, lookup_insert_eq.
  - by rewrite Hgr, lookup_insert_ne.
  - by rewrite <-(shape_top _ _ Hshg).
  - rewrite Hoth by (apply not_eq_sym, Hfresh; set_solver). apply heap_set_token_lookup_eq.
  - intros i Hi1 Hi2 Hi3. rewrite Hoth, Hl2 by done. by rewrite lookup_insert_ne.
  - intros i Hin Hip. assert (i ≠ bottom grp) by (intros ->; by apply (Hd (bottom grp)); [|set_solver]).
    rewrite Hoth, Hl2 by (done || (apply Hfresh; set_solver)). by rewrite lookup_insert_ne.
Qed.

Lemma overlay_clear grp grc D :
  dict_wf (bound_params grc) → D = overlay (bound_params grp) (bound_params grc) →
  nest_clear grp grc → ∀ grp' grc', bound_params grp' = D → bound_params grc' = bound_params grc →
  nest_clear grp' grc'.
Proof.
  intros Hwf HD Hcl grp' grc' Hp Hc k x. rewrite Hc, Hp, HD, overlay_twice by done. apply Hcl.
Qed.

(** Rendering a parent whose chain ends in [name(c)], once the child
    [c] is nested: [str(g)] is the parent's items followed by
    [name(<str(c)>)], and [g]'s dict ends as the overlay.  Shared by the
    two ways to build such a token, [g.func(name, c)] and [g.name(c)]. *)
Lemma nested_str_after f h h1 g c grp grc grp1 grc1 lg lc t name itemsg itemsc :
  c ≠ g → gremlins h1 !! g = Some grp1 → top grp1 = top grp → return_var grp1 = return_var grp →
  parent grp1 = None → bound_params grp1 = overlay (bound_params grp) (bound_params grc) →
  gremlin_chain (tokens h1) grp1 (lg ++ [t]) → chain_items (tokens h1) (top grp :: lg) = Some itemsg →
  tokens h1 !! t = Some (mkToken Function g (VStr name) [VGremlin c] None) →
  gremlins h1 !! c = Some grc1 → shape grc1 = shape grc → bound_params grc1 = bound_params grc →
  gremlin_chain (tokens h) grc lc → chain_items (tokens h) (top grc :: lc) = Some itemsc →
  (∀ i, i ∈ top grc :: lc → tokens h1 !! i = tokens h !! i) → t ∉ top grc :: lc →
  (∀ i, i ∈ top grp :: lg → i ∉ top grc :: lc) →
  dict_wf (bound_params grc) → nest_clear grp grc →
  let item := (Function, name +:+ "(" +:+ view_text (return_var grc, itemsc) +:+ ")") in
  ∃ h2 grp2 grc2,
    gremlin_str (S (S (S (S (S (S (S f))))))) g h1 =
      (inr (view_text (return_var grp, (itemsg ++ [item])%list)), h2) ∧
    gremlins h2 !! g = Some grp2 ∧ bound_params grp2 = overlay (bound_params grp) (bound_params grc) ∧
    gremlins h2 !! c = Some grc2 ∧ parent grc2 = Some (OGremlin g) ∧
    gremlin_chain (tokens h2) grp2 (lg ++ [t]) ∧ return_var grp2 = return_var grp ∧
    chain_items (tokens h2) (top grp2 :: lg ++ [t]) = Some (itemsg ++ [item])%list.
Proof.
  intros Hne Hg1 Htop1 Hrv1 Hp1 Hd1 Hch1 Hi1 Ht1 Hc1 Hsc1 Hdc1 Hchc Hic Hcin Htc Hgd Hwf Hcl item.
  set (hR := render_heap h1 (top grp1 :: lg)).
  assert (Hnd : NoDup (top grp1 :: lg ++ [t])) by (rewrite app_comm_cons; apply (chain_NoDup _ _ _ (proj1 Hch1))).
  assert (Htl : t ∉ top grp1 :: lg).
  { rewrite app_comm_cons in Hnd. apply NoDup_app in Hnd as (_ & Hd & _). intros Hin. apply (Hd _ Hin). set_solver. }
  assert (Hndl : NoDup (top grp1 :: lg)) by (rewrite app_comm_cons in Hnd; by apply NoDup_app in Hnd as (? & _)).
  assert (HchR : gremlin_chain (tokens hR) grc1 lc).
  { apply (gremlin_chain_shape _ grc); [done|]. destruct Hchc as [Hchc Hl]. split; [|done].
    apply render_heap_chain; [done|]. by apply (chain_agree (tokens h)). }
  assert (HiR : chain_items (tokens hR) (top grc1 :: lc) = Some itemsc).
  { rewrite (shape_top _ _ Hsc1). apply render_heap_items; [done|]. by rewrite (chain_items_agree_eq (tokens h)). }
  assert (HtR : tokens hR !! t = Some (mkToken Function g (VStr name) [VGremlin c] None))
    by (unfold hR; by rewrite render_heap_lookup_notin).
  destruct (render_heap_fields h1 (top grp1 :: lg)) as (HgR & _).
  destruct (token_str_nested f hR t g c name grc1 grp1 lc itemsc HtR Hne)
    as (h2 & grp2 & grc2 & Hts & Ht2 & Hg2 & Hsg2 & _ & Hd2 & Hc2 & Hpc2 & _ & Hfr2);
    [unfold hR; by rewrite HgR|unfold hR; by rewrite HgR|done|by rewrite Hdc1
    |by apply (overlay_clear grp grc (bound_params grp1))|done|done|by rewrite (shape_top _ _ Hsc1)|].
  assert (Hrv2 : return_var grp2 = return_var grp1) by (by apply shape_return_var).
  assert (Hag : ∀ i, i ∈ top grp1 :: lg → tokens h2 !! i = tokens hR !! i).
  { intros i Hi. apply Hfr2; [intros ->; by apply Htl|]. rewrite (shape_top _ _ Hsc1).
    apply Hgd. by rewrite <-Htop1. }
  unfold item. exists h2, grp2, grc2. split_and!; [| done | | done | done | | by rewrite Hrv2, Hrv1 | ].
  - assert (Hi1' : chain_items (tokens h1) (top grp1 :: lg) = Some itemsg) by (by rewrite Htop1).
    rewrite (gremlin_str_last (S (S (S (S f)))) h1 g grp1 lg t itemsg _ h2 _ grp2 Hg1 Hch1 Hi1' Hts Ht2
               eq_refl Hg2 Hrv2).
    unfold view_text. cbn [fst snd tok_kind]. by rewrite (shape_return_var _ _ Hsc1), Hrv1.
  - rewrite Hd2, Hd1, Hdc1. by apply overlay_twice.
  - split; [|rewrite (shape_top _ _ Hsg2), (shape_bottom _ _ Hsg2); cbn; exact (proj2 Hch1)].
    rewrite (shape_top _ _ Hsg2).
    apply (chain_agree (<[t:=mkToken Function g (VStr name) [VStr (ret_prefix (return_var grc1) (spec_join None itemsc))] None]> (tokens hR))).
    + intros i Hi. destruct (decide (i = t)) as [->|Hit]; [by rewrite lookup_insert_eq|].
      rewrite lookup_insert_ne by done. apply Hag. rewrite app_comm_cons in Hi.
      apply elem_of_app in Hi as [Hi|Hi]; [done|by apply list_elem_of_singleton in Hi].
    + apply (chain_insert_same_next _ _ _ _ (mkToken Function g (VStr name) [VGremlin c] None)); [done|done|].
      apply render_heap_chain; [done|]. exact (proj1 Hch1).
  - rewrite (shape_top _ _ Hsg2), app_comm_cons.
    rewrite (chain_items_snoc _ _ _ _ (name +:+ "(" +:+ view_text (return_var grc, itemsc) +:+ ")") Ht2).
    + rewrite (chain_items_agree_eq (tokens hR)) by exact Hag. rewrite Htop1.
      unfold hR. by rewrite (render_heap_items h1 (top grp1 :: lg) (top grp :: lg) itemsg Hndl Hi1).
    + cbn. unfold view_text. cbn [fst snd]. by rewrite (shape_return_var _ _ Hsc1).
Qed.

(** The tokens of a child's chain are not those of the parent's and
    lie below [next_id]. *)
Lemma child_chain_apart h grc lc G i :
  fresh_ids h → gremlin_chain (tokens h) grc lc →
  Forall (λ t, t ∉ top grc :: lc) G → i ∈ top grc :: lc → i ≠ next_id h ∧ i ∉ G.
Proof.
  intros Hf Hchc Hdis Hi. split.
  - intros ->. destruct (chain_in_dom _ _ _ _ (proj1 Hchc) Hi) as [? Hs].
    assert (next_id h < next_id h); [|lia]. apply (fresh_ids_token h); [done|by eexists].
  - intros Hin. rewrite Forall_forall in Hdis. by apply (Hdis i).
Qed.

(** [g.func('name', c)] then [str(g)]: the run, the text, and what the
    rendering leaves in the heap (the parent's chain now holds only
    plain tokens). *)
Lemma nest_func_run f h g c name grp grc rvg itemsg rvc itemsc :
  c ≠ g → fresh_ids h → gremlins h !! g = Some grp → parent grp = None → gremlins h !! c = Some grc →
  builder_view h g = Some (rvg, itemsg) → builder_view h c = Some (rvc, itemsc) →
  Forall (λ t, t ∉ chain_of h c) (chain_of h g) →
  dict_wf (bound_params grc) → nest_clear grp grc →
  let items := (itemsg ++ [(Function, name +:+ "(" +:+ view_text (rvc, itemsc) +:+ ")")])%list in
  ∃ h1 h2 grp2 grc2 l, func (S (S f)) g (VStr name) [VGremlin c] h = (inr (), h1) ∧
    gremlin_str (S (S (S (S (S (S (S f))))))) g h1 = (inr (view_text (rvg, items)), h2) ∧
    gremlins h2 !! g = Some grp2 ∧ bound_params grp2 = overlay (bound_params grp) (bound_params grc) ∧
    gremlins h2 !! c = Some grc2 ∧ parent grc2 = Some (OGremlin g) ∧
    gremlin_chain (tokens h2) grp2 l ∧ return_var grp2 = rvg ∧ chain_items (tokens h2) (top grp2 :: l) = Some items.
Proof.
  intros Hne Hf Hg Hp Hc Hvg Hvc Hdis Hwf Hcl items.
  apply builder_view_spec in Hvg as (grp0 & lg & Hg0 & <- & Hchg & Hig). rewrite Hg in Hg0. injection Hg0 as <-.
  apply builder_view_spec in Hvc as (grc0 & lc & Hc0 & <- & Hchc & Hic). rewrite Hc in Hc0. injection Hc0 as <-.
  rewrite (chain_of_spec _ _ _ _ Hg Hchg), (chain_of_spec _ _ _ _ Hc Hchc) in Hdis.
  destruct (func_nested_run f h g c name grp grc lg Hne Hf Hg Hp Hchg Hc Hwf Hcl)
    as (h1 & grp1 & grc1 & Hrun & Hg1 & Hsg1 & Hp1 & Hd1 & Hc1 & Hsc1 & _ & Hdc1 & Hch1 & Hi1 & Ht1 & Hfr & _).
  assert (Hb : bottom grp ∈ top grp :: lg) by (destruct Hchg as [_ Hl]; by apply last_Some_elem_of).
  assert (Hcin : ∀ i, i ∈ top grc :: lc → tokens h1 !! i = tokens h !! i).
  { intros i Hi. destruct (child_chain_apart h grc lc _ i Hf Hchc Hdis Hi) as [Hn Hni].
    apply Hfr; [done|]. intros ->. by apply Hni. }
  assert (Htc : next_id h ∉ top grc :: lc)
    by (intros Hi; by destruct (child_chain_apart h grc lc _ (next_id h) Hf Hchc Hdis Hi)).
  destruct (nested_str_after f h h1 g c grp grc grp1 grc1 lg lc (next_id h) name itemsg itemsc Hne Hg1
              (shape_top _ _ Hsg1) (shape_return_var _ _ Hsg1) Hp1 Hd1 Hch1 (eq_trans Hi1 Hig) Ht1 Hc1 Hsc1 Hdc1 Hchc Hic
              Hcin Htc (λ i Hi, proj1 (Forall_forall _ _) Hdis i Hi) Hwf Hcl)
    as (h2 & grp2 & grc2 & Hs & Hg2 & Hd2 & Hc2 & Hpc2 & Hch2 & Hrv2 & Hi2).
  by exists h1, h2, grp2, grc2, (lg ++ [next_id h])%list.
Qed.

(** C30: nesting a builder as a function argument composes the two
    texts and the two dicts: for a parent [g] and a child [c] (disjoint
    chains that render, no parent above [g], child values that are no
    placeholders), [g.func('name', c)] succeeds, [str(g)] is the text of
    [g] followed by [.name(<str(c)>)], and afterwards [g]'s dict is
    the child's bindings overlaid on its own, and [c]'s parent is [g]. *)
Theorem nest_func_str f h g c name grp grc rvg itemsg rvc itemsc :
  c ≠ g → fresh_ids h → gremlins h !! g = Some grp → parent grp = None → gremlins h !! c = Some grc →
  builder_view h g = Some (rvg, itemsg) → builder_view h c = Some (rvc, itemsc) →
  Forall (λ t, t ∉ chain_of h c) (chain_of h g) →
  dict_wf (bound_params grc) → nest_clear grp grc →
  ∃ h1 h2 grp2 grc2, func (S (S f)) g (VStr name) [VGremlin c] h = (inr (), h1) ∧
    gremlin_str (S (S (S (S (S (S (S f))))))) g h1 =
      (inr (view_text (rvg, (itemsg ++ [(Function, name +:+ "(" +:+ view_text (rvc, itemsc) +:+ ")")])%list)), h2) ∧
    gremlins h2 !! g = Some grp2 ∧ bound_params grp2 = overlay (bound_params grp) (bound_params grc) ∧
    gremlins h2 !! c = Some grc2 ∧ parent grc2 = Some (OGremlin g).
Proof.
  intros Hne Hf Hg Hp Hc Hvg Hvc Hdis Hwf Hcl.
  destruct (nest_func_run f h g c name grp grc rvg itemsg rvc itemsc Hne Hf Hg Hp Hc Hvg Hvc Hdis Hwf Hcl)
    as (h1 & h2 & grp2 & grc2 & l & Hrun & Hs & Hg2 & Hd2 & Hc2 & Hpc2 & _).
  by exists h1, h2, grp2, grc2.
Qed.

Lemma nest_func_str_witness :
  ∃ h1 h2 grp2 grc2, func 2 0 (VStr "has") [VGremlin 1] nest_sample_heap = (inr (), h1) ∧
    gremlin_str 7 0 h1 =
      (inr (view_text (None, ([(GraphVariable, "g"); (Attribute, "V")] ++
         [(Function, "has" +:+ "(" +:+
            view_text (None, [(GraphVariable, ""); (Function, "out(GPY_PARAM_bbbbb_1)")]) +:+ ")")])%list)), h2) ∧
    gremlins h2 !! 0 = Some grp2 ∧
    bound_params grp2 = overlay (bound_params nest_sample_parent) (bound_params nest_sample_child) ∧
    gremlins h2 !! 1 = Some grc2 ∧ parent grc2 = Some (OGremlin 0).
Proof.
  apply (nest_func_str 0 nest_sample_heap 0 1 "has" nest_sample_parent nest_sample_child None
           [(GraphVariable, "g"); (Attribute, "V")] None
           [(GraphVariable, ""); (Function, "out(GPY_PARAM_bbbbb_1)")]);
    [lia|apply (bool_decide_unpack _); vm_compute; reflexivity|reflexivity|reflexivity|reflexivity
    |vm_compute; reflexivity|vm_compute; reflexivity|apply (bool_decide_unpack _); vm_compute; reflexivity
    |apply NoDup_singleton|].
  intros k x. simpl. case_decide; intros Hk; simplify_eq; reflexivity.
Defined.

(** C19: rendering freezes a nested builder.  After [g.func('name', c)]
    and a first [str(g)] (which pops [c] from the function's arguments
    and appends its text), the text of [g] depends only on [g] and the
    tokens of its own chain: in any later heap that keeps those, whatever
    became of [c] (tokens added to it, its bindings), [str(g)] is the
    first text, so changes to [c] never reach [g]. *)
Theorem render_freezes_nested_builder f h g c name grp grc rvg itemsg rvc itemsc :
  c ≠ g → fresh_ids h → gremlins h !! g = Some grp → parent grp = None → gremlins h !! c = Some grc →
  builder_view h g = Some (rvg, itemsg) → builder_view h c = Some (rvc, itemsc) →
  Forall (λ t, t ∉ chain_of h c) (chain_of h g) →
  dict_wf (bound_params grc) → nest_clear grp grc →
  ∃ h1 h2 s, func (S (S f)) g (VStr name) [VGremlin c] h = (inr (), h1) ∧
    (gremlin_str (S (S (S (S (S (S (S f))))))) g h1) = (inr s, h2) ∧
    ∀ h3, gremlins h3 !! g = gremlins h2 !! g → (∀ i, i ∈ chain_of h2 g → tokens h3 !! i = tokens h2 !! i) →
      (gremlin_str (S (S (S f))) g h3).1 = inr s.
Proof.
  intros Hne Hf Hg Hp Hc Hvg Hvc Hdis Hwf Hcl.
  destruct (nest_func_run f h g c name grp grc rvg itemsg rvc itemsc Hne Hf Hg Hp Hc Hvg Hvc Hdis Hwf Hcl)
    as (h1 & h2 & grp2 & grc2 & l & Hrun & Hs & Hg2 & _ & _ & _ & Hch2 & Hrv2 & Hi2).
  exists h1, h2. eexists. split_and!; [done|exact Hs|].
  intros h3 Hg3 Hag. rewrite (chain_of_spec _ _ _ _ Hg2 Hch2) in Hag. rewrite Hg2 in Hg3.
  assert (Hch3 : gremlin_chain (tokens h3) grp2 l)
    by (destruct Hch2 as [Hc2 Hl2]; split; [by apply (chain_agree (tokens h2))|done]).
  assert (Hi3 : chain_items (tokens h3) (top grp2 :: l) = chain_items (tokens h2) (top grp2 :: l))
    by (by apply chain_items_agree_eq).
  rewrite Hi2 in Hi3. by rewrite (gremlin_str_plain_run f h3 g grp2 l _ Hg3 Hch3 Hi3), Hrv2.
Qed.

Lemma render_freezes_nested_builder_witness :
  ∃ h1 h2 s, func 2 0 (VStr "has") [VGremlin 1] nest_sample_heap = (inr (), h1) ∧
    (gremlin_str 7 0 h1) = (inr s, h2) ∧
    ∀ h3, gremlins h3 !! 0 = gremlins h2 !! 0 → (∀ i, i ∈ chain_of h2 0 → tokens h3 !! i = tokens h2 !! i) →
      (gremlin_str 3 0 h3).1 = inr s.
Proof.
  apply (render_freezes_nested_builder 0 nest_sample_heap 0 1 "has" nest_sample_parent nest_sample_child None
           [(GraphVariable, "g"); (Attribute, "V")] None
           [(GraphVariable, ""); (Function, "out(GPY_PARAM_bbbbb_1)")]);
    [lia|apply (bool_decide_unpack _); vm_compute; reflexivity|reflexivity|reflexivity|reflexivity
    |vm_compute; reflexivity|vm_compute; reflexivity|apply (bool_decide_unpack _); vm_compute; reflexivity
    |apply NoDup_singleton|].
  intros k x. simpl. case_decide; intros Hk; simplify_eq; reflexivity.
Defined.

(** C34: nesting a builder through [__call__] composes in the same way:
    on a parent whose last item is [s] (an attribute, say), [g.s(c)]
    succeeds, [str(g)] is the parent's text with its last item replaced
    by [s(<str(c)>)], and afterwards [g]'s dict is the child's bindings
    overlaid on its own, and [c]'s parent is [g] (the test
    [test_can_nest_gremlin]). *)
Theorem nest_call_str f h g c grp grc rvg itemsg k s rvc itemsc :
  c ≠ g → fresh_ids h → gremlins h !! g = Some grp → parent grp = None → gremlins h !! c = Some grc →
  builder_view h g = Some (rvg, (itemsg ++ [(k, s)])%list) → itemsg ≠ [] →
  builder_view h c = Some (rvc, itemsc) → Forall (λ t, t ∉ chain_of h c) (chain_of h g) →
  dict_wf (bound_params grc) → nest_clear grp grc →
  ∃ h1 h2 grp2 grc2, gremlin_call (S (S f)) g [VGremlin c] h = (inr (), h1) ∧
    gremlin_str (S (S (S (S (S (S (S f))))))) g h1 =
      (inr (view_text (rvg, (itemsg ++ [(Function, s +:+ "(" +:+ view_text (rvc, itemsc) +:+ ")")])%list)), h2) ∧
    gremlins h2 !! g = Some grp2 ∧ bound_params grp2 = overlay (bound_params grp) (bound_params grc) ∧
    gremlins h2 !! c = Some grc2 ∧ parent grc2 = Some (OGremlin g).
Proof.
  intros Hne Hf Hg Hp Hc Hvg Hne0 Hvc Hdis Hwf Hcl.
  apply builder_view_spec in Hvg as (grp0 & lg & Hg0 & <- & Hchg & Hig). rewrite Hg in Hg0. injection Hg0 as <-.
  apply builder_view_spec in Hvc as (grc0 & lc & Hc0 & <- & Hchc & Hic). rewrite Hc in Hc0. injection Hc0 as <-.
  rewrite (chain_of_spec _ _ _ _ Hg Hchg), (chain_of_spec _ _ _ _ Hc Hchc) in Hdis.
  destruct Hchg as [Hch Hl]. apply last_Some in Hl as [L HL]. rewrite HL in Hig, Hch, Hdis.
  destruct (chain_items_app_inv _ _ _ _ _ _ Hig) as (tkb & Hbt & _ & Hs & HiL).
  assert (HL0 : L ≠ []) by (intros ->; injection HiL as <-; done).
  destruct (cons_app_split _ _ _ _ HL HL0) as [l' HL'].
  destruct (exists_last HL0) as [l0 [p ->]].
  destruct (chain_in_dom _ _ _ p Hch) as [tkp Hpt]; [set_solver|].
  pose proof (chain_NoDup _ _ _ Hch) as Hnd. apply NoDup_app in Hnd as (_ & Hd & _).
  destruct (call_nested_run f h g c grp grc l0 p tkp tkb s Hne Hf Hg Hp Hch Hbt Hs Hpt Hc Hwf Hcl)
    as (h1 & grp1 & grc1 & Hrun & Hg1 & Hsg1 & Hp1 & Hd1 & Hc1 & Hsc1 & _ & Hdc1 & Hch1 & Hp1' & Ht1 & Hfr & Hpre).
  assert (Hapart : ∀ i, i ∈ top grc :: lc → i ≠ next_id h ∧ i ∉ ((l0 ++ [p]) ++ [bottom grp])%list)
    by (intros i Hi; by apply (child_chain_apart h grc lc _ i Hf Hchc)).
  assert (Hcin : ∀ i, i ∈ top grc :: lc → tokens h1 !! i = tokens h !! i).
  { intros i Hi. destruct (Hapart i Hi) as [Hn Hni]. apply Hfr; [intros ->; apply Hni; set_solver..|done]. }
  assert (Htc : next_id h ∉ top grc :: lc) by (intros Hi; by destruct (Hapart _ Hi)).
  assert (Hi1 : chain_items (tokens h1) (top grp :: l') = Some itemsg)
    by (rewrite <-HL', (relinked_prefix (tokens h) (tokens h1) _ p (next_id h) tkp Hpt Hp1' Hpre); exact HiL).
  assert (Hch1' : gremlin_chain (tokens h1) (set_bottom grp1 (next_id h)) (l' ++ [next_id h])).
  { split; cbn [top bottom set_bottom]; rewrite (shape_top _ _ Hsg1), app_comm_cons, <-HL'; [|by rewrite last_snoc].
    by rewrite <-app_assoc. }
  assert (Hgd : ∀ i, i ∈ top grp :: l' → i ∉ top grc :: lc).
  { intros i Hi. rewrite <-HL' in Hi. apply (proj1 (Forall_forall _ _) Hdis). set_solver. }
  destruct (nested_str_after f h h1 g c grp grc (set_bottom grp1 (next_id h)) grc1 l' lc (next_id h) s itemsg itemsc
              Hne Hg1 (shape_top _ _ Hsg1) (shape_return_var _ _ Hsg1) Hp1 Hd1 Hch1' Hi1 Ht1 Hc1 Hsc1 Hdc1 Hchc Hic
              Hcin Htc Hgd Hwf Hcl) as (h2 & grp2 & grc2 & Hstr & Hg2 & Hd2 & Hc2 & Hpc2 & _).
  by exists h1, h2, grp2, grc2.
Qed.


Lemma nest_call_str_witness :
  ∃ h1 h2 grp2 grc2, gremlin_call 2 0 [VGremlin 1] nest_call_heap = (inr (), h1) ∧
    gremlin_str 7 0 h1 =
      (inr (view_text (None, ([(GraphVariable, "g"); (Attribute, "V")] ++
         [(Function, "has" +:+ "(" +:+
            view_text (None, [(GraphVariable, ""); (Function, "out(GPY_PARAM_bbbbb_1)")]) +:+ ")")])%list)), h2) ∧
    gremlins h2 !! 0 = Some grp2 ∧
    bound_params grp2 = overlay (bound_params nest_call_parent) (bound_params nest_sample_child) ∧
    gremlins h2 !! 1 = Some grc2 ∧ parent grc2 = Some (OGremlin 0).
Proof.
  apply (nest_call_str 0 nest_call_heap 0 1 nest_call_parent nest_sample_child None
           [(GraphVariable, "g"); (Attribute, "V")] Attribute "has" None
           [(GraphVariable, ""); (Function, "out(GPY_PARAM_bbbbb_1)")]);
    [lia|apply (bool_decide_unpack _); vm_compute; reflexivity|reflexivity|reflexivity|reflexivity
    |vm_compute; reflexivity|discriminate|vm_compute; reflexivity
    |apply (bool_decide_unpack _); vm_compute; reflexivity|apply NoDup_singleton|].
  intros k x. simpl. case_decide; intros Hk; simplify_eq; reflexivity.
Defined.
