(* ===== verification/Tests.v ===== *)
(** * Tests: the test suite of gremlinpy replayed on the model

    Every test of src/gremlinpy/tests/gremlin.py is a computation of the
    monad built from the modelled operations, in the order Python
    evaluates the test's expressions ([g.nest(n.nested())] reads
    [g.nest] before it evaluates the argument), returning whether all its
    assertions hold.  The tests run from an empty heap whose [uuid4]
    oracle [uuid4_str] yields distinct [uuid4] strings (36 characters)
    whose five-digit tails [str(uuid.uuid4())[-5:]] differ.  [dict.popitem] picks an arbitrary item in
    Python 2; a test that pops passes when some choice makes its
    assertions hold.  The random length of the two [random_attributes]
    tests is quantified over its whole range [5 .. 21].  A test's
    [g.name(args)] is resolved as Python resolves it ([call]): [func] is
    the method [Gremlin.func], any other name goes through
    [__getattr__] and [__call__].  The file ends with the collision of
    two placeholder seeds, which the tests' oracle never produces. *)

From S2P Require Import Prelude PyDict PyValue State Binder Chain Render Builder Shape.
#[local] Open Scope string_scope.

(** The recursion limit the tests run with: far above the depth any
    test reaches. *)
Definition F : nat := 50.



(** Two different uuids that share their last five characters. *)
Definition colliding_uuids (n : nat) : string :=
  (if decide (n = 0) then "7f3a9c2e-51b4-4d2a-9e6b-1c8d0a3" else "0d6e4b7a-93c1-4f08-b2aa-5e17c44")
  +:+ "fffff".


Definition params (g : nat) : M (dict pyval) := gr ← load_gremlin g; mret (bound_params gr).






(** ** The tests of [GremlinTests] *)
























(** ** The tests of [GremlinInjectionTests] *)




(** ** The verdicts *)




(** C18: the seed [str(uuid.uuid4())[-5:]] is not unique.  When two
    builders [p] and [c] are made from uuids that differ but end alike,
    [p.bind_param(x)] and [c.bind_param(y)] (what [p.func('f', x)] and
    [c.f(y)] do) generate the same name [GPY_PARAM_<tail>_1], and
    nesting [c] in [p] ([set_parent_gremlin], run by [p.f(c)]) stores
    [y] under it: [p]'s dict is [{name: y}] and [x], which [p]'s text
    refers to by that name, is lost. *)
Theorem seed_collision_loses_binding h gv x y :
  fresh_ids h → py_tail 5 (uuids h (uuid_count h)) = py_tail 5 (uuids h (S (uuid_count h))) →
  py_hashable x = true → py_hashable y = true → (∀ s c, y ≠ VStr (param_name s c)) →
  let n := param_name (py_tail 5 (uuids h (uuid_count h))) 1 in
  ∃ h', (p ← gremlin_init gv; c ← gremlin_init gv;
         r1 ← bind_param F p x None; r2 ← bind_param F c y None;
         set_parent_gremlin F c (OGremlin p);; d ← params p; mret (r1.1, r2.1, d)) h =
        (inr (n, n, [(n, y)]), h').
Proof.
  intros Hf Ht Hx Hy Hyn n. unfold F.
  destruct (gremlin_init_view gv h Hf) as (h1 & Hr1 & _ & Hf1 & Hp1).
  destruct (gremlin_init_counters gv h) as (Hn1 & Hu1 & Hc1). rewrite Hr1 in Hn1, Hu1, Hc1. cbn [snd] in *.
  destruct (gremlin_init_view gv h1 Hf1) as (h2 & Hr2 & _ & _ & Hc2).
  rewrite Hu1, Hc1, <-Ht in Hc2. fold n in Hc2.
  assert (Hne : next_id h1 ≠ next_id h) by lia.
  assert (Hp2 : gremlins h2 !! next_id h =
            Some (mkGremlin gv (S (next_id h)) (S (next_id h)) None [] (py_tail 5 (uuids h (uuid_count h))) 0 None)).
  { pose proof (gremlin_init_frame gv h1 (next_id h) (not_eq_sym Hne)) as Hfr.
    rewrite Hr2 in Hfr. cbn [snd] in Hfr. by rewrite Hfr. }
  set (grp := mkGremlin gv (S (next_id h)) (S (next_id h)) None [] (py_tail 5 (uuids h (uuid_count h))) 0 None) in Hp2.
  set (grc := mkGremlin gv (S (next_id h1)) (S (next_id h1)) None [] (py_tail 5 (uuids h (uuid_count h))) 0 None) in Hc2.
  rewrite (run_bind_ok _ _ _ _ _ Hr1), (run_bind_ok _ _ _ _ _ Hr2).
  rewrite (run_bind_ok _ _ _ _ _ (bind_param_new _ h2 (next_id h) grp x None Hp2 eq_refl
                                   (not_placeholder_of [] _ Hx (λ s _, not_elem_of_nil s)))).
  set (h3 := heap_set_gremlin h2 (next_id h) (bound_gremlin grp n x)).
  assert (Hc3 : gremlins h3 !! next_id h1 = Some grc) by (unfold h3; by rewrite heap_set_gremlin_lookup_ne).
  rewrite (run_bind_ok _ _ _ _ _ (bind_param_new _ h3 (next_id h1) grc y None Hc3 eq_refl
                                   (not_placeholder_of [] _ Hy (λ s _, not_elem_of_nil s)))).
  set (h4 := heap_set_gremlin h3 (next_id h1) (bound_gremlin grc n y)).
  destruct (set_parent_gremlin_run 48 h4 (next_id h1) (next_id h) (bound_gremlin grc n y) (bound_gremlin grp n x))
    as (h5 & grc' & grp' & Hrun & _ & _ & _ & Hg5 & _ & Hd5).
  { done. }
  { apply heap_set_gremlin_lookup_eq. }
  { unfold h4. rewrite heap_set_gremlin_lookup_ne by done. apply heap_set_gremlin_lookup_eq. }
  { done. }
  { apply NoDup_singleton. }
  { intros k v Hk. cbn in Hk. case_decide; [|done]. injection Hk as <-. cbn. rewrite decide_True by done.
    apply not_placeholder_of; [done|]. intros s -> Hs. cbn in Hs. apply list_elem_of_singleton in Hs.
    apply (Hyn (py_tail 5 (uuids h (uuid_count h))) 1). by rewrite Hs. }
  assert (Hpar : params (next_id h) h5 = (inr (bound_params grp'), h5))
    by (unfold params; by rewrite (run_bind_ok _ _ _ _ _ (load_gremlin_run _ _ _ Hg5))).
  rewrite (run_bind_ok _ _ _ _ _ Hrun), (run_bind_ok _ _ _ _ _ Hpar), Hd5.
  eexists. cbn. by rewrite decide_True.
Qed.

Lemma seed_collision_loses_binding_witness :
  ∃ h', (p ← gremlin_init "g"; c ← gremlin_init "g";
         r1 ← bind_param F p (VStr "a") None; r2 ← bind_param F c (VInt 2) None;
         set_parent_gremlin F c (OGremlin p);; d ← params p; mret (r1.1, r2.1, d)) (heap_empty colliding_uuids) =
        (inr ("GPY_PARAM_fffff_1", "GPY_PARAM_fffff_1", [("GPY_PARAM_fffff_1", VInt 2)]), h').
Proof.
  apply (seed_collision_loses_binding (heap_empty colliding_uuids) "g" (VStr "a") (VInt 2));
    [apply (bool_decide_unpack _); vm_compute; reflexivity|reflexivity|reflexivity|reflexivity|
     intros s c; discriminate].
Defined.

